(** * Offline spell checker: sanitizer, tokenizer, dictionary service and
      diagnostic engine of the VS Code extension, embedded in Rocq.

    Sources embedded here:
    - [utils/textProcessing.ts]   ([sanitizeText], [replaceWithSpaces],
      [DEFAULT_REMOVAL_PATTERNS]);
    - [services/SpellService.ts]  ([load], [isReady], [check], [suggest],
      [assertReady]);
    - [features/SpellCheckerProvider.ts] ([doSpellCheck], [safeSuggest],
      [provideCodeActions], [onDocumentChanged], [maybeAutoCheck],
      [loadDictionary], [shouldCheck], ...).

    JavaScript strings are sequences of UTF-16 code units; a code unit is an
    [N].  The regular expressions of the program are values of [regex],
    run by a backtracking matcher that follows the ECMAScript pattern
    semantics (greedy and lazy quantifiers, ordered alternation, the
    empty-iteration check of quantifiers, ASCII case folding for the [i]
    flag), and [String.prototype.replace] / [matchAll] are the loops of the
    language specification over [exec]. *)

From Stdlib Require Import String Ascii.
From Stdlib Require Import List Bool Arith ZArith NArith Lia.
Import Init.Datatypes.
Import ListNotations.
Local Open Scope string_scope.
Local Open Scope list_scope.
Local Open Scope nat_scope.

(* ================================================================== *)
(** * Strings as UTF-16 code units *)
(* ================================================================== *)

Module Js.

Definition char := N.
Definition str := list char.

Definition chr (a : ascii) : char := N_of_ascii a.

(** A string literal of the source, for ASCII text. *)
Definition u16 (s : String.string) : str :=
  map chr (String.list_ascii_of_string s).

Definition space : char := 32%N.
Definition tab : char := 9%N.
Definition LF : char := 10%N.
Definition CR : char := 13%N.
Definition apostrophe : char := 39%N.          (* ' *)
Definition curlyApostrophe : char := 8217%N.   (* U+2019 *)

Definition str_eqb (a b : str) : bool :=
  if list_eq_dec N.eq_dec a b then true else false.

(** [Array.prototype.includes] on an array of strings. *)
Definition includes (l : list str) (x : str) : bool := existsb (str_eqb x) l.

(** [s.substring(a, b)] for [a <= b]. *)
Definition substring (s : str) (a b : nat) : str := firstn (b - a) (skipn a s).

(* ------------------------------------------------------------------ *)
(** ** Patterns *)

(** A member of a character class: a range [lo-hi] (a single character is
    the range [c-c]) or a class escape such as [\s], [\d] ([neg] for the
    upper-case escapes [\S], [\D]). *)
Inductive citem :=
| Range (lo hi : char)
| Escape (neg : bool) (ranges : list (char * char)).

Inductive regex :=
| Eps
| Chr (c : char)
| Cls (invert : bool) (items : list citem)
| Dot
| Seq (r1 r2 : regex)
| Alt (r1 r2 : regex)
| Rep (r : regex) (lo : nat) (hi : option nat) (greedy : bool).

(** A [RegExp] object: the flags [g] and [i] and the pattern.  The pattern
    is [source], in the syntax above, when [native] is [None]; the case
    folding of [i] is the one of ASCII letters, which is all that a pattern
    whose letters are ASCII needs.  A pattern with constructs outside that
    syntax (anchors, look-around, back references, the flags [m] and [y],
    case folding beyond ASCII) is given by [native], the function that its
    [exec] computes, from the input and [lastIndex] to the index and the
    length of the match. *)
Record RegExp := mkRegExp {
  source : regex;
  global : bool;
  ignoreCase : bool;
  native : option (str -> nat -> option (nat * nat))
}.

Definition in_ranges (rs : list (char * char)) (c : char) : bool :=
  existsb (fun r => (fst r <=? c)%N && (c <=? snd r)%N) rs.

Definition in_item (it : citem) (c : char) : bool :=
  match it with
  | Range lo hi => (lo <=? c)%N && (c <=? hi)%N
  | Escape neg rs => xorb neg (in_ranges rs c)
  end.

Definition in_items (items : list citem) (c : char) : bool :=
  existsb (fun it => in_item it c) items.

Definition is_upper (c : char) : bool := (65 <=? c)%N && (c <=? 90)%N.
Definition is_lower (c : char) : bool := (97 <=? c)%N && (c <=? 122)%N.
Definition to_upper (c : char) : char := if is_lower c then (c - 32)%N else c.
Definition to_lower (c : char) : char := if is_upper c then (c + 32)%N else c.

(** [Canonicalize]: identity without the [i] flag, upper case with it. *)
Definition canon (ic : bool) (c : char) : char := if ic then to_upper c else c.

(** [CharacterSetMatcher]: is some member of the set canonically equal to
    the input character?  *)
Definition in_class (ic : bool) (items : list citem) (c : char) : bool :=
  if ic then in_items items c || in_items items (to_upper c) || in_items items (to_lower c)
  else in_items items c.

(** [.] rejects the line terminators. *)
Definition isLineTerminator (c : char) : bool :=
  (c =? 10)%N || (c =? 13)%N || (c =? 8232)%N || (c =? 8233)%N.

Definition is_zero (hi : option nat) : bool :=
  match hi with Some O => true | _ => false end.

Definition dec (hi : option nat) : option nat :=
  match hi with Some n => Some (pred n) | None => None end.

(** [RepeatMatcher] of the language specification, for a body matcher [mr]
    and a continuation [k]: [lo] mandatory iterations, then optional ones
    up to [hi], each of which must consume input (an iteration that matches
    the empty string is a failure).  A greedy quantifier tries one more
    iteration before the continuation, a lazy one the continuation first.
    The recursion is on [fuel], one unit per iteration. *)
Fixpoint rep (mr : str -> (str -> option str) -> option str)
  (k : str -> option str) (greedy : bool)
  (fuel lo : nat) (hi : option nat) (s : str) {struct fuel} : option str :=
  match fuel with
  | O => None
  | S fuel' =>
      if is_zero hi then k s
      else
        match lo with
        | S lo' => mr s (fun s' => rep mr k greedy fuel' lo' (dec hi) s')
        | O =>
            let more (_ : unit) :=
              mr s (fun s' =>
                if length s' <? length s
                then rep mr k greedy fuel' O (dec hi) s'
                else None) in
            if greedy then
              match more tt with
              | Some x => Some x
              | None => k s
              end
            else
              match k s with
              | Some x => Some x
              | None => more tt
              end
        end
  end.

(** The matcher, in continuation-passing style as in the language
    specification: [m ic r s k] matches [r] at the head of [s] and hands the
    rest of the input to [k]; [None] is failure and makes the caller
    backtrack.  A quantifier over the input [s] runs at most
    [lo + length s] iterations, which the fuel given to [rep] covers. *)
Fixpoint m (ic : bool) (r : regex) (s : str) (k : str -> option str)
  {struct r} : option str :=
  match r with
  | Eps => k s
  | Chr c =>
      match s with
      | ch :: s' => if (canon ic ch =? canon ic c)%N then k s' else None
      | [] => None
      end
  | Cls invert items =>
      match s with
      | ch :: s' => if xorb invert (in_class ic items ch) then k s' else None
      | [] => None
      end
  | Dot =>
      match s with
      | ch :: s' => if isLineTerminator ch then None else k s'
      | [] => None
      end
  | Seq r1 r2 => m ic r1 s (fun s' => m ic r2 s' k)
  | Alt r1 r2 =>
      match m ic r1 s k with
      | Some x => Some x
      | None => m ic r2 s k
      end
  | Rep r0 lo hi greedy =>
      rep (m ic r0) k greedy (S (lo + length s)) lo hi s
  end.

(** A match result: [match.index] and [match[0]]. *)
Record Match := mkMatch { index : nat; matched : str }.

(** The scan of [RegExpBuiltinExec]: try the pattern at [pos], then at each
    later position; [s] is the input from [pos] on. *)
Fixpoint search (re : RegExp) (s : str) (pos : nat) : option Match :=
  match m (ignoreCase re) (source re) s Some with
  | Some rest => Some (mkMatch pos (firstn (length s - length rest) s))
  | None =>
      match s with
      | [] => None
      | _ :: s' => search re s' (S pos)
      end
  end.

(** [re.exec(input)] with [re.lastIndex = lastIndex].  A match lies inside
    the input, not before [lastIndex], whatever the pattern is. *)
Definition exec (re : RegExp) (input : str) (lastIndex : nat) : option Match :=
  let lastIndex := if global re then lastIndex else 0 in
  if length input <? lastIndex then None
  else
    match native re with
    | None => search re (skipn lastIndex input) lastIndex
    | Some f =>
        match f input lastIndex with
        | Some (i, n) =>
            if (lastIndex <=? i) && (i + n <=? length input)
            then Some (mkMatch i (substring input i (i + n)))
            else None
        | None => None
        end
    end.

(** The loop shared by [replace] and [matchAll]: call [exec] until it
    fails; a pattern without [g] is run once; after an empty match
    [lastIndex] is advanced by one. *)
Fixpoint execAll (fuel : nat) (re : RegExp) (input : str) (lastIndex : nat)
  : list Match :=
  match fuel with
  | O => []
  | S fuel' =>
      match exec re input lastIndex with
      | None => []
      | Some mt =>
          mt ::
          (if global re then
             let e := index mt + length (matched mt) in
             execAll fuel' re input
                     (if length (matched mt) =? 0 then S e else e)
           else [])
      end
  end.

(** [lastIndex] grows at every turn and [exec] fails beyond the end of the
    input, so [length input + 1] turns exhaust the loop. *)
Definition matches (re : RegExp) (input : str) : list Match :=
  execAll (S (length input)) re input 0.

(** [input.matchAll(re)] for a global [re]. *)
Definition matchAll (input : str) (re : RegExp) : list Match := matches re input.

(** The assembly of the result of [replace]: the text between the matches
    is kept, each match is replaced by what the replacer returns for it. *)
Fixpoint build (input : str) (replacer : str -> str) (results : list Match)
  (nextSourcePosition : nat) : str :=
  match results with
  | [] => skipn nextSourcePosition input
  | mt :: rest =>
      let position := index mt in
      if nextSourcePosition <=? position then
        substring input nextSourcePosition position
          ++ replacer (matched mt)
          ++ build input replacer rest (position + length (matched mt))
      else build input replacer rest nextSourcePosition
  end.

(** [input.replace(re, replacer)] with a function replacer. *)
Definition replace (input : str) (re : RegExp) (replacer : str -> str) : str :=
  build input replacer (matches re input) 0.

(** [re.test(input)] on a fresh pattern. *)
Definition test (re : RegExp) (input : str) : bool :=
  match exec re input 0 with Some _ => true | None => false end.

(* ------------------------------------------------------------------ *)
(** ** Pattern syntax helpers *)

Fixpoint lit_list (l : list ascii) : regex :=
  match l with
  | [] => Eps
  | [a] => Chr (chr a)
  | a :: l' => Seq (Chr (chr a)) (lit_list l')
  end.

(** A literal run of ASCII characters. *)
Definition lit (s : String.string) : regex :=
  lit_list (String.list_ascii_of_string s).

Definition rng (a b : ascii) : citem := Range (chr a) (chr b).
Definition one (a : ascii) : citem := Range (chr a) (chr a).

(** [WhiteSpace] and [LineTerminator] code units: the set of [\s]. *)
Definition whiteSpace : list (char * char) :=
  [(9, 13); (32, 32); (160, 160); (5760, 5760); (8192, 8202); (8232, 8233);
   (8239, 8239); (8287, 8287); (12288, 12288); (65279, 65279)]%N.

Definition digits : list (char * char) := [(48, 57)]%N.

Definition cls_s : citem := Escape false whiteSpace.   (* \s *)
Definition cls_S : citem := Escape true whiteSpace.    (* \S *)
Definition cls_d : citem := Escape false digits.       (* \d *)

Definition star (r : regex) : regex := Rep r 0 None true.         (* r*  *)
Definition plus (r : regex) : regex := Rep r 1 None true.         (* r+  *)
Definition lazy_star (r : regex) : regex := Rep r 0 None false.   (* r*? *)
Definition opt (r : regex) : regex := Rep r 0 (Some 1) true.      (* r?  *)
Definition times (n : nat) (r : regex) : regex := Rep r n (Some n) true. (* r{n} *)
Definition at_least (n : nat) (r : regex) : regex := Rep r n None true.  (* r{n,} *)

Fixpoint seqs (rs : list regex) : regex :=
  match rs with
  | [] => Eps
  | [r] => r
  | r :: rs' => Seq r (seqs rs')
  end.

Fixpoint alts (rs : list regex) : regex :=
  match rs with
  | [] => Cls false []
  | [r] => r
  | r :: rs' => Alt r (alts rs')
  end.

End Js.

(* ================================================================== *)
(** * utils/textProcessing.ts *)
(* ================================================================== *)

Module TextProcessing.
Import Js.

Definition g (r : regex) : RegExp := mkRegExp r true false None.
Definition gi (r : regex) : RegExp := mkRegExp r true true None.

(** [[\s\S]]: any code unit. *)
Definition anything : regex := Cls false [cls_s; cls_S].

(** [/-{3}[\s\S]*?\n(\.{3}|-{3})/g]: front-matter block. *)
Definition frontMatter : RegExp :=
  g (seqs [times 3 (Chr (chr "-")); lazy_star anything; Chr LF;
           Alt (times 3 (Chr (chr "."))) (times 3 (Chr (chr "-")))]).

(** [/&nbsp;/g] *)
Definition nbsp : RegExp := g (lit "&nbsp;").

(** [/\[-?@[A-Za-z:0-9-]*\]/g]: Pandoc citations. *)
Definition citation : RegExp :=
  g (seqs [Chr (chr "["); opt (Chr (chr "-")); Chr (chr "@");
           star (Cls false [rng "A" "Z"; rng "a" "z"; one ":"; rng "0" "9";
                            one "-"]);
           Chr (chr "]")]).

(** [/\{(#|\.)[A-Za-z:0-9]+\}/g]: attribute blocks. *)
Definition attributes : RegExp :=
  g (seqs [Chr (chr "{"); Alt (Chr (chr "#")) (Chr (chr "."));
           plus (Cls false [rng "A" "Z"; rng "a" "z"; one ":"; rng "0" "9"]);
           Chr (chr "}")]).

(** [/```[\s\S]*?```/g]: fenced code. *)
Definition fencedCode : RegExp :=
  g (seqs [lit "```"; lazy_star anything; lit "```"]).

(** [/`[^`]+`/g]: inline code. *)
Definition inlineCode : RegExp :=
  g (seqs [Chr (chr "`"); plus (Cls true [one "`"]); Chr (chr "`")]).

(** [/\(.*\.(jpg|jpeg|png|md|gif|pdf|svg)\)/gi]: image and file links. *)
Definition fileLink : RegExp :=
  gi (seqs [Chr (chr "("); star Dot; Chr (chr ".");
            alts [lit "jpg"; lit "jpeg"; lit "png"; lit "md"; lit "gif";
                  lit "pdf"; lit "svg"];
            Chr (chr ")")]).

(** [/(http|https|ftp|git)\S*/g]: URLs. *)
Definition url : RegExp :=
  g (Seq (alts [lit "http"; lit "https"; lit "ftp"; lit "git"])
         (star (Cls false [cls_S]))).

(** [/[a-zA-Z.\-0-9]+@[a-z.]+/g]: email addresses. *)
Definition email : RegExp :=
  g (seqs [plus (Cls false [rng "a" "z"; rng "A" "Z"; one "."; one "-";
                            rng "0" "9"]);
           Chr (chr "@");
           plus (Cls false [rng "a" "z"; one "."])]).

Definition DEFAULT_REMOVAL_PATTERNS : list RegExp :=
  [frontMatter; nbsp; citation; attributes; fencedCode; inlineCode; fileLink;
   url; email].

(** [interface SanitizeOptions]: both fields are optional. *)
Record SanitizeOptions := mkSanitizeOptions {
  removalPatterns : option (list RegExp);
  userPatterns : option (list RegExp)
}.

(** [a ?? b] *)
Definition orDefault {A} (o : option A) (d : A) : A :=
  match o with Some x => x | None => d end.

Definition replaceWithSpaces (input : str) (regex : RegExp) : str :=
  replace input regex (fun mt => repeat space (length mt)).

(** [/\t/g] *)
Definition tabs : RegExp := g (Chr tab).

Definition sanitizeText (text : str) (options : SanitizeOptions) : str :=
  let processed :=
    fold_left replaceWithSpaces
              (orDefault (removalPatterns options) DEFAULT_REMOVAL_PATTERNS)
              text in
  let processed :=
    fold_left replaceWithSpaces (orDefault (userPatterns options) []) processed in
  replace processed tabs (fun _ => [space]).

End TextProcessing.

(* ================================================================== *)
(** * Exceptions *)
(* ================================================================== *)

(** What a call can throw (or an [async] function reject with). *)
Inductive Error :=
| NotLoaded        (* Error('SpellService is not loaded with a dictionary.') *)
| IOError          (* readFile rejected: missing or unreadable file *)
| ParseError       (* the dictionary parser threw: corrupt file *)
| BackendError.    (* the backing checker threw *)

Inductive Result (A : Type) :=
| Ok (a : A)
| Throw (e : Error).
Arguments Ok {A} a.
Arguments Throw {A} e.

Definition bind {A B} (r : Result A) (f : A -> Result B) : Result B :=
  match r with
  | Ok a => f a
  | Throw e => Throw e
  end.

Notation "x <- c ;; k" := (bind c (fun x => k))
  (at level 61, c at next level, right associativity).

(** [try { body } catch { return d }] *)
Definition tryCatch {A} (body : Result A) (handler : Error -> A) : A :=
  match body with
  | Ok a => a
  | Throw e => handler e
  end.

(* ================================================================== *)
(** * services/SpellService.ts *)
(* ================================================================== *)

Module SpellService.
Import Js.

Inductive DictionaryCode :=
| en_US | en_GB_ize | en_GB_ise | es_ANY | fr | el_GR | sv_SE.

Definition codeName (language : DictionaryCode) : str :=
  match language with
  | en_US => u16 "en_US"
  | en_GB_ize => u16 "en_GB-ize"
  | en_GB_ise => u16 "en_GB-ise"
  | es_ANY => u16 "es_ANY"
  | fr => u16 "fr"
  | el_GR => u16 "el_GR"
  | sv_SE => u16 "sv_SE"
  end.

(** The dictionary that [hunspell-spellchecker] builds from an affix file
    and a word list, seen through what the service asks of it: [check]
    answers, [suggest] answers with an array, with a falsy value ([None]),
    or throws. *)
Record Dictionary := mkDictionary {
  dictCheck : str -> bool;
  dictSuggest : str -> Result (option (list str))
}.

(** The collaborators of [load]: [path.join] of the platform, the file
    system and the dictionary parser.  [readFile] rejects for a missing
    file, [parse] throws on a corrupt one. *)
Record Files := mkFiles {
  pathJoin : str -> str -> str;
  readFile : str -> Result str;
  parse : str -> str -> Result Dictionary
}.

(** The fields of the class: the dictionary the backing [SpellChecker] is
    using (set by [use]) and [loadedLanguage]. *)
Record t := mk {
  spellChecker : option Dictionary;
  loadedLanguage : option DictionaryCode
}.

(** [new SpellService()] *)
Definition new : t := mk None None.

(** [load]: both files are read, the dictionary is parsed and put to use,
    and only then is [loadedLanguage] assigned; a failure at any earlier
    point leaves the object as it was. *)
Definition load (fs : Files) (language : DictionaryCode) (extensionRoot : str)
  (this : t) : Result unit * t :=
  let dictionaryFolder := pathJoin fs extensionRoot (u16 "languages") in
  let affPath :=
    pathJoin fs dictionaryFolder (codeName language ++ u16 ".aff") in
  let dicPath :=
    pathJoin fs dictionaryFolder (codeName language ++ u16 ".dic") in
  match (aff <- readFile fs affPath ;;
         dic <- readFile fs dicPath ;;
         parse fs aff dic) with
  | Throw e => (Throw e, this)
  | Ok dict => (Ok tt, mk (Some dict) (Some language))
  end.

Definition isReady (this : t) : bool :=
  match loadedLanguage this with Some _ => true | None => false end.

Definition getLanguage (this : t) : option DictionaryCode := loadedLanguage this.

Definition assertReady (this : t) : Result unit :=
  match loadedLanguage this with
  | None => Throw NotLoaded
  | Some _ => Ok tt
  end.

(** The backing checker's own [check] and [suggest]; without a dictionary
    in use the library fails. *)
Definition backingCheck (this : t) (word : str) : Result bool :=
  match spellChecker this with
  | Some d => Ok (dictCheck d word)
  | None => Throw BackendError
  end.

Definition backingSuggest (this : t) (word : str) : Result (option (list str)) :=
  match spellChecker this with
  | Some d => dictSuggest d word
  | None => Throw BackendError
  end.

Definition check (this : t) (word : str) : Result bool :=
  _ <- assertReady this ;;
  backingCheck this word.

(** [suggestions.slice(0, limit)]: a negative [limit] counts from the end. *)
Definition slice0 {A} (l : list A) (limit : Z) : list A :=
  if (limit <? 0)%Z then firstn (length l - Z.to_nat (- limit)) l
  else firstn (Z.to_nat limit) l.

Definition suggest (this : t) (word : str) (limit : Z) : Result (list str) :=
  _ <- assertReady this ;;
  r <- backingSuggest this word ;;
  let suggestions := match r with Some l => l | None => [] end in
  Ok (slice0 suggestions limit).

End SpellService.

(* ================================================================== *)
(** * features/SpellCheckerProvider.ts *)
(* ================================================================== *)

Module Provider.
Import Js TextProcessing.

Inductive SeverityOption := SevError | SevHint | SevInformation | SevWarning.

Record SpellSettings := mkSettings {
  language : SpellService.DictionaryCode;
  ignoreWordsList : list str;
  documentTypes : list str;
  ignoreRegExp : list str;
  ignoreFileExtensions : list str;
  ignoreFilenames : list str;
  checkInterval : Z;
  suggestionSeverity : SeverityOption;
  autoCheck : bool;
  maxDiagnostics : Z;
  suggestionLimit : Z
}.

Definition DEFAULT_SETTINGS : SpellSettings :=
  {| language := SpellService.en_US;
     ignoreWordsList := [];
     documentTypes := [u16 "markdown"; u16 "latex"; u16 "plaintext"];
     ignoreRegExp := [];
     ignoreFileExtensions := [];
     ignoreFilenames := [];
     checkInterval := 3000;
     suggestionSeverity := SevWarning;
     autoCheck := true;
     maxDiagnostics := 250;
     suggestionLimit := 5 |}.

(** A [vscode.TextDocument]: [uri] is [uri.toString()], [scheme] is
    [uri.scheme], [getText] the whole text. *)
Record TextDocument := mkDocument {
  uri : str;
  scheme : str;
  fileName : str;
  languageId : str;
  getText : str
}.

(** A position of a document is kept as the offset of its character.
    [positionAt] brings the offset into the document and the character
    into the line: an offset between the CR and the LF of a line end gives
    the end of the line. *)
Definition Position := nat.

Definition positionAt (document : TextDocument) (offset : nat) : Position :=
  let offset := Nat.min offset (length (getText document)) in
  match offset with
  | 0 => 0
  | S before =>
      match skipn before (getText document) with
      | c :: d :: _ => if (c =? CR)%N && (d =? LF)%N then before else offset
      | _ => offset
      end
  end.

Record Range := mkRange { rangeStart : Position; rangeEnd : Position }.

(** [document.getText(range)] *)
Definition getTextIn (document : TextDocument) (range : Range) : str :=
  substring (getText document) (rangeStart range) (rangeEnd range).

(** [code] is [None] for a diagnostic whose code is not a string. *)
Record Diagnostic := mkDiagnostic {
  range : Range;
  message : str;
  severity : SeverityOption;
  diagSource : str;
  code : option str
}.

Inductive ConfigurationTarget := TargetGlobal | TargetWorkspace.

Inductive Command :=
| FixSuggestion (documentUri : str) (r : Range) (suggestion : str)
| IgnoreWord (documentUri : str) (word : str) (target : ConfigurationTarget)
| AlwaysIgnoreWord (documentUri : str) (word : str).

Record CodeAction := mkCodeAction {
  title : str;
  command : Command;
  actionDiagnostics : list Diagnostic;
  isPreferred : bool
}.

(** What the provider shows to the user:
    [setStatusBarMessage(`Over ${maxDiagnostics} spelling errors found!`)]
    and [showErrorMessage(`Failed to load dictionary ${language}: ...`)]. *)
Inductive Notice :=
| OverflowMessage (maxDiagnostics : Z)
| LoadFailedMessage (language : SpellService.DictionaryCode) (error : Error).

(** A timeout armed with [setTimeout]: its delay and the document captured
    by the callback. *)
Record Timer := mkTimer {
  timerId : nat;
  delay : Z;
  eventDocument : TextDocument
}.

(** The editor around the provider: the pending timeouts, the active
    editor's document and what has been shown so far. *)
Record Host := mkHost {
  pending : list Timer;
  nextTimerId : nat;
  activeTextEditor : option TextDocument;
  shown : list Notice
}.

(** Node and editor functions the provider calls. [userRegExp] is the
    [RegExp] that the [try] block of [getUserRegexps] constructs from one
    [ignoreRegExp] entry, [None] when the constructor throws. *)
Record Platform := mkPlatform {
  files : SpellService.Files;
  extname : str -> str;
  basename : str -> str;
  userRegExp : str -> option RegExp
}.

(** The fields of the class, the diagnostics of each document ([Map] and
    [DiagnosticCollection], keyed by [uri]) as association lists. *)
Record t := mk {
  spellService : SpellService.t;
  diagnosticCollection : list (str * list Diagnostic);
  diagnosticMap : list (str * list Diagnostic);
  settings : SpellSettings;
  extensionRoot : str;
  lastcheck : Z;
  timer : option Timer;
  timerTextDocument : option TextDocument;
  autoCheckEnabled : bool;
  host : Host
}.

Definition withHost (h : Host) (this : t) : t :=
  mk (spellService this) (diagnosticCollection this) (diagnosticMap this)
     (settings this) (extensionRoot this) (lastcheck this) (timer this)
     (timerTextDocument this) (autoCheckEnabled this) h.

Definition withService (s : SpellService.t) (this : t) : t :=
  mk s (diagnosticCollection this) (diagnosticMap this)
     (settings this) (extensionRoot this) (lastcheck this) (timer this)
     (timerTextDocument this) (autoCheckEnabled this) (host this).

Definition withTimer (tm : option Timer) (this : t) : t :=
  mk (spellService this) (diagnosticCollection this) (diagnosticMap this)
     (settings this) (extensionRoot this) (lastcheck this) tm
     (timerTextDocument this) (autoCheckEnabled this) (host this).

Definition show (n : Notice) (this : t) : t :=
  let h := host this in
  withHost (mkHost (pending h) (nextTimerId h) (activeTextEditor h)
                   (shown h ++ [n])) this.

(** [map.set(key, value)] *)
Definition mapSet {V} (key : str) (value : V) (l : list (str * V))
  : list (str * V) :=
  (key, value) :: filter (fun kv => negb (str_eqb (fst kv) key)) l.

(** [clearTimeout(handle)] *)
Definition clearTimeout (handle : Timer) (this : t) : t :=
  let h := host this in
  withHost (mkHost (filter (fun tm => negb (timerId tm =? timerId handle))
                           (pending h))
                   (nextTimerId h) (activeTextEditor h) (shown h)) this.

(** [/[A-Za-z][A-Za-z'’]{3,}/g] *)
Definition wordRegex : RegExp :=
  g (Seq (Cls false [rng "A" "Z"; rng "a" "z"])
         (at_least 3 (Cls false [rng "A" "Z"; rng "a" "z";
                                 Js.Range apostrophe apostrophe;
                                 Js.Range curlyApostrophe curlyApostrophe]))).

(** [/’/g], [/\d/] and [/\r?\n/g] *)
Definition curlyRegex : RegExp := g (Chr curlyApostrophe).
Definition digitRegex : RegExp :=
  mkRegExp (Cls false [cls_d]) false false None.
Definition newlineRegex : RegExp := g (Seq (opt (Chr CR)) (Chr LF)).

Definition getUserRegexps (pf : Platform) (this : t) : list RegExp :=
  flat_map (fun value =>
              match userRegExp pf value with
              | Some re => [re]
              | None => []
              end)
           (ignoreRegExp (settings this)).

Definition getSeverity (this : t) : SeverityOption :=
  match suggestionSeverity (settings this) with
  | SevError => SevError
  | SevHint => SevHint
  | SevInformation => SevInformation
  | SevWarning => SevWarning
  end.

Definition shouldCheck (pf : Platform) (this : t) (document : TextDocument)
  : bool :=
  if negb (SpellService.isReady (spellService this)) then false
  else if negb (str_eqb (scheme document) (u16 "file")) then false
  else if negb (includes (documentTypes (settings this)) (languageId document))
  then false
  else if includes (ignoreFileExtensions (settings this))
                   (extname pf (fileName document)) then false
  else if includes (ignoreFilenames (settings this))
                   (basename pf (fileName document)) then false
  else true.

(** The local variables of the loop of [doSpellCheck]; [overflow] counts
    the calls of [setStatusBarMessage] made by the loop. *)
Record Pass := mkPass {
  diagnostics : list Diagnostic;
  processedTokens : nat;
  overflow : nat
}.

(** How a turn of the loop ends: [continue] or the end of the body go on
    to the next match, [break] leaves the loop. *)
Inductive Flow :=
| Continue (st : Pass)
| Break (st : Pass).

(** The body of [for (const match of sanitized.matchAll(wordRegex))].
    ([match.index] is never [undefined] for a match of [matchAll].) *)
Definition checkToken (this : t) (document : TextDocument) (mt : Match)
  (st : Pass) : Result Flow :=
  let processedTokens := processedTokens st + 1 in
  let originalWord := matched mt in
  let normalizedWord :=
    replace originalWord curlyRegex (fun _ => [apostrophe]) in
  if test digitRegex normalizedWord then
    Ok (Continue (mkPass (diagnostics st) processedTokens (overflow st)))
  else if includes (ignoreWordsList (settings this)) normalizedWord then
    Ok (Continue (mkPass (diagnostics st) processedTokens (overflow st)))
  else
    ok <- SpellService.check (spellService this) normalizedWord ;;
    let bottom (diagnostics : list Diagnostic) :=
      if (Z.of_nat processedTokens >=? maxDiagnostics (settings this) * 20)%Z
      then Ok (Break (mkPass diagnostics processedTokens (overflow st)))
      else Ok (Continue (mkPass diagnostics processedTokens (overflow st))) in
    if negb ok then
      let start := positionAt document (index mt) in
      let end_ := positionAt document (index mt + length originalWord) in
      let diag :=
        mkDiagnostic (mkRange start end_)
                     (u16 "Spelling: " ++ normalizedWord)
                     (getSeverity this)
                     (u16 "Spell Checker")
                     (Some normalizedWord) in
      let diagnostics := diagnostics st ++ [diag] in
      if (Z.of_nat (length diagnostics) >=? maxDiagnostics (settings this))%Z
      then Ok (Break (mkPass diagnostics processedTokens (S (overflow st))))
      else bottom diagnostics
    else bottom (diagnostics st).

(** The loop over the matches, in order. *)
Fixpoint checkLoop (this : t) (document : TextDocument)
  (tokens : list Match) (st : Pass) : Result Pass :=
  match tokens with
  | [] => Ok st
  | mt :: rest =>
      match checkToken this document mt st with
      | Throw e => Throw e
      | Ok (Break st') => Ok st'
      | Ok (Continue st') => checkLoop this document rest st'
      end
  end.

(** The text the pass works on and its tokens. *)
Definition normalizedText (document : TextDocument) : str :=
  replace (getText document) newlineRegex (fun _ => [LF]).

Definition sanitizedText (pf : Platform) (this : t) (document : TextDocument)
  : str :=
  sanitizeText (normalizedText document)
               (mkSanitizeOptions None (Some (getUserRegexps pf this))).

Definition tokensOf (pf : Platform) (this : t) (document : TextDocument)
  : list Match :=
  matchAll (sanitizedText pf this document) wordRegex.

(** The pass of [doSpellCheck] over an eligible document. *)
Definition runPass (pf : Platform) (this : t) (document : TextDocument)
  : Result Pass :=
  checkLoop this document (tokensOf pf this document) (mkPass [] 0 0).

Definition overflowMessage (this : t) : Notice :=
  OverflowMessage (maxDiagnostics (settings this)).

(** The end of [doSpellCheck]: the notices of the loop are on the status
    bar, the diagnostics of the document are replaced in the collection and
    in the map, and [lastcheck] is the current time. *)
Definition publish (now : Z) (document : TextDocument) (pass : Pass)
  (this : t) : t :=
  let this := Nat.iter (overflow pass) (show (overflowMessage this)) this in
  mk (spellService this)
     (mapSet (uri document) (diagnostics pass) (diagnosticCollection this))
     (mapSet (uri document) (diagnostics pass) (diagnosticMap this))
     (settings this) (extensionRoot this) now (timer this)
     (timerTextDocument this) (autoCheckEnabled this) (host this).

Definition firstSome {A} (a b : option A) : option A :=
  match a with Some x => Some x | None => b end.

(** [doSpellCheck(textDocument)] at time [now] ([Date.now()]). *)
Definition doSpellCheck (pf : Platform) (now : Z)
  (textDocument : option TextDocument) (this : t) : Result t :=
  match firstSome textDocument
          (firstSome (activeTextEditor (host this)) (timerTextDocument this)) with
  | None => Ok this
  | Some document =>
      match fileName document with
      | [] => Ok this
      | _ :: _ =>
          if negb (shouldCheck pf this document) then Ok this
          else
            pass <- runPass pf this document ;;
            Ok (publish now document pass this)
      end
  end.

(** [void promise]: a rejection is dropped and, since [doSpellCheck] writes
    its fields after the loop only, leaves the provider as it was. *)
Definition settle (this : t) (r : Result t) : t :=
  match r with Ok this' => this' | Throw _ => this end.

(** [setTimeout(callback, delay)] *)
Definition setTimeout (d : Z) (document : TextDocument) (this : t) : t :=
  let h := host this in
  let tm := mkTimer (nextTimerId h) d document in
  withTimer (Some tm)
    (withHost (mkHost (pending h ++ [tm]) (S (nextTimerId h))
                      (activeTextEditor h) (shown h)) this).

Definition withTimerTextDocument (d : option TextDocument) (this : t) : t :=
  mk (spellService this) (diagnosticCollection this) (diagnosticMap this)
     (settings this) (extensionRoot this) (lastcheck this) (timer this)
     d (autoCheckEnabled this) (host this).

Definition onDocumentChanged (pf : Platform) (now : Z)
  (document : TextDocument) (this : t) : t :=
  if negb (shouldCheck pf this document) then this
  else if (checkInterval (settings this) <? 0)%Z || negb (autoCheckEnabled this)
  then this
  else if (now - lastcheck this >? checkInterval (settings this))%Z then
    let this :=
      match timer this with
      | Some tm => withTimer None (clearTimeout tm this)
      | None => this
      end in
    settle this (doSpellCheck pf now (Some document) this)
  else
    let this :=
      match timer this with
      | Some tm => clearTimeout tm this
      | None => this
      end in
    let this := withTimerTextDocument (Some document) this in
    setTimeout (2 * checkInterval (settings this)) document this.

Definition maybeAutoCheck (pf : Platform) (now : Z)
  (document : TextDocument) (this : t) : t :=
  if (checkInterval (settings this) <? 0)%Z || negb (autoCheckEnabled this)
  then this
  else if negb (shouldCheck pf this document) then this
  else settle this (doSpellCheck pf now (Some document) this).

(** The command [spellchecker.checkDocument]. *)
Definition checkDocumentCommand (pf : Platform) (now : Z) (this : t) : t :=
  settle this (doSpellCheck pf now (activeTextEditor (host this)) this).

(** The callback of the timeout armed by [onDocumentChanged]. *)
Definition timerFired (pf : Platform) (now : Z) (tm : Timer) (this : t) : t :=
  let this := clearTimeout tm this in
  settle this
    (doSpellCheck pf now
       (firstSome (timerTextDocument this) (Some (eventDocument tm))) this).

(** What the editor sends to the provider. *)
Inductive Event :=
| DidOpen (document : TextDocument)
| DidSave (document : TextDocument)
| DidChange (document : TextDocument)
| TimerFired (tm : Timer)
| CheckDocument.

Definition handle (pf : Platform) (now : Z) (e : Event) (this : t) : t :=
  match e with
  | DidOpen d => maybeAutoCheck pf now d this
  | DidSave d => maybeAutoCheck pf now d this
  | DidChange d => onDocumentChanged pf now d this
  | TimerFired tm =>
      if existsb (fun x => timerId x =? timerId tm) (pending (host this))
      then timerFired pf now tm this else this
  | CheckDocument => checkDocumentCommand pf now this
  end.

Definition loadDictionary (pf : Platform)
  (language : SpellService.DictionaryCode) (this : t) : t :=
  match SpellService.load (files pf) language (extensionRoot this)
                          (spellService this) with
  | (Ok _, s) => withService s this
  | (Throw e, s) =>
      show (LoadFailedMessage language e) (withService s this)
  end.

Definition safeSuggest (this : t) (word : str) : list str :=
  tryCatch (SpellService.suggest (spellService this) word
                                 (suggestionLimit (settings this)))
           (fun _ => []).

Definition replaceActions (document : TextDocument) (diagnostic : Diagnostic)
  (suggestions : list str) : list CodeAction :=
  map (fun si =>
         mkCodeAction (u16 "Replace with '" ++ snd si ++ u16 "'")
                      (FixSuggestion (uri document) (range diagnostic) (snd si))
                      [diagnostic]
                      (fst si =? 0))
      (combine (seq 0 (length suggestions)) suggestions).

Definition provideCodeActions (this : t) (document : TextDocument)
  (contextDiagnostics : list Diagnostic) : option (list CodeAction) :=
  match find (fun d => match code d with Some _ => true | None => false end)
             contextDiagnostics with
  | None => None
  | Some diagnostic =>
      match code diagnostic with
      | None => None
      | Some word =>
          let suggestions := safeSuggest this word in
          let actions := replaceActions document diagnostic suggestions in
          let ignore :=
            mkCodeAction (u16 "Ignore '" ++ word ++ u16 "'")
                         (IgnoreWord (uri document) word TargetWorkspace)
                         [diagnostic] false in
          let alwaysIgnore :=
            mkCodeAction (u16 "Always ignore '" ++ word ++ u16 "'")
                         (AlwaysIgnoreWord (uri document) word)
                         [diagnostic] false in
          Some (actions ++ [ignore] ++ [alwaysIgnore])
      end
  end.

End Provider.

(* ================================================================== *)
(** * Notions used to state the properties *)
(* ================================================================== *)

Module Spans.
Import Js TextProcessing.

(** The offsets of a match: [index <= i < index + length]. *)
Definition covers (mt : Match) (i : nat) : bool :=
  (index mt <=? i) && (i <? index mt + length (matched mt)).

Definition covered (ms : list Match) (i : nat) : bool :=
  existsb (fun mt => covers mt i) ms.

(** Matches of one scan of [input], as [exec] finds them from offset [p]
    on: in order, disjoint, inside the input, each carrying the text it
    spans. *)
Fixpoint spans_ok (input : str) (p : nat) (ms : list Match) : Prop :=
  match ms with
  | [] => True
  | mt :: rest =>
      p <= index mt
      /\ index mt + length (matched mt) <= length input
      /\ matched mt = substring input (index mt) (index mt + length (matched mt))
      /\ spans_ok input (index mt + length (matched mt)) rest
  end.

(** [s], which starts at offset [p], with every covered offset blanked. *)
Fixpoint blank_from (ms : list Match) (p : nat) (s : str) : str :=
  match s with
  | [] => []
  | c :: s' => (if covered ms p then space else c) :: blank_from ms (S p) s'
  end.

Definition blank (ms : list Match) (s : str) : str := blank_from ms 0 s.

(** The matched spans of a chain of patterns: those of the first pattern in
    [text], then those of the next patterns in the text already blanked. *)
Fixpoint trace (text : str) (patterns : list RegExp) : list Match :=
  match patterns with
  | [] => []
  | re :: rest => matches re text ++ trace (replaceWithSpaces text re) rest
  end.

(** The patterns that [sanitizeText] applies before the tab pass. *)
Definition patternsOf (options : SanitizeOptions) : list RegExp :=
  orDefault (removalPatterns options) DEFAULT_REMOVAL_PATTERNS
    ++ orDefault (userPatterns options) [].

Definition untab (c : char) : char := if (c =? tab)%N then space else c.

(** Every character that an atom of the pattern accepts satisfies [P]. *)
Fixpoint atoms (ic : bool) (P : char -> Prop) (r : regex) : Prop :=
  match r with
  | Eps => True
  | Chr c => forall ch, canon ic ch = canon ic c -> P ch
  | Cls invert items =>
      forall ch, xorb invert (in_class ic items ch) = true -> P ch
  | Dot => forall ch, isLineTerminator ch = false -> P ch
  | Seq r1 r2 => atoms ic P r1 /\ atoms ic P r2
  | Alt r1 r2 => atoms ic P r1 /\ atoms ic P r2
  | Rep r0 _ _ _ => atoms ic P r0
  end.

(** A matcher that looks at its continuation only on inputs that are not
    longer than its own. *)
Definition local (mr : str -> (str -> option str) -> option str) : Prop :=
  forall s k1 k2,
    (forall s', length s' <= length s -> k1 s' = k2 s') ->
    mr s k1 = mr s k2.

(** A carriage return directly followed by a line feed. *)
Fixpoint hasCRLF (s : str) : bool :=
  match s with
  | [] => false
  | c :: s' =>
      match s' with
      | d :: _ => ((c =? CR)%N && (d =? LF)%N) || hasCRLF s'
      | [] => false
      end
  end.

(** A matcher that only consumes a prefix of its input, made of
    characters that satisfy [P], before it calls its continuation. *)
Definition sound (P : char -> Prop)
  (mr : str -> (str -> option str) -> option str) : Prop :=
  forall s k x, mr s k = Some x ->
    exists s1 s2, s = s1 ++ s2 /\ Forall P s1 /\ k s2 = Some x.

(** [x] with [c] replaced by [d]. *)
Definition subst1 (c d x : char) : char := if (x =? c)%N then d else x.

End Spans.


(* ================================================================== *)
(** * Notions used to state the properties of the check pass *)
(* ================================================================== *)

Module Pass.
Import Js TextProcessing Provider.

(** Letters and the two apostrophes: the characters of [wordRegex]. *)
Definition isWordChar (c : char) : bool :=
  in_items [rng "A" "Z"; rng "a" "z"; Js.Range apostrophe apostrophe;
            Js.Range curlyApostrophe curlyApostrophe] c.

Definition isDigit (c : char) : bool := in_ranges digits c.

(** [originalWord.replace(/’/g, '\'')] *)
Definition normalize (originalWord : str) : str :=
  replace originalWord curlyRegex (fun _ => [apostrophe]).

(** The diagnostic that the loop of [doSpellCheck] pushes for a match. *)
Definition diagnosticOf (this : t) (document : TextDocument) (mt : Match)
  : Diagnostic :=
  mkDiagnostic
    (mkRange (positionAt document (index mt))
             (positionAt document (index mt + length (matched mt))))
    (u16 "Spelling: " ++ normalize (matched mt))
    (getSeverity this)
    (u16 "Spell Checker")
    (Some (normalize (matched mt))).

(** The service holds a dictionary whenever it says it is ready; [new] and
    [load] keep it so. *)
Definition consistent (s : SpellService.t) : bool :=
  match SpellService.loadedLanguage s, SpellService.spellChecker s with
  | Some _, None => false
  | _, _ => true
  end.

(** A sequence of [load] calls; the flag tells whether one succeeded. *)
Fixpoint loads (fs : SpellService.Files)
  (attempts : list (SpellService.DictionaryCode * str))
  (s : SpellService.t) : SpellService.t * bool :=
  match attempts with
  | [] => (s, false)
  | (language, root) :: rest =>
      match SpellService.load fs language root s with
      | (Ok _, s') => (fst (loads fs rest s'), true)
      | (Throw _, s') => loads fs rest s'
      end
  end.

Definition flowState (fl : Flow) : Pass :=
  match fl with Continue st => st | Break st => st end.

(** [d] is the diagnostic of a token that is not ignored and that the
    dictionary rejects. *)
Definition emittedFor (this : t) (document : TextDocument)
  (tokens : list Match) (d : Diagnostic) : Prop :=
  exists mt, In mt tokens
    /\ d = diagnosticOf this document mt
    /\ includes (ignoreWordsList (settings this)) (normalize (matched mt))
       = false
    /\ SpellService.check (spellService this) (normalize (matched mt))
       = Ok false.

End Pass.

(* ================================================================== *)
(** * Concrete inputs *)
(* ================================================================== *)

Module Examples.
Import Js TextProcessing Provider.

(** The options of a run with the built-in patterns only. *)
Definition builtin : SanitizeOptions := mkSanitizeOptions None None.

(** The text of the test of [sanitizeText]. *)
Definition helloWorld : str :=
  u16 "Hello" ++ [LF] ++ u16 "```code block```" ++ [LF]
      ++ u16 "world http://example.com".

(** Two backquotes, an inline-code span and a lone backquote. *)
Definition backquotes : str := u16 "``a` `".

Definition goodWords : list str :=
  [u16 "Hello"; u16 "hello"; u16 "world"; u16 "visit"; u16 "today"].

(** A dictionary that knows [goodWords]. *)
Definition dictionary : SpellService.Dictionary :=
  SpellService.mkDictionary
    (includes goodWords)
    (fun _ => Ok (Some [u16 "hello"; u16 "help"; u16 "held"])).

(** A dictionary whose [suggest] throws. *)
Definition brokenDictionary : SpellService.Dictionary :=
  SpellService.mkDictionary (includes goodWords) (fun _ => Throw BackendError).

Definition root : str := u16 "/ext".

(** An installation that ships the [en_US] files only, on a platform
    whose separator is [/]. *)
Definition enUsOnly : SpellService.Files :=
  SpellService.mkFiles
    (fun a b => a ++ u16 "/" ++ b)
    (fun path =>
       if includes [u16 "/ext/languages/en_US.aff";
                    u16 "/ext/languages/en_US.dic"] path
       then Ok [] else Throw IOError)
    (fun _ _ => Ok dictionary).

Definition platform : Platform :=
  mkPlatform enUsOnly (fun _ => u16 ".md") (fun name => name) (fun _ => None).

Definition fresh (s : SpellSettings) (active : option TextDocument)
  : Provider.t :=
  mk SpellService.new [] [] s root (-1) None None (autoCheck s)
     (mkHost [] 0 active []).

(** A provider after [activate]: the [en_US] dictionary is loaded. *)
Definition activated (s : SpellSettings) (active : option TextDocument)
  : Provider.t :=
  loadDictionary platform SpellService.en_US (fresh s active).

Definition withDictionary (d : SpellService.Dictionary) (this : Provider.t)
  : Provider.t :=
  withService (SpellService.mk (Some d) (Some SpellService.en_US)) this.

Definition markdown (text : str) : TextDocument :=
  mkDocument (u16 "file:///notes.md") (u16 "file") (u16 "/notes.md")
             (u16 "markdown") text.

Definition withLimits (maxDiagnostics : Z) (ignored : list str)
  (interval : Z) : SpellSettings :=
  mkSettings SpellService.en_US ignored
             [u16 "markdown"; u16 "latex"; u16 "plaintext"] [] [] []
             interval SevWarning true maxDiagnostics 5.

(** [xyz’q]: a token with a curly apostrophe. *)
Definition curlyDocument : TextDocument :=
  markdown (u16 "xyz" ++ [curlyApostrophe] ++ u16 "q").

(** A document with Windows line ends. *)
Definition crlfDocument : TextDocument :=
  markdown (u16 "ab" ++ [CR; LF] ++ u16 " helo").

Definition twoTypos : TextDocument :=
  markdown (u16 "Helo wrold, visit http://example.com today.").

(** Twenty-five times a word of the ignore list. *)
Definition ignoredWords : TextDocument :=
  markdown (concat (repeat (u16 "abcd ") 25)).

Definition passOf (this : Provider.t) (document : TextDocument) : Pass :=
  match runPass platform this document with
  | Ok pass => pass
  | Throw _ => mkPass [] 0 0
  end.

End Examples.

(* ================================================================== *)
(** * features/SpellCheckerProvider.ts: settings *)
(* ================================================================== *)

Module Settings.
Import Js Provider.

(** A value of the configuration, as [config.get] returns it.  [JNumber] is
    a finite number; the numbers of the settings are integers. *)
#[warnings="-register-all"]
Inductive JsValue :=
| JUndefined
| JNull
| JBool (b : bool)
| JNumber (n : Z)
| JNaN
| JInfinity
| JString (s : str)
| JArray (items : list JsValue)
| JObject.

(** [Array.from(new Set(array))]: a [Set] keeps its members in the order
    of their first insertion. *)
Definition getUniqueArray (array : list str) : list str :=
  fold_left (fun set x => if includes set x then set else set ++ [x])
            array [].

(** [value.filter((item) => typeof item === 'string')], [[]] for a value
    that is not an array. *)
Definition ensureStringArray (value : JsValue) : list str :=
  match value with
  | JArray items =>
      flat_map (fun item => match item with JString s => [s] | _ => [] end)
               items
  | _ => []
  end.

(** [['Error', 'Hint', 'Information', 'Warning'].includes(value)] *)
Definition normalizeSeverity (value : JsValue) : SeverityOption :=
  match value with
  | JString s =>
      if str_eqb s (u16 "Error") then SevError
      else if str_eqb s (u16 "Hint") then SevHint
      else if str_eqb s (u16 "Information") then SevInformation
      else SevWarning
  | _ => SevWarning
  end.

Definition allowed : list SpellService.DictionaryCode :=
  [SpellService.en_US; SpellService.en_GB_ize; SpellService.en_GB_ise;
   SpellService.es_ANY; SpellService.fr; SpellService.el_GR;
   SpellService.sv_SE].

(** [allowed.includes(language) ? language : 'en_US'] *)
Definition normalizeLanguage (language : str) : SpellService.DictionaryCode :=
  match find (fun c => str_eqb (SpellService.codeName c) language) allowed with
  | Some c => c
  | None => SpellService.en_US
  end.

(** [normalizeLanguage] on whatever the configuration holds. *)
Definition normalizeLanguageValue (value : JsValue)
  : SpellService.DictionaryCode :=
  match value with
  | JString s => normalizeLanguage s
  | _ => SpellService.en_US
  end.

(** [config.get(key, defaultValue)]: the default stands for a missing
    value only. *)
Definition get (value defaultValue : JsValue) : JsValue :=
  match value with
  | JUndefined => defaultValue
  | _ => value
  end.

Definition ofStrings (l : list str) : JsValue := JArray (map JString l).

(** [Number.isFinite(value) ? value : fallback] *)
Definition finiteOr (value : JsValue) (fallback : Z) : Z :=
  match value with
  | JNumber n => n
  | _ => fallback
  end.

(** What a condition makes of a value. *)
Definition truthy (value : JsValue) : bool :=
  match value with
  | JUndefined | JNull | JNaN => false
  | JBool b => b
  | JNumber n => negb (n =? 0)%Z
  | JString s => match s with [] => false | _ => true end
  | JInfinity | JArray _ | JObject => true
  end.

(** The section [spellchecker] of the configuration, key by key. *)
Record Configuration := mkConfiguration {
  cfgLanguage : JsValue;
  cfgIgnoreWordsList : JsValue;
  cfgDocumentTypes : JsValue;
  cfgIgnoreRegExp : JsValue;
  cfgIgnoreFileExtensions : JsValue;
  cfgIgnoreFilenames : JsValue;
  cfgCheckInterval : JsValue;
  cfgSuggestionSeverity : JsValue;
  cfgAutoCheck : JsValue;
  cfgMaxDiagnostics : JsValue;
  cfgSuggestionLimit : JsValue
}.

(** [list ?? []] *)
Definition orDefaultList (o : option (list str)) : list str :=
  match o with Some l => l | None => [] end.

(** What [loadLegacySettings] returns for a file [.vscode/spellchecker.json]
    that was read and parsed: its two lists, when it has them. *)
Record Legacy := mkLegacy {
  legacyIgnoreWordsList : option (list str);
  legacyIgnoreRegExp : option (list str)
}.

(** [loadSettings], from the configuration and the result of
    [loadLegacySettings] ([None] when there is no workspace folder, no
    file, or the file cannot be parsed).  [autoCheck] is kept as what a
    condition makes of the configured value. *)
Definition loadSettings (config : Configuration) (legacy : option Legacy)
  : SpellSettings :=
  let merged := DEFAULT_SETTINGS in
  let language :=
    normalizeLanguageValue
      (get (cfgLanguage config)
           (JString (SpellService.codeName (language merged)))) in
  let ignoreWordsList :=
    ensureStringArray
      (get (cfgIgnoreWordsList config) (ofStrings (ignoreWordsList merged))) in
  let documentTypes :=
    ensureStringArray
      (get (cfgDocumentTypes config) (ofStrings (documentTypes merged))) in
  let ignoreRegExp :=
    ensureStringArray
      (get (cfgIgnoreRegExp config) (ofStrings (ignoreRegExp merged))) in
  let ignoreFileExtensions :=
    ensureStringArray
      (get (cfgIgnoreFileExtensions config)
           (ofStrings (ignoreFileExtensions merged))) in
  let ignoreFilenames :=
    ensureStringArray
      (get (cfgIgnoreFilenames config) (ofStrings (ignoreFilenames merged))) in
  let checkInterval :=
    finiteOr (get (cfgCheckInterval config) (JNumber (checkInterval merged)))
             (checkInterval merged) in
  let suggestionSeverity :=
    normalizeSeverity
      (get (cfgSuggestionSeverity config) (JString (u16 "Warning"))) in
  let autoCheck :=
    truthy (get (cfgAutoCheck config) (JBool (autoCheck merged))) in
  let maxDiagnostics :=
    finiteOr (get (cfgMaxDiagnostics config) (JNumber (maxDiagnostics merged)))
             (maxDiagnostics merged) in
  let suggestionLimit :=
    finiteOr (get (cfgSuggestionLimit config)
                  (JNumber (suggestionLimit merged)))
             (suggestionLimit merged) in
  match legacy with
  | Some legacy =>
      mkSettings language
        (getUniqueArray
           (ignoreWordsList
              ++ orDefaultList (legacyIgnoreWordsList legacy)))
        documentTypes
        (getUniqueArray
           (ignoreRegExp ++ orDefaultList (legacyIgnoreRegExp legacy)))
        ignoreFileExtensions ignoreFilenames checkInterval
        suggestionSeverity autoCheck maxDiagnostics suggestionLimit
  | None =>
      mkSettings language ignoreWordsList documentTypes ignoreRegExp
                 ignoreFileExtensions ignoreFilenames checkInterval
                 suggestionSeverity autoCheck maxDiagnostics suggestionLimit
  end.

End Settings.

(* ================================================================== *)
(** * features/SpellCheckerProvider.ts: commands and life cycle *)
(* ================================================================== *)

Module Session.
Import Js TextProcessing Provider Settings.

(** [showWarningMessage('The word has already been added to the ignore
    list.')] and the two texts of [setStatusBarMessage] in
    [toggleAutoCheck]. *)
Inductive Message :=
| AlreadyIgnored
| CheckerEnabled
| CheckerPaused.

Inductive Icon := Checklist | CircleSlash.

(** The status bar item: its text is [$(icon) Spell language], its tooltip
    says whether the checker is enabled. *)
Record StatusBarItem := mkStatusBarItem {
  icon : Icon;
  statusLanguage : SpellService.DictionaryCode;
  tooltipEnabled : bool
}.

(** The provider with what its commands read and write around it: the open
    documents ([workspace.textDocuments]), the two values that
    [inspect('ignoreWordsList')] reports ([None] for a value that is not an
    array), the status bar item and the messages shown. *)
Record t := mk {
  provider : Provider.t;
  textDocuments : list TextDocument;
  workspaceValue : option (list str);
  globalValue : option (list str);
  statusBarItem : option StatusBarItem;
  messages : list Message
}.

Definition withProvider (p : Provider.t) (s : t) : t :=
  mk p (textDocuments s) (workspaceValue s) (globalValue s)
     (statusBarItem s) (messages s).

Definition say (msg : Message) (s : t) : t :=
  mk (provider s) (textDocuments s) (workspaceValue s) (globalValue s)
     (statusBarItem s) (messages s ++ [msg]).

Definition withSettings (st : SpellSettings) (this : Provider.t) : Provider.t :=
  Provider.mk (spellService this) (diagnosticCollection this)
    (diagnosticMap this) st (extensionRoot this) (lastcheck this)
    (timer this) (timerTextDocument this) (autoCheckEnabled this) (host this).

Definition withAutoCheckEnabled (b : bool) (this : Provider.t) : Provider.t :=
  Provider.mk (spellService this) (diagnosticCollection this)
    (diagnosticMap this) (settings this) (extensionRoot this) (lastcheck this)
    (timer this) (timerTextDocument this) b (host this).

Definition withDiagnostics (collection map : list (str * list Diagnostic))
  (this : Provider.t) : Provider.t :=
  Provider.mk (spellService this) collection map (settings this)
    (extensionRoot this) (lastcheck this) (timer this)
    (timerTextDocument this) (autoCheckEnabled this) (host this).

Definition withIgnoreWordsList (l : list str) (st : SpellSettings)
  : SpellSettings :=
  mkSettings (language st) l (documentTypes st) (ignoreRegExp st)
    (ignoreFileExtensions st) (ignoreFilenames st) (checkInterval st)
    (suggestionSeverity st) (autoCheck st) (maxDiagnostics st)
    (suggestionLimit st).

Definition withLanguage (l : SpellService.DictionaryCode) (st : SpellSettings)
  : SpellSettings :=
  mkSettings l (ignoreWordsList st) (documentTypes st) (ignoreRegExp st)
    (ignoreFileExtensions st) (ignoreFilenames st) (checkInterval st)
    (suggestionSeverity st) (autoCheck st) (maxDiagnostics st)
    (suggestionLimit st).

(** [map.get(key)] and [map.delete(key)] *)
Definition mapGet {V} (key : str) (l : list (str * V)) : option V :=
  match find (fun kv => str_eqb (fst kv) key) l with
  | Some kv => Some (snd kv)
  | None => None
  end.

Definition mapDelete {V} (key : str) (l : list (str * V)) : list (str * V) :=
  filter (fun kv => negb (str_eqb (fst kv) key)) l.

(** [userSettingsData.update('ignoreWordsList', value, target)] *)
Definition update (value : list str) (target : ConfigurationTarget) (s : t)
  : t :=
  match target with
  | TargetWorkspace =>
      mk (provider s) (textDocuments s) (Some value) (globalValue s)
         (statusBarItem s) (messages s)
  | TargetGlobal =>
      mk (provider s) (textDocuments s) (workspaceValue s) (Some value)
         (statusBarItem s) (messages s)
  end.

Definition addWordToIgnoreList (word : str) (target : ConfigurationTarget)
  (s : t) : bool * t :=
  let this := provider s in
  if includes (ignoreWordsList (settings this)) word then (false, s)
  else
    let this :=
      withSettings
        (withIgnoreWordsList
           (getUniqueArray (ignoreWordsList (settings this) ++ [word]))
           (settings this))
        this in
    let updated :=
      match target with
      | TargetWorkspace => orDefaultList (workspaceValue s)
      | TargetGlobal => orDefaultList (globalValue s)
      end in
    let updated := updated ++ [word] in
    (true, update (getUniqueArray updated) target (withProvider this s)).

(** [vscode.workspace.textDocuments.find((doc) => doc.uri.toString() ===
    uri.toString())] *)
Definition findDocument (documentUri : str) (s : t) : option TextDocument :=
  find (fun doc => str_eqb (uri doc) documentUri) (textDocuments s).

(** [ignoreCodeAction]; a rejection of the awaited [doSpellCheck] is the
    rejection of the command, which has nothing left to do by then. *)
Definition ignoreCodeAction (pf : Platform) (now : Z) (documentUri : str)
  (word : str) (target : ConfigurationTarget) (s : t) : t :=
  match addWordToIgnoreList word target s with
  | (true, s) =>
      match findDocument documentUri s with
      | Some document =>
          withProvider
            (settle (provider s)
                    (doSpellCheck pf now (Some document) (provider s))) s
      | None => s
      end
  | (false, s) => say AlreadyIgnored s
  end.

Definition alwaysIgnoreCodeAction (pf : Platform) (now : Z)
  (documentUri : str) (word : str) (s : t) : t :=
  ignoreCodeAction pf now documentUri word TargetGlobal s.

(** What [updateStatusBar] writes on the item: the icon and the tooltip of
    the pause state, and the language of the loaded dictionary or, without
    one, of the settings. *)
Definition render (this : Provider.t) : StatusBarItem :=
  let language :=
    match SpellService.getLanguage (spellService this) with
    | Some l => l
    | None => language (settings this)
    end in
  mkStatusBarItem (if autoCheckEnabled this then Checklist else CircleSlash)
                  language (autoCheckEnabled this).

Definition updateStatusBar (s : t) : t :=
  match statusBarItem s with
  | None => s
  | Some _ =>
      mk (provider s) (textDocuments s) (workspaceValue s) (globalValue s)
         (Some (render (provider s))) (messages s)
  end.

Definition toggleAutoCheck (pf : Platform) (now : Z) (s : t) : t :=
  let this := provider s in
  let s :=
    withProvider (withAutoCheckEnabled (negb (autoCheckEnabled this)) this) s in
  let s := updateStatusBar s in
  let s :=
    say (if autoCheckEnabled (provider s) then CheckerEnabled
         else CheckerPaused) s in
  match autoCheckEnabled (provider s), activeTextEditor (host (provider s)) with
  | true, Some document =>
      withProvider
        (settle (provider s)
                (doSpellCheck pf now (Some document) (provider s))) s
  | _, _ => s
  end.

(** [setLanguage]: when the awaited [doSpellCheck] rejects, the status bar
    is not updated. *)
Definition setLanguage (pf : Platform) (now : Z)
  (language : SpellService.DictionaryCode) (s : t) : t :=
  let this := loadDictionary pf language (provider s) in
  let this := withSettings (withLanguage language (settings this)) this in
  match doSpellCheck pf now (activeTextEditor (host this)) this with
  | Ok this => updateStatusBar (withProvider this s)
  | Throw _ => withProvider this s
  end.

(** [settingsChanged], with what the configuration and the legacy file
    hold at that time. *)
Definition settingsChanged (pf : Platform) (config : Configuration)
  (legacy : option Legacy) (s : t) : t :=
  let this := provider s in
  let this := withSettings (loadSettings config legacy) this in
  let this := withAutoCheckEnabled (autoCheck (settings this)) this in
  let this := loadDictionary pf (language (settings this)) this in
  updateStatusBar (withProvider this s).

(** The handler of [onDidCloseTextDocument]. *)
Definition closeDocument (document : TextDocument) (s : t) : t :=
  let this := provider s in
  withProvider
    (withDiagnostics (mapDelete (uri document) (diagnosticCollection this))
                     (mapDelete (uri document) (diagnosticMap this)) this) s.

(** [dispose]: the pending timeout is cleared and the collection of
    diagnostics emptied. *)
Definition dispose (s : t) : t :=
  let this := provider s in
  let this :=
    match timer this with
    | Some tm => clearTimeout tm this
    | None => this
    end in
  withProvider (withDiagnostics [] (diagnosticMap this) this) s.

(** The provider as its field initializers leave it. *)
Definition created (h : Host) : Provider.t :=
  Provider.mk SpellService.new [] [] DEFAULT_SETTINGS [] (-1) None None true h.

(** [activate]: the settings are loaded, then the dictionary; the handlers
    are registered with the editor, and the status bar item is created and
    written by [updateStatusBar]. *)
Definition activate (pf : Platform) (extensionPath : str)
  (config : Configuration) (legacy : option Legacy)
  (documents : list TextDocument) (h : Host) : t :=
  let this := created h in
  let this :=
    Provider.mk (spellService this) (diagnosticCollection this)
      (diagnosticMap this) (settings this) extensionPath (lastcheck this)
      (timer this) (timerTextDocument this) (autoCheckEnabled this)
      (host this) in
  let this := withSettings (loadSettings config legacy) this in
  let this := withAutoCheckEnabled (autoCheck (settings this)) this in
  let this := loadDictionary pf (language (settings this)) this in
  mk this documents None None (Some (render this)) [].

(** What reaches the provider after [activate]. *)
Inductive Action :=
| Editor (now : Z) (e : Event)
| Ignore (now : Z) (documentUri : str) (word : str)
         (target : ConfigurationTarget)
| AlwaysIgnore (now : Z) (documentUri : str) (word : str)
| ToggleAutoCheck (now : Z)
| SetLanguage (now : Z) (language : SpellService.DictionaryCode)
| SettingsChanged (config : Configuration) (legacy : option Legacy)
| DidClose (document : TextDocument).

Definition step (pf : Platform) (a : Action) (s : t) : t :=
  match a with
  | Editor now e => withProvider (handle pf now e (provider s)) s
  | Ignore now u w target => ignoreCodeAction pf now u w target s
  | AlwaysIgnore now u w => alwaysIgnoreCodeAction pf now u w s
  | ToggleAutoCheck now => toggleAutoCheck pf now s
  | SetLanguage now l => setLanguage pf now l s
  | SettingsChanged config legacy => settingsChanged pf config legacy s
  | DidClose d => closeDocument d s
  end.

Definition run (pf : Platform) (actions : list Action) (s : t) : t :=
  fold_left (fun s a => step pf a s) actions s.

End Session.

(* ================================================================== *)
(** * Notions used to state further properties *)
(* ================================================================== *)

Module Notions.
Import Js TextProcessing Provider Pass Session.

(** The least number of characters that a match of the pattern holds. *)
Fixpoint minlen (r : regex) : nat :=
  match r with
  | Eps => 0
  | Chr _ | Cls _ _ | Dot => 1
  | Seq r1 r2 => minlen r1 + minlen r2
  | Alt r1 r2 => Nat.min (minlen r1) (minlen r2)
  | Rep r0 lo hi _ =>
      match hi with
      | Some h => Nat.min lo h
      | None => lo
      end * minlen r0
  end.

(** A matcher that consumes at least [n] characters before it calls its
    continuation. *)
Definition atLeast (n : nat)
  (mr : str -> (str -> option str) -> option str) : Prop :=
  forall s k x, mr s k = Some x ->
    exists s1 s2, s = s1 ++ s2 /\ n <= length s1 /\ k s2 = Some x.

(** The tokens that get a diagnostic: not ignored, rejected by the
    dictionary [d]. *)
Definition flagged (this : Provider.t) (d : SpellService.Dictionary)
  (mt : Match) : bool :=
  negb (includes (ignoreWordsList (settings this)) (normalize (matched mt)))
  && negb (SpellService.dictCheck d (normalize (matched mt))).

(** The service is ready with the dictionary [d]. *)
Definition uses (this : Provider.t) (d : SpellService.Dictionary) : Prop :=
  SpellService.spellChecker (spellService this) = Some d
  /\ SpellService.isReady (spellService this) = true.

(** Every pending timeout is the one the provider holds. *)
Definition timersOk (this : Provider.t) : Prop :=
  pending (host this) = []
  \/ exists tm, timer this = Some tm /\ pending (host this) = [tm].

(** A change of [document] at time [now] is deferred: the document is one
    the provider checks, automatic checks are on, and the last check is
    not older than [checkInterval]. *)
Definition deferred (pf : Platform) (this : Provider.t)
  (change : Z * TextDocument) : Prop :=
  shouldCheck pf this (snd change) = true
  /\ (0 <= checkInterval (settings this))%Z
  /\ autoCheckEnabled this = true
  /\ (fst change - lastcheck this <= checkInterval (settings this))%Z.

Definition changes (pf : Platform) (l : list (Z * TextDocument))
  (this : Provider.t) : Provider.t :=
  fold_left (fun this c => handle pf (fst c) (DidChange (snd c)) this) l this.

(** [this'] differs from [this] at most in the diagnostics, in [lastcheck]
    and in what has been shown. *)
Definition sameControls (this this' : Provider.t) : Prop :=
  spellService this' = spellService this
  /\ settings this' = settings this
  /\ extensionRoot this' = extensionRoot this
  /\ timer this' = timer this
  /\ timerTextDocument this' = timerTextDocument this
  /\ autoCheckEnabled this' = autoCheckEnabled this
  /\ pending (host this') = pending (host this)
  /\ nextTimerId (host this') = nextTimerId (host this)
  /\ activeTextEditor (host this') = activeTextEditor (host this).

(** What holds of the provider between two events: the collection and the
    map hold the same diagnostics, no timeout is pending but the one the
    provider holds, and the service has a dictionary when it is ready. *)
Definition calm (this : Provider.t) : Prop :=
  diagnosticCollection this = diagnosticMap this
  /\ timersOk this
  /\ consistent (spellService this) = true.

(** What holds of a session between two actions: the status bar item is
    up to date as well. *)
Definition steady (s : Session.t) : Prop :=
  calm (provider s) /\ statusBarItem s = Some (render (provider s)).

(** A session after [activate] and some actions, in an editor without
    pending timeouts. *)
Definition session (pf : Platform) (extensionPath : str)
  (config : Settings.Configuration) (legacy : option Settings.Legacy)
  (documents : list TextDocument) (active : option TextDocument)
  (actions : list Action) : Session.t :=
  run pf actions
      (activate pf extensionPath config legacy documents
                (mkHost [] 0 active [])).

End Notions.

(* ================================================================== *)
(** * More concrete inputs *)
(* ================================================================== *)

Module Samples.
Import Js TextProcessing Provider Settings Session Examples.

(** A configuration in which nothing is set. *)
Definition unset : Configuration :=
  mkConfiguration JUndefined JUndefined JUndefined JUndefined JUndefined
                  JUndefined JUndefined JUndefined JUndefined JUndefined
                  JUndefined.

(** The session of an editor with the document [twoTypos] open and
    active. *)
Definition started : Session.t :=
  activate platform root unset None [twoTypos]
           (mkHost [] 0 (Some twoTypos) []).

(** The code actions for the diagnostics of [twoTypos]. *)
Definition twoTyposActions : list CodeAction :=
  match provideCodeActions (activated DEFAULT_SETTINGS None) twoTypos
          (diagnostics (passOf (activated DEFAULT_SETTINGS None) twoTypos)) with
  | Some actions => actions
  | None => []
  end.

Definition report : TextDocument :=
  mkDocument (u16 "file:///report.md") (u16 "file") (u16 "/report.md")
             (u16 "markdown") (u16 "A shrot report.").

(** A document with CR LF line ends: four empty lines, then an inline-code
    span and a misspelled word. *)
Definition windowsLines : TextDocument :=
  mkDocument (u16 "file:///lines.md") (u16 "file") (u16 "/lines.md")
             (u16 "markdown")
             ([CR; LF; CR; LF; CR; LF; CR; LF] ++ u16 "`wxyz` helo").

End Samples.
(* ================================================================== *)
(** * Facts about the matcher, [exec], [matchAll] and [replace] *)
(* ================================================================== *)

Module JsFacts.
Import Js Spans.

Lemma firstn_prefix (s1 l : str) :
  firstn (length (s1 ++ l) - length l) (s1 ++ l) = s1.
Proof.
  rewrite length_app.
  replace (length s1 + length l - length l) with (length s1) by lia.
  rewrite firstn_app, firstn_all, Nat.sub_diag. simpl. apply app_nil_r.
Qed.

Lemma search_eq re s pos :
  search re s pos =
  match m (ignoreCase re) (source re) s Some with
  | Some rest => Some (mkMatch pos (firstn (length s - length rest) s))
  | None =>
      match s with
      | [] => None
      | _ :: s' => search re s' (S pos)
      end
  end.
Proof. destruct s; reflexivity. Qed.

Section Soundness.
Variable P : char -> Prop.

Lemma rep_sound mr k greedy :
  sound P mr ->
  forall fuel lo hi s x,
    rep mr k greedy fuel lo hi s = Some x ->
    exists s1 s2, s = s1 ++ s2 /\ Forall P s1 /\ k s2 = Some x.
Proof.
  intros Hmr. induction fuel as [|fuel IH]; intros lo hi s x H; simpl in H.
  - discriminate.
  - destruct (is_zero hi).
    + exists [], s. auto.
    + assert (Hstep : forall lo' (guard : str -> bool),
                 mr s (fun s' => if guard s'
                                 then rep mr k greedy fuel lo' (dec hi) s'
                                 else None) = Some x ->
                 exists s1 s2, s = s1 ++ s2 /\ Forall P s1 /\ k s2 = Some x).
      { intros lo' guard Hm. apply Hmr in Hm.
        destruct Hm as (s1 & s2 & -> & HP & Hk).
        destruct (guard s2); [|discriminate].
        apply IH in Hk. destruct Hk as (t1 & t2 & -> & HP' & Hk).
        exists (s1 ++ t1), t2. rewrite app_assoc.
        split; [reflexivity|]. split; [apply Forall_app; auto|assumption]. }
      destruct lo as [|lo'].
      * destruct greedy.
        -- destruct (mr s _) eqn:E.
           ++ inversion H; subst. eapply (Hstep 0 (fun s' => length s' <? length s)), E.
           ++ exists [], s. auto.
        -- destruct (k s) eqn:E.
           ++ inversion H; subst. exists [], s. auto.
           ++ eapply (Hstep 0 (fun s' => length s' <? length s)), H.
      * apply (Hstep lo' (fun _ => true)), H.
Qed.

Lemma m_sound ic r : atoms ic P r -> sound P (m ic r).
Proof.
  induction r as [|c|inv items| |r1 IH1 r2 IH2|r1 IH1 r2 IH2|r0 IH lo hi gr];
    intros Ha s k x H;
    [simpl in Ha, H ..
    |change (rep (m ic r0) k gr (S (lo + length s)) lo hi s = Some x) in H].
  - exists [], s. auto.
  - destruct s as [|ch s']; [discriminate|].
    destruct (N.eqb_spec (canon ic ch) (canon ic c)); [|discriminate].
    exists [ch], s'. auto.
  - destruct s as [|ch s']; [discriminate|].
    destruct (xorb inv (in_class ic items ch)) eqn:E; [|discriminate].
    exists [ch], s'. auto.
  - destruct s as [|ch s']; [discriminate|].
    destruct (isLineTerminator ch) eqn:E; [discriminate|].
    exists [ch], s'. auto.
  - destruct Ha as [Ha1 Ha2].
    apply (IH1 Ha1) in H. destruct H as (s1 & s2 & -> & HP & H).
    apply (IH2 Ha2) in H. destruct H as (t1 & t2 & -> & HP' & H).
    exists (s1 ++ t1), t2. rewrite app_assoc.
    split; [reflexivity|]. split; [apply Forall_app; auto|assumption].
  - destruct Ha as [Ha1 Ha2].
    destruct (m ic r1 s k) eqn:E.
    + inversion H; subst. apply (IH1 Ha1) in E. exact E.
    + apply (IH2 Ha2) in H. exact H.
  - eapply rep_sound; [apply IH, Ha|exact H].
Qed.

Lemma attempt_sound ic r : atoms ic P r ->
  forall s rest, m ic r s Some = Some rest ->
    s = firstn (length s - length rest) s ++ rest
    /\ Forall P (firstn (length s - length rest) s).
Proof.
  intros Ha s rest E. apply (m_sound _ _ Ha) in E.
  destruct E as (s1 & s2 & -> & HP & Hk). inversion Hk; subst s2.
  rewrite firstn_prefix. auto.
Qed.

(** [search] returns a piece of the scanned text, at the offset it says. *)
Lemma search_sound re : atoms (ignoreCase re) P (source re) ->
  forall s pos mt, search re s pos = Some mt ->
    exists pre rest, s = pre ++ matched mt ++ rest
      /\ index mt = pos + length pre /\ Forall P (matched mt).
Proof.
  intros Ha. induction s as [|c s IH]; intros pos mt H;
    rewrite search_eq in H;
    destruct (m (ignoreCase re) (source re) _ Some) as [s0|] eqn:E;
    try discriminate.
  1,2: apply (attempt_sound _ _ Ha) in E; destruct E as [Hs HP];
    inversion H; subst mt; cbn [index matched];
    exists [], s0; rewrite Nat.add_0_r; auto.
  apply IH in H. destruct H as (pre & rest & Hs & Hi & HP).
  exists (c :: pre), rest. simpl. rewrite Hs at 1.
  split; [reflexivity|]. split; [lia|assumption].
Qed.

Lemma exec_sound re : native re = None ->
  atoms (ignoreCase re) P (source re) ->
  forall input lastIndex mt, exec re input lastIndex = Some mt ->
    exists pre rest, input = pre ++ matched mt ++ rest
      /\ index mt = length pre
      /\ (global re = true -> lastIndex <= index mt)
      /\ Forall P (matched mt).
Proof.
  intros Hn Ha input lastIndex mt. unfold exec. rewrite Hn.
  set (li := if global re then lastIndex else 0).
  destruct (Nat.ltb_spec (length input) li) as [|Hle]; [discriminate|].
  intros H. apply (search_sound _ Ha) in H.
  destruct H as (pre & rest & Hs & Hi & HP).
  exists (firstn li input ++ pre), rest.
  rewrite <- app_assoc, <- Hs, firstn_skipn.
  rewrite length_app, length_firstn, Nat.min_l by lia.
  split; [reflexivity|]. split; [lia|]. split; [|assumption].
  intros Hg. subst li. rewrite Hg in Hi. lia.
Qed.

End Soundness.

Lemma atoms_any ic r : atoms ic (fun _ => True) r.
Proof. induction r; simpl; auto. Qed.

Lemma substring_split (input : str) (i n : nat) :
  input = firstn i input ++ substring input i (i + n) ++ skipn (i + n) input.
Proof.
  unfold substring. replace (i + n - i) with n by lia.
  rewrite <- (firstn_skipn i input) at 1. f_equal.
  rewrite <- (firstn_skipn n (skipn i input)) at 1. f_equal.
  rewrite skipn_skipn. f_equal. lia.
Qed.

(** What [exec] returns is a piece of the input, at the index it says, not
    before [lastIndex]: for every pattern. *)
Lemma exec_ok re input lastIndex mt :
  exec re input lastIndex = Some mt ->
  exists pre rest, input = pre ++ matched mt ++ rest
    /\ index mt = length pre
    /\ (global re = true -> lastIndex <= index mt).
Proof.
  destruct (native re) as [f|] eqn:Hn.
  - unfold exec. rewrite Hn.
    set (li := if global re then lastIndex else 0).
    destruct (length input <? li); [discriminate|].
    destruct (f input li) as [[i n]|]; [|discriminate].
    destruct (Nat.leb_spec li i) as [Hli|]; [|discriminate].
    destruct (Nat.leb_spec (i + n) (length input)) as [Hin|]; [|discriminate].
    cbn [andb]. intros H; inversion H; subst mt. cbn [index matched].
    exists (firstn i input), (skipn (i + n) input).
    split; [apply substring_split|].
    split; [rewrite length_firstn; lia|].
    intros G. subst li. rewrite G in *. assumption.
  - intros H.
    apply (exec_sound (fun _ => True) re Hn (atoms_any _ _)) in H.
    destruct H as (pre & rest & A & B & C & _). eauto.
Qed.

(* ------------------------------------------------------------------ *)
(** ** The fuel of the quantifier and of the scan is enough *)

(** A matcher looks at its continuation only on inputs that are not longer
    than its own. *)
Lemma rep_local mr greedy :
  local mr ->
  forall fuel lo hi s k1 k2,
    (forall s', length s' <= length s -> k1 s' = k2 s') ->
    rep mr k1 greedy fuel lo hi s = rep mr k2 greedy fuel lo hi s.
Proof.
  intros Hmr. induction fuel as [|fuel IH]; intros lo hi s k1 k2 Hk;
    cbn [rep]; [reflexivity|]. cbv beta zeta.
  rewrite (Hk s (le_n _)).
  destruct (is_zero hi); [reflexivity|].
  destruct lo as [|lo'].
  - rewrite (Hmr s _
      (fun s' : str => if length s' <? length s
                       then rep mr k2 greedy fuel 0 (dec hi) s' else None));
      [reflexivity|].
    intros s' Hs'. destruct (_ <? _); [|reflexivity].
    apply IH. intros s'' Hs''. apply Hk. lia.
  - apply Hmr. intros s' Hs'. apply IH. intros s'' Hs''. apply Hk. lia.
Qed.

Lemma m_local ic r : local (m ic r).
Proof.
  induction r as [|c|inv items| |r1 IH1 r2 IH2|r1 IH1 r2 IH2|r0 IH lo hi gr];
    intros s k1 k2 Hk;
    [cbn [m] ..
    |change (rep (m ic r0) k1 gr (S (lo + length s)) lo hi s
             = rep (m ic r0) k2 gr (S (lo + length s)) lo hi s)].
  - apply Hk. lia.
  - destruct s as [|ch s']; [reflexivity|].
    destruct (_ =? _)%N; [|reflexivity]. apply Hk. cbn [length]. lia.
  - destruct s as [|ch s']; [reflexivity|].
    destruct (xorb _ _); [|reflexivity]. apply Hk. cbn [length]. lia.
  - destruct s as [|ch s']; [reflexivity|].
    destruct (isLineTerminator _); [reflexivity|]. apply Hk. cbn [length]. lia.
  - apply IH1. intros s' Hs'. apply IH2. intros s'' Hs''. apply Hk. lia.
  - rewrite (IH1 s k1 k2 Hk), (IH2 s k1 k2 Hk). reflexivity.
  - apply rep_local; [exact IH|exact Hk].
Qed.

(** More fuel than [lo + length s] does not change what [rep] returns: the
    quantifier never fails for want of fuel. *)
Lemma rep_fuel mr k greedy :
  local mr ->
  forall fuel fuel' lo hi s,
    lo + length s < fuel -> lo + length s < fuel' ->
    rep mr k greedy fuel lo hi s = rep mr k greedy fuel' lo hi s.
Proof.
  intros Hmr. induction fuel as [|fuel IH]; intros fuel' lo hi s H H';
    [lia|].
  destruct fuel' as [|fuel']; [lia|]. cbn [rep]. cbv beta zeta.
  destruct (is_zero hi); [reflexivity|].
  destruct lo as [|lo'].
  - rewrite (Hmr s _
      (fun s' : str => if length s' <? length s
                       then rep mr k greedy fuel' 0 (dec hi) s' else None));
      [reflexivity|].
    intros s' Hs'. destruct (Nat.ltb_spec (length s') (length s));
      [|reflexivity].
    apply IH; lia.
  - apply Hmr. intros s' Hs'. apply IH; lia.
Qed.

(** More fuel than [length input + 1 - lastIndex] does not change what the
    loop of [exec] returns. *)
Lemma execAll_fuel re input :
  forall fuel fuel' lastIndex,
    0 < fuel -> 0 < fuel' ->
    length input < lastIndex + fuel -> length input < lastIndex + fuel' ->
    execAll fuel re input lastIndex = execAll fuel' re input lastIndex.
Proof.
  induction fuel as [|fuel IH]; intros fuel' li H0 H0' H H'; [lia|].
  destruct fuel' as [|fuel']; [lia|]. cbn [execAll].
  destruct (exec re input li) as [mt|] eqn:E; [|reflexivity].
  f_equal. destruct (global re) eqn:G; [|reflexivity].
  apply exec_ok in E.
  destruct E as (pre & rest & Hin & Hidx & Hg). specialize (Hg G).
  assert (Hlen : length input = length pre + length (matched mt) + length rest).
  { rewrite Hin at 1. rewrite !length_app. lia. }
  set (li' := if length (matched mt) =? 0
              then S (index mt + length (matched mt))
              else index mt + length (matched mt)).
  assert (Hli : li < li').
  { subst li'. destruct (Nat.eqb_spec (length (matched mt)) 0); lia. }
  assert (Hend : forall f, length input < li' -> execAll f re input li' = []).
  { intros [|f] Hf; [reflexivity|]. cbn [execAll]. unfold exec. rewrite G.
    destruct (Nat.ltb_spec (length input) li'); [reflexivity|lia]. }
  destruct fuel as [|fuel]; [rewrite !Hend by lia; reflexivity|].
  destruct fuel' as [|fuel']; [rewrite !Hend by lia; reflexivity|].
  apply IH; lia.
Qed.


(* ------------------------------------------------------------------ *)
(** ** The matches of a scan *)

Lemma substring_mid (pre s1 rest : str) :
  substring (pre ++ s1 ++ rest) (length pre) (length pre + length s1) = s1.
Proof.
  unfold substring.
  replace (length pre + length s1 - length pre) with (length s1) by lia.
  rewrite skipn_app, skipn_all, Nat.sub_diag. simpl.
  rewrite firstn_app, firstn_all, Nat.sub_diag. simpl. apply app_nil_r.
Qed.

Lemma execAll_ok re input : forall fuel lastIndex p,
  p <= (if global re then lastIndex else 0) ->
  spans_ok input p (execAll fuel re input lastIndex).
Proof.
  induction fuel as [|fuel IH]; intros li p Hp; simpl; [exact I|].
  destruct (exec re input li) as [mt|] eqn:E; [|exact I].
  apply exec_ok in E.
  destruct E as (pre & rest & Hin & Hidx & Hg).
  assert (Hlen : length input = length pre + length (matched mt) + length rest).
  { rewrite Hin at 1. rewrite !length_app. lia. }
  cbn [spans_ok]. repeat split.
  - destruct (global re); [specialize (Hg eq_refl)|]; lia.
  - lia.
  - rewrite Hidx. rewrite Hin at 1. symmetry. apply substring_mid.
  - destruct (global re) eqn:G; [|exact I].
    apply IH. destruct (length (matched mt) =? 0); lia.
Qed.

Lemma matches_ok re input : spans_ok input 0 (matches re input).
Proof. apply execAll_ok. lia. Qed.

Lemma spans_ok_In input : forall ms p mt,
  spans_ok input p ms -> In mt ms ->
  p <= index mt
  /\ index mt + length (matched mt) <= length input
  /\ matched mt = substring input (index mt) (index mt + length (matched mt)).
Proof.
  induction ms as [|m0 ms IH]; intros p mt H Hin; [destruct Hin|].
  destruct H as (H1 & H2 & H3 & H4). destruct Hin as [->|Hin]; [auto|].
  destruct (IH _ _ H4 Hin) as (I1 & I2 & I3). repeat split; auto. lia.
Qed.

Lemma covered_before input : forall ms p j,
  spans_ok input p ms -> j < p -> covered ms j = false.
Proof.
  induction ms as [|mt ms IH]; intros p j H Hj; [reflexivity|].
  destruct H as (H1 & H2 & H3 & H4). cbn [covered existsb].
  fold (covered ms j). rewrite (IH _ j H4) by lia.
  unfold covers. destruct (Nat.leb_spec (index mt) j); [lia|reflexivity].
Qed.

Lemma covered_app ms1 ms2 j :
  covered (ms1 ++ ms2) j = covered ms1 j || covered ms2 j.
Proof. apply existsb_app. Qed.

(* ------------------------------------------------------------------ *)
(** ** Blanking *)

Lemma blank_from_app ms : forall a p b,
  blank_from ms p (a ++ b)
  = blank_from ms p a ++ blank_from ms (p + length a) b.
Proof.
  induction a as [|c a IH]; intros p b; simpl.
  - now rewrite Nat.add_0_r.
  - rewrite IH. now rewrite Nat.add_succ_r.
Qed.

Lemma blank_from_ext ms ms' : forall s p,
  (forall j, p <= j -> covered ms j = covered ms' j) ->
  blank_from ms p s = blank_from ms' p s.
Proof.
  induction s as [|c s IH]; intros p H; simpl; [reflexivity|].
  rewrite (H p) by lia. rewrite IH; [reflexivity|]. intros; apply H; lia.
Qed.

Lemma blank_from_none ms : forall s p,
  (forall j, p <= j < p + length s -> covered ms j = false) ->
  blank_from ms p s = s.
Proof.
  induction s as [|c s IH]; intros p H; simpl in *; [reflexivity|].
  rewrite (H p) by lia. rewrite IH; [reflexivity|]. intros; apply H; lia.
Qed.

Lemma blank_from_all ms : forall s p,
  (forall j, p <= j < p + length s -> covered ms j = true) ->
  blank_from ms p s = repeat space (length s).
Proof.
  induction s as [|c s IH]; intros p H; simpl in *; [reflexivity|].
  rewrite (H p) by lia. rewrite IH; [reflexivity|]. intros; apply H; lia.
Qed.

Lemma blank_from_nil : forall s p, blank_from [] p s = s.
Proof. intros. apply blank_from_none. reflexivity. Qed.

Lemma length_blank_from ms : forall s p, length (blank_from ms p s) = length s.
Proof. induction s; intros; simpl; auto. Qed.

Lemma nth_error_blank_from ms : forall s p i,
  nth_error (blank_from ms p s) i
  = option_map (fun c => if covered ms (p + i) then space else c)
               (nth_error s i).
Proof.
  induction s as [|c s IH]; intros p [|i]; simpl; try reflexivity.
  - now rewrite Nat.add_0_r.
  - rewrite IH. now rewrite Nat.add_succ_r.
Qed.

Lemma blank_from_twice ms1 ms2 : forall s p,
  blank_from ms2 p (blank_from ms1 p s) = blank_from (ms1 ++ ms2) p s.
Proof.
  induction s as [|c s IH]; intros p; simpl; [reflexivity|].
  rewrite IH, covered_app.
  destruct (covered ms1 p), (covered ms2 p); reflexivity.
Qed.

(** The text from [p] on: up to the next match, the match, and the rest. *)
Lemma skipn_split (input : str) (p i n : nat) :
  p <= i ->
  skipn p input
  = substring input p i ++ substring input i (i + n) ++ skipn (i + n) input.
Proof.
  intros Hp. unfold substring.
  replace (i + n - i) with n by lia.
  rewrite <- (firstn_skipn (i - p) (skipn p input)) at 1.
  rewrite skipn_skipn. replace (i - p + p) with i by lia.
  rewrite <- (firstn_skipn n (skipn i input)) at 1.
  rewrite skipn_skipn. now replace (n + i) with (i + n) by lia.
Qed.

Lemma length_substring (input : str) (a b : nat) :
  a <= b -> b <= length input -> length (substring input a b) = b - a.
Proof.
  intros. unfold substring. rewrite length_firstn, length_skipn. lia.
Qed.

Lemma build_blank input : forall ms p,
  spans_ok input p ms ->
  build input (fun mt => repeat space (length mt)) ms p
  = blank_from ms p (skipn p input).
Proof.
  induction ms as [|mt ms IH]; intros p H; cbn [build].
  - now rewrite blank_from_nil.
  - destruct H as (H1 & H2 & H3 & H4).
    destruct (Nat.leb_spec p (index mt)); [|lia].
    rewrite (IH _ H4).
    rewrite (skipn_split input p (index mt) (length (matched mt)) H1) at 1.
    rewrite <- H3, !blank_from_app.
    rewrite length_substring by lia.
    replace (p + (index mt - p)) with (index mt) by lia.
    f_equal; [|f_equal].
    + symmetry. apply blank_from_none. intros j Hj.
      rewrite length_substring in Hj by lia.
      cbn [covered existsb]. fold (covered ms j).
      rewrite (covered_before input ms _ j H4) by lia.
      unfold covers. destruct (Nat.leb_spec (index mt) j); [lia|reflexivity].
    + symmetry. apply blank_from_all. intros j Hj.
      cbn [covered existsb]. unfold covers.
      destruct (Nat.leb_spec (index mt) j); [|lia].
      destruct (Nat.ltb_spec j (index mt + length (matched mt))); [|lia].
      reflexivity.
    + apply blank_from_ext. intros j Hj.
      cbn [covered existsb]. unfold covers.
      destruct (Nat.ltb_spec j (index mt + length (matched mt))); [lia|].
      now rewrite andb_false_r.
Qed.

Lemma build_ext input f f' : forall ms p,
  (forall mt, In mt ms -> f (matched mt) = f' (matched mt)) ->
  build input f ms p = build input f' ms p.
Proof.
  induction ms as [|mt ms IH]; intros p H; cbn [build]; [reflexivity|].
  rewrite (H mt) by (left; reflexivity).
  rewrite !IH by (intros; apply H; right; assumption). reflexivity.
Qed.

Lemma build_id input f : forall ms p,
  spans_ok input p ms ->
  (forall mt, In mt ms -> f (matched mt) = matched mt) ->
  build input f ms p = skipn p input.
Proof.
  induction ms as [|mt ms IH]; intros p H Hf; cbn [build]; [reflexivity|].
  destruct H as (H1 & H2 & H3 & H4).
  destruct (Nat.leb_spec p (index mt)); [|lia].
  rewrite (Hf mt) by (left; reflexivity).
  rewrite IH by (auto; intros; apply Hf; right; assumption).
  rewrite (skipn_split input p (index mt) (length (matched mt)) H1), <- H3. reflexivity.
Qed.


(* ------------------------------------------------------------------ *)
(** ** Replacing one character everywhere: [s.replace(/c/g, d)] *)

Lemma subst1_same c d : subst1 c d c = d.
Proof. unfold subst1. now rewrite N.eqb_refl. Qed.

Lemma map_subst1_id c d (s : str) :
  Forall (fun x => x <> c) s -> map (subst1 c d) s = s.
Proof.
  induction 1 as [|x s Hx _ IH]; simpl; [reflexivity|].
  rewrite IH. unfold subst1. destruct (N.eqb_spec x c); congruence.
Qed.

Lemma search_chr c : forall s pos,
  (search (mkRegExp (Chr c) true false None) s pos = None
   /\ Forall (fun x => x <> c) s)
  \/ exists s1 s2, s = s1 ++ c :: s2 /\ Forall (fun x => x <> c) s1
       /\ search (mkRegExp (Chr c) true false None) s pos
          = Some (mkMatch (pos + length s1) [c]).
Proof.
  induction s as [|ch s IH]; intros pos; rewrite search_eq;
    cbn [m ignoreCase source canon].
  - left. auto.
  - destruct (N.eqb_spec ch c) as [->|Hne].
    + right. exists [], s. repeat split; [constructor|].
      change (c :: s) with ([c] ++ s). rewrite firstn_prefix.
      now rewrite Nat.add_0_r.
    + destruct (IH (S pos)) as [[E HF]|(s1 & s2 & -> & HF & E)].
      * left. auto.
      * right. exists (ch :: s1), s2. repeat split; [constructor; auto|].
        rewrite E. simpl. now rewrite Nat.add_succ_r.
Qed.

Lemma exec_at_prefix re (pre s : str) :
  global re = true -> native re = None ->
  exec re (pre ++ s) (length pre) = search re s (length pre).
Proof.
  intros G Hn. unfold exec. rewrite G, Hn.
  destruct (Nat.ltb_spec (length (pre ++ s)) (length pre)) as [H|_].
  - rewrite length_app in H. lia.
  - rewrite skipn_app, skipn_all, Nat.sub_diag. reflexivity.
Qed.

Lemma replace_chr_from c d : forall fuel pre s,
  length s < fuel ->
  build (pre ++ s) (fun _ => [d])
        (execAll fuel (mkRegExp (Chr c) true false None) (pre ++ s) (length pre))
        (length pre)
  = map (subst1 c d) s.
Proof.
  induction fuel as [|fuel IH]; intros pre s Hf; [lia|].
  cbn [execAll]. rewrite exec_at_prefix by reflexivity.
  destruct (search_chr c s (length pre)) as [[E HF]|(s1 & s2 & -> & HF & E)];
    rewrite E.
  - cbn [build]. rewrite skipn_app, skipn_all, Nat.sub_diag.
    symmetry. apply map_subst1_id, HF.
  - cbn [build index matched length global]. cbn [Nat.eqb].
    destruct (Nat.leb_spec (length pre) (length pre + length s1)); [|lia].
    change (c :: s2) with ([c] ++ s2) at 4.
    rewrite substring_mid.
    replace (pre ++ s1 ++ c :: s2) with ((pre ++ s1 ++ [c]) ++ s2)
      by (rewrite <- !app_assoc; reflexivity).
    replace (length pre + length s1 + 1) with (length (pre ++ s1 ++ [c]))
      by (rewrite !length_app; simpl; lia).
    rewrite IH by (rewrite length_app in Hf; simpl in Hf; lia).
    rewrite map_app, (map_subst1_id c d s1 HF). cbn [map app].
    now rewrite subst1_same.
Qed.

Lemma replace_chr c d (s : str) :
  replace s (mkRegExp (Chr c) true false None) (fun _ => [d]) = map (subst1 c d) s.
Proof.
  unfold replace, matches.
  apply (replace_chr_from c d (S (length s)) [] s). lia.
Qed.

End JsFacts.

(* ================================================================== *)
(** * Properties of the sanitizer *)
(* ================================================================== *)

Module SanitizerFacts.
Import Js TextProcessing Spans JsFacts Examples.

Lemma replaceWithSpaces_blank input re :
  replaceWithSpaces input re = blank (matches re input) input.
Proof.
  unfold replaceWithSpaces, replace, blank.
  rewrite build_blank by apply matches_ok. reflexivity.
Qed.

Lemma length_replaceWithSpaces input re :
  length (replaceWithSpaces input re) = length input.
Proof. rewrite replaceWithSpaces_blank. apply length_blank_from. Qed.

(** A chain of patterns blanks exactly the spans of its trace. *)
Lemma chain_blank : forall patterns text,
  fold_left replaceWithSpaces patterns text
  = blank (trace text patterns) text.
Proof.
  induction patterns as [|re ps IH]; intros text; cbn [fold_left trace].
  - symmetry. apply blank_from_nil.
  - rewrite IH. rewrite replaceWithSpaces_blank at 2.
    unfold blank. apply blank_from_twice.
Qed.

Lemma trace_in_bounds : forall patterns text mt,
  In mt (trace text patterns) ->
  index mt + length (matched mt) <= length text.
Proof.
  induction patterns as [|re ps IH]; intros text mt H; cbn [trace] in H.
  - destruct H.
  - apply in_app_or in H. destruct H as [H|H].
    + eapply spans_ok_In in H; [|apply matches_ok]. tauto.
    + apply IH in H. now rewrite length_replaceWithSpaces in H.
Qed.

Lemma tab_pass (s : str) :
  replace s tabs (fun _ => [space]) = map untab s.
Proof. apply replace_chr. Qed.

Lemma sanitizeText_eq text options :
  sanitizeText text options
  = map untab (blank (trace text (patternsOf options)) text).
Proof.
  unfold sanitizeText, patternsOf.
  rewrite tab_pass, <- fold_left_app, chain_blank. reflexivity.
Qed.

Lemma length_sanitizeText text options :
  length (sanitizeText text options) = length text.
Proof.
  rewrite sanitizeText_eq, length_map. apply length_blank_from.
Qed.

Lemma nth_error_sanitizeText text options i :
  nth_error (sanitizeText text options) i
  = option_map (fun c => if covered (trace text (patternsOf options)) i
                         then space else untab c)
               (nth_error text i).
Proof.
  rewrite sanitizeText_eq, nth_error_map. unfold blank.
  rewrite nth_error_blank_from. simpl.
  destruct (nth_error text i); simpl; [|reflexivity].
  destruct (covered _ i); reflexivity.
Qed.

(** The sanitized text holds no tab. *)
Lemma sanitizeText_no_tab text options :
  Forall (fun c => c <> tab) (sanitizeText text options).
Proof.
  rewrite sanitizeText_eq. apply Forall_forall. intros c H.
  apply in_map_iff in H. destruct H as (x & <- & _).
  unfold untab. destruct (N.eqb_spec x tab); [discriminate|assumption].
Qed.

(** C1. [sanitizeText] returns a text of the length of its input; at every
    offset inside a span matched by one of the patterns of the chain (each
    pattern matched against the text as blanked so far) it holds a space;
    at every other offset it holds the character of the input, a tab
    having become one space in the final pass.  The spans lie inside the
    text. *)
Theorem sanitize_keeps_length_and_offsets
  (text : str) (options : SanitizeOptions) :
  let out := sanitizeText text options in
  let spans := trace text (patternsOf options) in
  length out = length text
  /\ (forall mt, In mt spans ->
        index mt + length (matched mt) <= length text)
  /\ (forall i c, nth_error text i = Some c ->
        nth_error out i
        = Some (if covered spans i then space
                else if (c =? tab)%N then space else c)).
Proof.
  cbv zeta. split; [apply length_sanitizeText|]. split.
  - intros mt. apply trace_in_bounds.
  - intros i c H. rewrite nth_error_sanitizeText, H. reflexivity.
Qed.

Lemma chain_no_match : forall patterns text,
  (forall re, In re patterns -> matches re text = []) ->
  trace text patterns = [].
Proof.
  induction patterns as [|re ps IH]; intros text H; cbn [trace]; [reflexivity|].
  assert (E : matches re text = []) by (apply H; left; reflexivity).
  rewrite E. cbn [app].
  rewrite replaceWithSpaces_blank, E. unfold blank. rewrite blank_from_nil.
  apply IH. intros; apply H; right; assumption.
Qed.

(** The test of the repository: code blocks and URLs are blanked, the
    length is kept. *)
Lemma sanitize_test :
  sanitizeText helloWorld (mkSanitizeOptions None (Some []))
  = u16 "Hello" ++ [LF] ++ repeat space 16 ++ [LF] ++ u16 "world"
        ++ repeat space 19
  /\ length (sanitizeText helloWorld (mkSanitizeOptions None (Some [])))
     = length helloWorld.
Proof. vm_compute. split; reflexivity. Qed.

(** A user pattern without [g] blanks its first match only; a native
    pattern blanks what its [exec] reports. *)
Lemma sanitize_user_patterns :
  sanitizeText (u16 "aXbXc")
    (mkSanitizeOptions (Some [])
       (Some [mkRegExp (Chr (chr "X")) false false None]))
  = u16 "a bXc"
  /\ sanitizeText (u16 "aXbXc")
       (mkSanitizeOptions (Some [])
          (Some [mkRegExp Eps true false
                   (Some (fun input lastIndex =>
                            if lastIndex <=? 3 then Some (3, 2) else None))]))
     = u16 "aXb  ".
Proof. vm_compute. split; reflexivity. Qed.

(** A sanitized text holds no tab, so that the tab pass of a second run
    changes nothing. *)
Lemma nth_error_sanitize_again text options i c :
  nth_error (sanitizeText text options) i = Some c ->
  nth_error (sanitizeText (sanitizeText text options) options) i
  = Some (if covered (trace (sanitizeText text options) (patternsOf options)) i
          then space else c).
Proof.
  intros H. rewrite (nth_error_sanitizeText (sanitizeText text options)), H.
  cbn [option_map].
  destruct (covered _ i); [reflexivity|].
  assert (Hc : c <> tab).
  { pose proof (sanitizeText_no_tab text options) as F.
    rewrite Forall_forall in F. apply F. eapply nth_error_In, H. }
  unfold untab. destruct (N.eqb_spec c tab); congruence.
Qed.

Lemma covered_in_bounds text patterns i :
  covered (trace text patterns) i = true -> i < length text.
Proof.
  unfold covered. rewrite existsb_exists. intros (mt & Hin & Hc).
  apply trace_in_bounds in Hin. unfold covers in Hc.
  apply andb_true_iff in Hc. destruct Hc as [_ Hc].
  apply Nat.ltb_lt in Hc. lia.
Qed.

(** C8, as the code has it: sanitizing a sanitized text again with the
    built-in patterns keeps the length and changes characters into spaces
    only: the second result holds a space at every offset inside a span
    that a pattern of the chain matches in the sanitized text, and the
    character of the sanitized text at every other offset.  The second run
    changes nothing exactly when every offset inside such a span holds a
    space already, in particular when no built-in pattern matches the
    sanitized text. *)
Theorem sanitize_again_only_blanks (t : str) :
  let once := sanitizeText t builtin in
  let twice := sanitizeText once builtin in
  let spans := trace once (patternsOf builtin) in
  length twice = length t
  /\ (forall i c, nth_error once i = Some c ->
        nth_error twice i = Some (if covered spans i then space else c))
  /\ (twice = once <->
      forall i, covered spans i = true -> nth_error once i = Some space)
  /\ ((forall re, In re DEFAULT_REMOVAL_PATTERNS -> matches re once = []) ->
      twice = once).
Proof.
  cbv zeta.
  assert (Hiff : sanitizeText (sanitizeText t builtin) builtin
                 = sanitizeText t builtin <->
                 forall i,
                   covered (trace (sanitizeText t builtin) (patternsOf builtin))
                           i = true ->
                   nth_error (sanitizeText t builtin) i = Some space).
  { split.
    - intros E i Hc.
      pose proof (covered_in_bounds _ _ _ Hc) as Hi.
      destruct (nth_error (sanitizeText t builtin) i) as [c|] eqn:Ec;
        [|apply nth_error_None in Ec; lia].
      pose proof (nth_error_sanitize_again t builtin i c Ec) as H2.
      rewrite E, Ec, Hc in H2. exact H2.
    - intros H. apply nth_error_ext. intros i.
      destruct (nth_error (sanitizeText t builtin) i) as [c|] eqn:Ec.
      + rewrite (nth_error_sanitize_again t builtin i c Ec).
        destruct (covered _ i) eqn:Hc; [|reflexivity].
        specialize (H i Hc). congruence.
      + apply nth_error_None. rewrite length_sanitizeText.
        now apply nth_error_None. }
  split; [now rewrite !length_sanitizeText|].
  split; [intros i c; apply nth_error_sanitize_again|].
  split; [exact Hiff|].
  intros H. apply Hiff. intros i Hc. exfalso.
  unfold patternsOf, builtin at 2 in Hc.
  cbn [removalPatterns userPatterns orDefault] in Hc.
  rewrite app_nil_r, (chain_no_match _ _ H) in Hc. discriminate.
Qed.

Lemma sanitize_again_only_blanks_witness :
  sanitizeText (sanitizeText helloWorld builtin) builtin
  = sanitizeText helloWorld builtin.
Proof.
  apply (sanitize_again_only_blanks helloWorld).
  intros re H. cbn [DEFAULT_REMOVAL_PATTERNS In] in H.
  repeat (destruct H as [<-|H]; [vm_compute; reflexivity|]). destruct H.
Defined.

(** C8 as stated fails: in [``a` `] the inline-code pattern blanks [`a`],
    which leaves two backquotes around spaces, an inline-code span for the
    second run. *)
Lemma sanitize_not_idempotent :
  sanitizeText backquotes builtin = u16 "`    `"
  /\ sanitizeText (sanitizeText backquotes builtin) builtin = u16 "      "
  /\ sanitizeText (sanitizeText backquotes builtin) builtin
     <> sanitizeText backquotes builtin.
Proof.
  split; [vm_compute; reflexivity|]. split; [vm_compute; reflexivity|].
  vm_compute. discriminate.
Qed.

End SanitizerFacts.

(* ================================================================== *)
(** * Properties of the tokens *)
(* ================================================================== *)

Module TokenFacts.
Import Js TextProcessing Spans JsFacts Provider Pass.

Lemma execAll_Forall (P : char -> Prop) re input :
  native re = None ->
  atoms (ignoreCase re) P (source re) ->
  forall fuel lastIndex,
    Forall (fun mt => Forall P (matched mt)) (execAll fuel re input lastIndex).
Proof.
  intros Hn Ha. induction fuel as [|fuel IH]; intros li; cbn [execAll];
    [constructor|].
  destruct (exec re input li) as [mt|] eqn:E; [|constructor].
  apply (exec_sound P re Hn Ha) in E. destruct E as (_ & _ & _ & _ & _ & HP).
  constructor; [exact HP|]. destruct (global re); [apply IH|constructor].
Qed.

Lemma isWordChar_spec c :
  isWordChar c = true <->
  (65 <= c <= 90 \/ 97 <= c <= 122 \/ c = 39 \/ c = 8217)%N.
Proof.
  change (isWordChar c)
    with ((65 <=? c)%N && (c <=? 90)%N
          || ((97 <=? c)%N && (c <=? 122)%N
              || ((39 <=? c)%N && (c <=? 39)%N
                  || ((8217 <=? c)%N && (c <=? 8217)%N || false)))).
  rewrite !orb_true_iff, !andb_true_iff, !N.leb_le. lia.
Qed.

Lemma isDigit_spec c : isDigit c = true <-> (48 <= c <= 57)%N.
Proof.
  change (isDigit c) with ((48 <=? c)%N && (c <=? 57)%N || false).
  rewrite orb_true_iff, andb_true_iff, !N.leb_le. intuition discriminate.
Qed.

Lemma wordRegex_atoms :
  atoms (ignoreCase wordRegex) (fun c => isWordChar c = true)
        (source wordRegex).
Proof.
  cbn [wordRegex g ignoreCase source atoms at_least]. split; intros ch H;
    cbn [xorb in_class] in H.
  - apply isWordChar_spec.
    change (in_items [rng "A" "Z"; rng "a" "z"] ch)
      with ((65 <=? ch)%N && (ch <=? 90)%N
            || ((97 <=? ch)%N && (ch <=? 122)%N || false)) in H.
    rewrite !orb_true_iff, !andb_true_iff, !N.leb_le in H.
    intuition (try discriminate; lia).
  - exact H.
Qed.

(** Every token is made of word characters. *)
Lemma tokens_word_chars (s : str) :
  Forall (fun mt => Forall (fun c => isWordChar c = true) (matched mt))
         (matchAll s wordRegex).
Proof. apply execAll_Forall; [reflexivity|apply wordRegex_atoms]. Qed.

Lemma normalize_eq (w : str) :
  normalize w = map (subst1 curlyApostrophe apostrophe) w.
Proof. apply replace_chr. Qed.

Lemma length_normalize w : length (normalize w) = length w.
Proof. rewrite normalize_eq. apply length_map. Qed.

Lemma search_digit_none : forall s pos,
  Forall (fun c => isDigit c = false) s -> search digitRegex s pos = None.
Proof.
  induction s as [|c s IH]; intros pos H; rewrite search_eq;
    cbn [digitRegex ignoreCase source m]; [reflexivity|].
  inversion H as [|? ? Hc Hs]; subst.
  change (in_class false [cls_d] c) with (xorb false (isDigit c) || false).
  rewrite Hc. cbn [xorb orb]. apply IH, Hs.
Qed.

Lemma test_digit_false (s : str) :
  Forall (fun c => isDigit c = false) s -> test digitRegex s = false.
Proof.
  intros H. unfold test, exec. cbn [digitRegex global Nat.ltb Nat.leb skipn].
  fold digitRegex. now rewrite search_digit_none.
Qed.

Lemma normalized_no_digit (w : str) :
  Forall (fun c => isWordChar c = true) w ->
  Forall (fun c => isDigit c = false) (normalize w).
Proof.
  intros H. rewrite normalize_eq. apply Forall_map.
  eapply Forall_impl; [|exact H]. intros c Hc. cbv beta in Hc.
  apply isWordChar_spec in Hc.
  destruct (isDigit (subst1 curlyApostrophe apostrophe c)) eqn:E;
    [|reflexivity].
  apply isDigit_spec in E. unfold subst1, curlyApostrophe, apostrophe in E.
  destruct (N.eqb_spec c 8217); lia.
Qed.

(** C10. Every token that the word rule extracts, from any text, consists
    of letters and apostrophes only and holds no digit, neither does its
    normalized form: the test [/\d/.test(normalizedWord)] of the check
    pass is false for every token, its [continue] is never taken. *)
Theorem tokens_never_hold_a_digit (sanitized : str) :
  Forall (fun mt =>
            Forall (fun c => isWordChar c = true /\ isDigit c = false)
                   (matched mt)
            /\ test digitRegex (normalize (matched mt)) = false)
         (matchAll sanitized wordRegex).
Proof.
  eapply Forall_impl; [|apply tokens_word_chars].
  intros mt H. cbv beta in H. split.
  - eapply Forall_impl; [|exact H]. intros c Hc. cbv beta in Hc.
    split; [exact Hc|].
    apply isWordChar_spec in Hc.
    destruct (isDigit c) eqn:E; [|reflexivity].
    apply isDigit_spec in E. lia.
  - apply test_digit_false, normalized_no_digit, H.
Qed.

End TokenFacts.

(* ================================================================== *)
(** * Properties of the dictionary service *)
(* ================================================================== *)

Module ServiceFacts.
Import Js Pass.
Import SpellService.

Lemma load_result fs language root s :
  (exists e, load fs language root s = (Throw e, s))
  \/ (exists d, load fs language root s
                = (Ok tt, mk (Some d) (Some language))).
Proof.
  unfold load.
  destruct (bind _ _) as [d|e]; [right; exists d|left; exists e]; reflexivity.
Qed.

Lemma load_consistent fs language root s :
  consistent s = true -> consistent (snd (load fs language root s)) = true.
Proof.
  intros H. destruct (load_result fs language root s) as [[e ->]|[d ->]];
    [exact H|reflexivity].
Qed.

Lemma check_ready s word :
  isReady s = true -> consistent s = true ->
  exists b, check s word = Ok b.
Proof.
  unfold isReady, consistent, check, assertReady, backingCheck.
  destruct (loadedLanguage s) as [lang|]; [|discriminate].
  destruct (spellChecker s) as [dict|]; [|discriminate].
  intros _ _. exists (dictCheck dict word). reflexivity.
Qed.

Lemma check_not_ready s word : isReady s = false -> check s word = Throw NotLoaded.
Proof.
  unfold isReady, check, assertReady.
  destruct (loadedLanguage s); [discriminate|reflexivity].
Qed.

Lemma loads_not_ready fs : forall attempts s,
  isReady s = false -> snd (loads fs attempts s) = false ->
  isReady (fst (loads fs attempts s)) = false.
Proof.
  induction attempts as [|[language root] rest IH]; intros s Hs H;
    cbn [loads] in *; [exact Hs|].
  destruct (load_result fs language root s) as [[e E]|[d E]];
    rewrite E in *; cbn [fst snd] in *; [|discriminate].
  apply IH; assumption.
Qed.

(** C6. Whatever loads were attempted on a new service, as long as none
    succeeded [check] throws the "not loaded" error for every word, and so
    returns no boolean. *)
Theorem check_before_load_throws fs attempts (word : str) :
  snd (loads fs attempts new) = false ->
  check (fst (loads fs attempts new)) word = Throw NotLoaded.
Proof.
  intros H. apply check_not_ready, loads_not_ready; [reflexivity|exact H].
Qed.

Lemma check_before_load_throws_witness :
  check (fst (loads Examples.enUsOnly
                    [(fr, Examples.root); (sv_SE, Examples.root)] new))
        (u16 "hello")
  = Throw NotLoaded.
Proof.
  apply (check_before_load_throws Examples.enUsOnly
           [(fr, Examples.root); (sv_SE, Examples.root)] (u16 "hello")).
  vm_compute. reflexivity.
Defined.

(** The test of the repository: after a load that succeeds the service is
    ready, [check] answers and [suggest] returns at most [limit] words. *)
Lemma service_test :
  isReady (fst (loads Examples.enUsOnly [(en_US, Examples.root)] new)) = true
  /\ check (fst (loads Examples.enUsOnly [(en_US, Examples.root)] new))
           (u16 "hello") = Ok true
  /\ check (fst (loads Examples.enUsOnly [(en_US, Examples.root)] new))
           (u16 "helo") = Ok false
  /\ suggest (fst (loads Examples.enUsOnly [(en_US, Examples.root)] new))
             (u16 "helo") 2 = Ok [u16 "hello"; u16 "help"].
Proof. repeat split; reflexivity. Qed.

End ServiceFacts.

(* ================================================================== *)
(** * Properties of the check pass *)
(* ================================================================== *)

Module PassFacts.
Import Js TextProcessing Spans JsFacts SanitizerFacts Provider Pass TokenFacts.

(** The turn of the loop for one match, with the names of [Pass]. *)
Lemma checkToken_eq this document mt st :
  checkToken this document mt st =
  let n := processedTokens st + 1 in
  let w := normalize (matched mt) in
  let bottom ds :=
    if (Z.of_nat n >=? maxDiagnostics (settings this) * 20)%Z
    then Ok (Break (mkPass ds n (overflow st)))
    else Ok (Continue (mkPass ds n (overflow st))) in
  if test digitRegex w then Ok (Continue (mkPass (diagnostics st) n (overflow st)))
  else if includes (ignoreWordsList (settings this)) w
  then Ok (Continue (mkPass (diagnostics st) n (overflow st)))
  else
    match SpellService.check (spellService this) w with
    | Throw e => Throw e
    | Ok ok =>
        if negb ok then
          let ds := diagnostics st ++ [diagnosticOf this document mt] in
          if (Z.of_nat (length ds) >=? maxDiagnostics (settings this))%Z
          then Ok (Break (mkPass ds n (S (overflow st))))
          else bottom ds
        else bottom (diagnostics st)
    end.
Proof. reflexivity. Qed.

(** The loop rule: [P] holds as long as the loop goes on, [Q] when it is
    left, by [break] or at the end of the matches. *)
Lemma checkLoop_invariant (P Q : Pass -> Prop) this document :
  (forall st, P st -> Q st) ->
  forall tokens,
    (forall mt st fl, In mt tokens -> P st ->
       checkToken this document mt st = Ok fl ->
       match fl with Continue st1 => P st1 | Break st1 => Q st1 end) ->
    forall st st', P st ->
      checkLoop this document tokens st = Ok st' -> Q st'.
Proof.
  intros HPQ.
  induction tokens as [|mt rest IH]; intros Hstep st st' HP H;
    cbn [checkLoop] in H.
  - inversion H; subst; auto.
  - destruct (checkToken this document mt st) as [[st1|st1]|e] eqn:E;
      try discriminate.
    + apply (IH (fun mt' st0 fl Hin => Hstep mt' st0 fl (or_intror Hin))
                st1 st'); [|exact H].
      apply (Hstep mt st _ (or_introl eq_refl) HP E).
    + inversion H; subst.
      apply (Hstep mt st _ (or_introl eq_refl) HP E).
Qed.

(** The loop returns when the service answers. *)
Lemma checkLoop_total this document :
  (forall w, exists b, SpellService.check (spellService this) w = Ok b) ->
  forall tokens st, exists st', checkLoop this document tokens st = Ok st'.
Proof.
  intros Hc. induction tokens as [|mt rest IH]; intros st; cbn [checkLoop].
  - exists st. reflexivity.
  - rewrite checkToken_eq. cbv zeta.
    destruct (test digitRegex _); [apply IH|].
    destruct (includes _ _); [apply IH|].
    destruct (Hc (normalize (matched mt))) as [b ->].
    destruct b; cbn [negb];
      repeat match goal with
             | |- context [if ?c then _ else _] => destruct c
             end; eauto.
Qed.

(** Every diagnostic of the pass is the one of a token that is not
    ignored and that the dictionary rejects. *)
Lemma checkLoop_origin this document tokens st' :
  checkLoop this document tokens (mkPass [] 0 0) = Ok st' ->
  Forall (emittedFor this document tokens) (diagnostics st').
Proof.
  pose (P := fun st : Pass =>
               Forall (emittedFor this document tokens) (diagnostics st)).
  apply (checkLoop_invariant P P); [auto| |constructor].
  intros mt st fl Hin HP. rewrite checkToken_eq. cbv zeta.
  destruct (test digitRegex _); [intros H; inversion H; exact HP|].
  destruct (includes _ _) eqn:Ei; [intros H; inversion H; exact HP|].
  destruct (SpellService.check _ _) as [b|e] eqn:Ec; [|discriminate].
  destruct b; cbn [negb].
  - destruct (_ >=? _)%Z; intros H; inversion H; exact HP.
  - assert (Hnew : Forall (emittedFor this document tokens)
                          (diagnostics st ++ [diagnosticOf this document mt])).
    { apply Forall_app. split; [exact HP|]. constructor; [|constructor].
      exists mt. auto. }
    repeat match goal with
           | |- context [if ?c then _ else _] => destruct c
           end;
      intros H; inversion H; exact Hnew.
Qed.

(** With a cap of at least one, the loop stops at the cap, where it has
    raised its notice once. *)
Lemma checkLoop_caps this document tokens st' :
  (1 <= maxDiagnostics (settings this))%Z ->
  checkLoop this document tokens (mkPass [] 0 0) = Ok st' ->
  (Z.of_nat (length (diagnostics st')) <= maxDiagnostics (settings this))%Z
  /\ overflow st' <= 1
  /\ (overflow st' = 1 <->
      Z.of_nat (length (diagnostics st')) = maxDiagnostics (settings this)).
Proof.
  intros Hmax H.
  pose (P := fun st : Pass =>
    (Z.of_nat (length (diagnostics st)) < maxDiagnostics (settings this))%Z
    /\ overflow st = 0).
  pose (Q := fun st : Pass =>
    P st \/ (Z.of_nat (length (diagnostics st)) = maxDiagnostics (settings this)
             /\ overflow st = 1)).
  assert (HQ : Q st').
  { revert H. apply (checkLoop_invariant P Q); [unfold Q; auto| |].
    - intros mt st fl _ [Hl Ho]. rewrite checkToken_eq. cbv zeta.
      destruct (test digitRegex _); [intros H; inversion H; split; assumption|].
      destruct (includes _ _); [intros H; inversion H; split; assumption|].
      destruct (SpellService.check _ _) as [b|e]; [|discriminate].
      destruct b; cbn [negb].
      + destruct (_ >=? _)%Z; intros H; inversion H; unfold Q, P;
          cbn [diagnostics overflow]; auto.
      + destruct (Z.geb_spec
                    (Z.of_nat (length (diagnostics st
                                       ++ [diagnosticOf this document mt])))
                    (maxDiagnostics (settings this))) as [Hge|Hlt];
          [|destruct (_ >=? _)%Z]; intros H; inversion H; unfold Q, P;
          cbn [diagnostics overflow]; rewrite length_app in *;
          cbn [length] in *; [right|left|]; split; lia.
    - split; [cbn; lia|reflexivity]. }
  unfold Q, P in HQ. destruct HQ as [[Hl Ho]|[Hl Ho]]; repeat split; lia.
Qed.

(** With a cap of at least one and an empty ignore list no turn of the
    loop ends in [continue] before the test of the token cap, and the loop
    runs its body at most [maxDiagnostics * 20] times. *)
Lemma checkLoop_token_cap this document sanitized st' :
  (1 <= maxDiagnostics (settings this))%Z ->
  ignoreWordsList (settings this) = [] ->
  checkLoop this document (matchAll sanitized wordRegex) (mkPass [] 0 0)
  = Ok st' ->
  (Z.of_nat (processedTokens st') <= maxDiagnostics (settings this) * 20)%Z.
Proof.
  intros Hmax Hig.
  pose (P := fun st : Pass =>
    (Z.of_nat (processedTokens st) < maxDiagnostics (settings this) * 20)%Z).
  pose (Q := fun st : Pass =>
    (Z.of_nat (processedTokens st) <= maxDiagnostics (settings this) * 20)%Z).
  apply (checkLoop_invariant P Q); [unfold P, Q; lia| |unfold P; cbn; lia].
  intros mt st fl Hin HP. unfold P in HP.
  pose proof (tokens_word_chars sanitized) as HW.
  rewrite Forall_forall in HW. specialize (HW mt Hin).
  rewrite checkToken_eq. cbv zeta.
  rewrite (test_digit_false _ (normalized_no_digit _ HW)), Hig. cbn [includes existsb].
  destruct (SpellService.check _ _) as [b|e]; [|discriminate].
  destruct (Z.geb_spec (Z.of_nat (processedTokens st + 1))
                       (maxDiagnostics (settings this) * 20)) as [Hge|Hlt];
    destruct b; cbn [negb]; try destruct (_ >=? _)%Z;
    intros H; inversion H; unfold P, Q; cbn [processedTokens]; lia.
Qed.

End PassFacts.

(* ================================================================== *)
(** * Properties of the provider *)
(* ================================================================== *)

Module ProviderFacts.
Import Js TextProcessing Spans JsFacts SanitizerFacts Provider Pass.
Import TokenFacts ServiceFacts PassFacts Examples.

(* ------------------------------------------------------------------ *)
(** ** Line ends *)

Lemma newline_attempt (s rest : str) :
  m false (source newlineRegex) s Some = Some rest ->
  s = CR :: LF :: rest \/ s = LF :: rest.
Proof.
  destruct s as [|c [|d s]]; cbn; try discriminate.
  - destruct (N.eqb_spec c LF) as [->|_];
      [|destruct (c =? CR)%N; discriminate].
    cbn. intros H; inversion H; subst. right; reflexivity.
  - rewrite Nat.leb_refl.
    destruct (N.eqb_spec c CR) as [->|_].
    + destruct (N.eqb_spec d LF) as [->|_].
      * intros H; inversion H; subst. left; reflexivity.
      * cbn. discriminate.
    + destruct (N.eqb_spec c LF) as [->|_]; [|discriminate].
      intros H; inversion H; subst. right; reflexivity.
Qed.

(** What a scan matched was accepted by the matcher at some point of the
    input. *)
Lemma search_attempt re : forall s pos mt,
  search re s pos = Some mt ->
  exists t rest, m (ignoreCase re) (source re) t Some = Some rest
                 /\ matched mt = firstn (length t - length rest) t.
Proof.
  induction s as [|c s IH]; intros pos mt H; rewrite search_eq in H;
    destruct (m (ignoreCase re) (source re) _ Some) as [rest|] eqn:E;
    try discriminate.
  1,2: inversion H; subst mt; eexists; exists rest; split; [exact E|];
    reflexivity.
  eapply IH, H.
Qed.

Lemma execAll_attempt re input : native re = None ->
  forall fuel lastIndex mt,
  In mt (execAll fuel re input lastIndex) ->
  exists t rest, m (ignoreCase re) (source re) t Some = Some rest
                 /\ matched mt = firstn (length t - length rest) t.
Proof.
  intros Hn.
  induction fuel as [|fuel IH]; intros li mt H; cbn [execAll] in H;
    [destruct H|].
  destruct (exec re input li) as [m0|] eqn:E; [|destruct H].
  destruct H as [<-|H].
  - unfold exec in E. rewrite Hn in E. destruct (_ <? _); [discriminate|].
    eapply search_attempt, E.
  - destruct (global re); [eapply IH, H|destruct H].
Qed.

Lemma newline_matches input mt :
  In mt (matches newlineRegex input) ->
  matched mt = [CR; LF] \/ matched mt = [LF].
Proof.
  intros H. apply execAll_attempt in H; [|reflexivity].
  destruct H as (t & rest & E & ->).
  apply newline_attempt in E. destruct E as [->| ->].
  - left. change (CR :: LF :: rest) with ([CR; LF] ++ rest).
    apply firstn_prefix.
  - right. change (LF :: rest) with ([LF] ++ rest). apply firstn_prefix.
Qed.

Lemma no_crlf_substring : forall input i,
  hasCRLF input = false -> substring input i (i + 2) <> [CR; LF].
Proof.
  unfold substring. intros input i. replace (i + 2 - i) with 2 by lia.
  revert input. induction i as [|i IH]; intros input H.
  - destruct input as [|c [|d s]]; cbn [skipn firstn]; try discriminate.
    cbn [hasCRLF] in H. apply orb_false_iff in H. destruct H as [H _].
    intros E. inversion E; subst. discriminate.
  - destruct input as [|c s]; [discriminate|]. cbn [skipn].
    apply IH. cbn [hasCRLF] in H. destruct s; [reflexivity|].
    apply orb_false_iff in H. tauto.
Qed.

(** Without a CR LF pair the normalization of line ends changes nothing. *)
Lemma normalizedText_id document :
  hasCRLF (getText document) = false ->
  normalizedText document = getText document.
Proof.
  intros H. unfold normalizedText, replace.
  rewrite build_id.
  - reflexivity.
  - apply matches_ok.
  - intros mt Hin. destruct (newline_matches _ _ Hin) as [E|E]; [|now rewrite E].
    exfalso.
    destruct (spans_ok_In _ _ _ _ (matches_ok newlineRegex (getText document))
                Hin) as (_ & _ & Hs).
    rewrite E in Hs. cbn [length] in Hs.
    apply (no_crlf_substring _ (index mt) H). now rewrite <- Hs.
Qed.

(* ------------------------------------------------------------------ *)
(** ** Tokens and the text of the document *)

Lemma sanitized_word_char text options i x :
  nth_error (sanitizeText text options) i = Some x ->
  isWordChar x = true ->
  nth_error text i = Some x.
Proof.
  rewrite nth_error_sanitizeText.
  destruct (nth_error text i) as [c|]; [|discriminate]. cbn [option_map].
  destruct (covered _ i).
  - intros H; inversion H; subst. discriminate.
  - unfold untab. destruct (N.eqb_spec c tab).
    + intros H; inversion H; subst. discriminate.
    + intros H _. exact H.
Qed.

Lemma substring_agree (a b : str) (i n : nat) :
  (forall j, j < n -> nth_error a (i + j) = nth_error b (i + j)) ->
  substring a i (i + n) = substring b i (i + n).
Proof.
  intros H. unfold substring. replace (i + n - i) with n by lia.
  apply nth_error_ext. intros j.
  rewrite !nth_error_firstn, !nth_error_skipn.
  destruct (Nat.ltb_spec j n); auto.
Qed.

(** A token lies inside the text that was sanitized and is the piece of
    that text at its offsets. *)
Lemma token_text text options mt :
  In mt (matchAll (sanitizeText text options) wordRegex) ->
  index mt + length (matched mt) <= length text
  /\ substring text (index mt) (index mt + length (matched mt)) = matched mt.
Proof.
  intros Hin.
  destruct (spans_ok_In _ _ _ _ (matches_ok wordRegex (sanitizeText text options))
              Hin) as (_ & Hle & Hs).
  rewrite length_sanitizeText in Hle. split; [exact Hle|].
  pose proof (tokens_word_chars (sanitizeText text options)) as HW.
  rewrite Forall_forall in HW. specialize (HW mt Hin). rewrite Forall_forall in HW.
  rewrite Hs at 2. apply substring_agree. intros j Hj.
  assert (E : nth_error (sanitizeText text options) (index mt + j)
              = nth_error (matched mt) j).
  { rewrite Hs at 1. unfold substring.
    rewrite nth_error_firstn, nth_error_skipn.
    destruct (Nat.ltb_spec j (index mt + length (matched mt) - index mt));
      [reflexivity|lia]. }
  destruct (nth_error (matched mt) j) as [x|] eqn:Ex.
  - rewrite E. eapply sanitized_word_char; [exact E|].
    apply HW. eapply nth_error_In, Ex.
  - apply nth_error_None in Ex. lia.
Qed.

Lemma positionAt_inside document offset :
  hasCRLF (getText document) = false ->
  offset <= length (getText document) -> positionAt document offset = offset.
Proof.
  intros Hcr H. unfold positionAt.
  replace (Nat.min offset (length (getText document))) with offset by lia.
  destruct offset as [|before]; [reflexivity|].
  destruct (skipn before (getText document)) as [|c [|d rest]] eqn:E;
    try reflexivity.
  destruct ((c =? CR)%N && (d =? LF)%N) eqn:Ec; [|reflexivity].
  exfalso. apply andb_true_iff in Ec. destruct Ec as [Ec Ed].
  apply N.eqb_eq in Ec, Ed. subst c d.
  apply (no_crlf_substring _ before Hcr). unfold substring.
  replace (before + 2 - before) with 2 by lia. now rewrite E.
Qed.

(** C2, as the code has it: in a document without a CR LF line end, the
    range of every diagnostic, sliced from the text of the document, is
    the token as it stands in the text; the word that was looked up in the
    dictionary, rejected, and reported as the code of the diagnostic is
    that token with each curly apostrophe replaced by a straight one. *)
Theorem diagnostic_range_is_the_token pf this document pass :
  hasCRLF (getText document) = false ->
  runPass pf this document = Ok pass ->
  Forall (fun d =>
            exists mt, In mt (tokensOf pf this document)
              /\ getTextIn document (range d) = matched mt
              /\ code d
                 = Some (map (subst1 curlyApostrophe apostrophe) (matched mt))
              /\ SpellService.check (spellService this)
                   (map (subst1 curlyApostrophe apostrophe) (matched mt))
                 = Ok false)
         (diagnostics pass).
Proof.
  intros Hcr H. apply checkLoop_origin in H.
  eapply Forall_impl; [|exact H]. intros d (mt & Hin & -> & _ & Hck).
  exists mt. split; [exact Hin|].
  rewrite normalize_eq in Hck. unfold diagnosticOf. cbn [range code].
  rewrite normalize_eq. repeat split; [|exact Hck].
  unfold tokensOf, sanitizedText in Hin. apply token_text in Hin.
  rewrite (normalizedText_id _ Hcr) in Hin. destruct Hin as [Hle Hs].
  unfold getTextIn. cbn [rangeStart rangeEnd].
  rewrite !(positionAt_inside _ _ Hcr) by lia. exact Hs.
Qed.

Lemma diagnostic_range_is_the_token_witness :
  Forall (fun d =>
            exists mt, In mt (tokensOf platform (activated DEFAULT_SETTINGS None)
                                       twoTypos)
              /\ getTextIn twoTypos (range d) = matched mt
              /\ code d
                 = Some (map (subst1 curlyApostrophe apostrophe) (matched mt))
              /\ SpellService.check
                   (spellService (activated DEFAULT_SETTINGS None))
                   (map (subst1 curlyApostrophe apostrophe) (matched mt))
                 = Ok false)
         (diagnostics (passOf (activated DEFAULT_SETTINGS None) twoTypos)).
Proof.
  apply (diagnostic_range_is_the_token platform
           (activated DEFAULT_SETTINGS None) twoTypos).
  - vm_compute. reflexivity.
  - vm_compute. reflexivity.
Defined.

(** C2 as stated fails on a token with a curly apostrophe: the range
    addresses [xyz’q] in the document, the word looked up is [xyz'q]. *)
Lemma range_text_is_not_the_looked_up_word :
  exists d,
    diagnostics (passOf (activated DEFAULT_SETTINGS None) curlyDocument) = [d]
    /\ getTextIn curlyDocument (range d)
       = u16 "xyz" ++ [curlyApostrophe] ++ u16 "q"
    /\ code d = Some (u16 "xyz'q")
    /\ code d <> Some (getTextIn curlyDocument (range d)).
Proof.
  eexists. split; [vm_compute; reflexivity|].
  split; [vm_compute; reflexivity|].
  split; [vm_compute; reflexivity|].
  vm_compute. discriminate.
Qed.

(** Offsets are taken in the text with its line ends normalized and used in
    the document: after a CR LF the range of [helo] addresses [ hel]. *)
Lemma crlf_shifts_the_range :
  map (fun d => getTextIn crlfDocument (range d))
      (diagnostics (passOf (activated DEFAULT_SETTINGS None) crlfDocument))
  = [u16 " hel"].
Proof. vm_compute. reflexivity. Qed.

(* ------------------------------------------------------------------ *)
(** ** The caps of the pass *)

(** C3 on the code: with [maxDiagnostics = 1] the token cap is 20, and the
    pass over twenty-five ignored words runs its body twenty-five times,
    since [continue] skips the test of the cap; with [maxDiagnostics = 0]
    the pass emits one diagnostic, since the cap is tested after the
    push. *)
Theorem caps_are_overrun :
  (processedTokens
     (passOf (activated (withLimits 1 [u16 "abcd"] 3000) None) ignoredWords)
   = 25
   /\ (maxDiagnostics (withLimits 1 [u16 "abcd"] 3000) * 20 = 20)%Z)
  /\ (length (diagnostics
                (passOf (activated (withLimits 0 [] 3000) None) twoTypos))
      = 1
      /\ overflow (passOf (activated (withLimits 0 [] 3000) None) twoTypos) = 1).
Proof. vm_compute. repeat split. Qed.

(** The caps hold when [maxDiagnostics] is at least one and, for the token
    cap, no word is ignored. *)
Lemma caps_hold_without_ignored_words pf this document pass :
  (1 <= maxDiagnostics (settings this))%Z ->
  runPass pf this document = Ok pass ->
  (Z.of_nat (length (diagnostics pass)) <= maxDiagnostics (settings this))%Z
  /\ overflow pass <= 1
  /\ (ignoreWordsList (settings this) = [] ->
      (Z.of_nat (processedTokens pass)
       <= maxDiagnostics (settings this) * 20)%Z).
Proof.
  intros Hmax H.
  destruct (checkLoop_caps _ _ _ _ Hmax H) as (A & B & _).
  split; [exact A|]. split; [exact B|].
  intros Hig. exact (checkLoop_token_cap _ _ _ _ Hmax Hig H).
Qed.

(* ------------------------------------------------------------------ *)
(** ** The ignore list *)

Lemma str_eqb_eq a b : str_eqb a b = true <-> a = b.
Proof. unfold str_eqb. destruct (list_eq_dec N.eq_dec a b); intuition discriminate. Qed.

(** C4. A token whose normalized form is in the ignore list gets no
    diagnostic, and no diagnostic of the pass carries that word, whatever
    the dictionary answers. *)
Theorem ignored_token_gets_no_diagnostic pf this document pass mt :
  runPass pf this document = Ok pass ->
  In mt (tokensOf pf this document) ->
  includes (ignoreWordsList (settings this)) (normalize (matched mt)) = true ->
  ~ In (diagnosticOf this document mt) (diagnostics pass)
  /\ Forall (fun d => code d <> Some (normalize (matched mt)))
            (diagnostics pass).
Proof.
  intros H _ Hig. apply checkLoop_origin in H.
  assert (F : Forall (fun d => code d <> Some (normalize (matched mt)))
                     (diagnostics pass)).
  { eapply Forall_impl; [|exact H]. intros d (mt' & _ & -> & Hn & _) E.
    cbn [diagnosticOf code] in E. inversion E as [E']. rewrite E' in Hn.
    congruence. }
  split; [|exact F]. intros Hin. rewrite Forall_forall in F.
  apply (F _ Hin). reflexivity.
Qed.

Lemma ignored_token_gets_no_diagnostic_witness :
  ~ In (diagnosticOf (activated (withLimits 250 [u16 "wrold"] 3000) None)
                     twoTypos (mkMatch 5 (u16 "wrold")))
       (diagnostics
          (passOf (activated (withLimits 250 [u16 "wrold"] 3000) None) twoTypos))
  /\ Forall (fun d => code d <> Some (normalize (u16 "wrold")))
            (diagnostics
               (passOf (activated (withLimits 250 [u16 "wrold"] 3000) None)
                       twoTypos)).
Proof.
  apply (ignored_token_gets_no_diagnostic platform
           (activated (withLimits 250 [u16 "wrold"] 3000) None) twoTypos
           (passOf (activated (withLimits 250 [u16 "wrold"] 3000) None) twoTypos)
           (mkMatch 5 (u16 "wrold"))).
  - vm_compute. reflexivity.
  - vm_compute. right. left. reflexivity.
  - vm_compute. reflexivity.
Defined.

(* ------------------------------------------------------------------ *)
(** ** Loading the dictionary *)

Lemma shouldCheck_ready pf this document :
  shouldCheck pf this document = true ->
  SpellService.isReady (spellService this) = true.
Proof.
  unfold shouldCheck.
  destruct (SpellService.isReady (spellService this));
    [reflexivity|discriminate].
Qed.

(** C5, as the code has it: when [load] fails, the error reaches the caller
    of [load] and [loadDictionary] shows it; the service is left as it
    was.  If no load had succeeded it is still not ready and no document
    is checked; a load that succeeds makes it ready. *)
Theorem failed_load_leaves_the_service pf language this e :
  fst (SpellService.load (files pf) language (extensionRoot this)
                         (spellService this)) = Throw e ->
  spellService (loadDictionary pf language this) = spellService this
  /\ shown (host (loadDictionary pf language this))
     = shown (host this) ++ [LoadFailedMessage language e]
  /\ (SpellService.isReady (spellService this) = false ->
      SpellService.isReady (spellService (loadDictionary pf language this))
      = false
      /\ forall document,
           shouldCheck pf (loadDictionary pf language this) document = false)
  /\ (forall language',
        fst (SpellService.load (files pf) language' (extensionRoot this)
                               (spellService this)) = Ok tt ->
        SpellService.isReady
          (spellService (loadDictionary pf language' this)) = true).
Proof.
  intros H. unfold loadDictionary.
  destruct (load_result (files pf) language (extensionRoot this)
                        (spellService this)) as [[e' E]|[d E]];
    rewrite E in *; cbn [fst] in H; [|discriminate].
  inversion H; subst e'.
  cbn [withService withHost show spellService host shown].
  split; [reflexivity|]. split; [reflexivity|]. split.
  - intros Hr. split; [exact Hr|]. intros document.
    unfold shouldCheck. cbn [show withHost withService spellService].
    now rewrite Hr.
  - intros language' H'.
    destruct (load_result (files pf) language' (extensionRoot this)
                          (spellService this)) as [[e' E']|[d E']];
      rewrite E' in *; cbn [fst] in H'; [discriminate|].
    reflexivity.
Qed.

Lemma failed_load_leaves_the_service_witness :
  spellService (loadDictionary platform SpellService.fr
                               (fresh DEFAULT_SETTINGS None))
  = spellService (fresh DEFAULT_SETTINGS None)
  /\ shown (host (loadDictionary platform SpellService.fr
                                 (fresh DEFAULT_SETTINGS None)))
     = [LoadFailedMessage SpellService.fr IOError]
  /\ shouldCheck platform
       (loadDictionary platform SpellService.fr (fresh DEFAULT_SETTINGS None))
       twoTypos = false.
Proof.
  destruct (failed_load_leaves_the_service platform SpellService.fr
              (fresh DEFAULT_SETTINGS None) IOError)
    as (A & B & C & _).
  - vm_compute. reflexivity.
  - split; [exact A|]. split; [exact B|]. apply C. reflexivity.
Defined.

(** C5 as stated fails after an earlier successful load: loading [fr],
    whose files are missing, fails, the service stays ready with [en_US]
    and documents are still checked. *)
Lemma failed_load_after_success_stays_ready :
  fst (SpellService.load enUsOnly SpellService.fr root
         (spellService (activated DEFAULT_SETTINGS None))) = Throw IOError
  /\ SpellService.isReady
       (spellService (loadDictionary platform SpellService.fr
                                     (activated DEFAULT_SETTINGS None))) = true
  /\ shouldCheck platform
       (loadDictionary platform SpellService.fr
                       (activated DEFAULT_SETTINGS None)) twoTypos = true.
Proof. vm_compute. repeat split. Qed.

(* ------------------------------------------------------------------ *)
(** ** Suggestions *)

(** C7, as the code has it: when the backing checker throws during
    suggestion, [SpellService.suggest] throws too; [safeSuggest] of the
    provider catches that and returns no suggestion, and the code actions
    are then the two ignore actions, without any replacement. *)
Theorem suggestion_failure_is_caught_by_safeSuggest this word e :
  SpellService.backingSuggest (spellService this) word = Throw e ->
  SpellService.suggest (spellService this) word (suggestionLimit (settings this))
  = Throw (if SpellService.isReady (spellService this) then e else NotLoaded)
  /\ safeSuggest this word = []
  /\ forall document contextDiagnostics diagnostic,
       find (fun d => match code d with Some _ => true | None => false end)
            contextDiagnostics = Some diagnostic ->
       code diagnostic = Some word ->
       provideCodeActions this document contextDiagnostics
       = Some [mkCodeAction (u16 "Ignore '" ++ word ++ u16 "'")
                 (IgnoreWord (uri document) word TargetWorkspace)
                 [diagnostic] false;
               mkCodeAction (u16 "Always ignore '" ++ word ++ u16 "'")
                 (AlwaysIgnoreWord (uri document) word)
                 [diagnostic] false].
Proof.
  intros H.
  assert (E : SpellService.suggest (spellService this) word
                (suggestionLimit (settings this))
              = Throw (if SpellService.isReady (spellService this)
                       then e else NotLoaded)).
  { unfold SpellService.suggest, SpellService.assertReady, SpellService.isReady.
    destruct (SpellService.loadedLanguage (spellService this));
      cbn [bind]; [now rewrite H|reflexivity]. }
  assert (S : safeSuggest this word = []).
  { unfold safeSuggest. rewrite E. reflexivity. }
  split; [exact E|]. split; [exact S|].
  intros document ds diagnostic Hf Hc. unfold provideCodeActions.
  rewrite Hf, Hc, S. reflexivity.
Qed.

Lemma suggestion_failure_is_caught_by_safeSuggest_witness :
  safeSuggest (withDictionary brokenDictionary (fresh DEFAULT_SETTINGS None))
              (u16 "helo") = [].
Proof.
  apply (suggestion_failure_is_caught_by_safeSuggest
           (withDictionary brokenDictionary (fresh DEFAULT_SETTINGS None))
           (u16 "helo") BackendError).
  reflexivity.
Defined.

(** C7 as stated fails for [suggest] itself: the failure of the backing
    checker propagates to the caller. *)
Lemma suggest_propagates_the_failure :
  SpellService.suggest
    (SpellService.mk (Some brokenDictionary) (Some SpellService.en_US))
    (u16 "helo") 5
  = Throw BackendError.
Proof. reflexivity. Qed.

(* ------------------------------------------------------------------ *)
(** ** Scheduling *)

Lemma runPass_total pf this document :
  shouldCheck pf this document = true ->
  consistent (spellService this) = true ->
  exists pass, runPass pf this document = Ok pass.
Proof.
  intros Hs Hc. apply checkLoop_total. intros w.
  apply check_ready; [eapply shouldCheck_ready, Hs|exact Hc].
Qed.

(** What [publish] leaves: the time of the check and, for the document,
    the diagnostics of the pass in the collection and in the map. *)
Lemma publish_effects now document pass this :
  lastcheck (publish now document pass this) = now
  /\ Session.mapGet (uri document)
        (diagnosticCollection (publish now document pass this))
     = Some (diagnostics pass)
  /\ Session.mapGet (uri document)
        (diagnosticMap (publish now document pass this))
     = Some (diagnostics pass).
Proof.
  unfold publish. cbn [lastcheck diagnosticCollection diagnosticMap].
  unfold Session.mapGet, mapSet. cbn [find fst snd].
  rewrite (proj2 (str_eqb_eq (uri document) (uri document)) eq_refl).
  repeat split.
Qed.

(** C9. With a negative [checkInterval], a change, an open and a save of a
    document leave the provider and the editor as they are: no timeout is
    armed, no diagnostics are published, [lastcheck] stays.  The command
    [spellchecker.checkDocument] still runs the pass over the active
    document, when it is one the provider checks: afterwards [lastcheck]
    is the time of the command, and the collection and the map hold the
    diagnostics of the pass for the document. *)
Theorem negative_interval_stops_automatic_checks pf now this document :
  (checkInterval (settings this) < 0)%Z ->
  handle pf now (DidChange document) this = this
  /\ handle pf now (DidOpen document) this = this
  /\ handle pf now (DidSave document) this = this
  /\ forall active,
       activeTextEditor (host this) = Some active ->
       fileName active <> [] ->
       shouldCheck pf this active = true ->
       consistent (spellService this) = true ->
       exists pass,
         runPass pf this active = Ok pass
         /\ lastcheck (handle pf now CheckDocument this) = now
         /\ Session.mapGet (uri active)
              (diagnosticCollection (handle pf now CheckDocument this))
            = Some (diagnostics pass)
         /\ Session.mapGet (uri active)
              (diagnosticMap (handle pf now CheckDocument this))
            = Some (diagnostics pass).
Proof.
  intros Hneg. apply Z.ltb_lt in Hneg.
  cbn [handle]. unfold onDocumentChanged, maybeAutoCheck. rewrite Hneg.
  cbn [orb]. split; [destruct (negb _); reflexivity|].
  split; [reflexivity|]. split; [reflexivity|].
  intros active Ha Hf Hs Hc.
  destruct (runPass_total pf this active Hs Hc) as [pass Hp].
  exists pass. split; [exact Hp|].
  assert (E : checkDocumentCommand pf now this = publish now active pass this).
  { unfold checkDocumentCommand, doSpellCheck. rewrite Ha. cbn [firstSome].
    destruct (fileName active); [congruence|].
    rewrite Hs, Hp. reflexivity. }
  rewrite E. apply publish_effects.
Qed.

Lemma negative_interval_stops_automatic_checks_witness :
  handle platform 5000 (DidChange twoTypos)
         (activated (withLimits 250 [] (-1)) (Some twoTypos))
  = activated (withLimits 250 [] (-1)) (Some twoTypos)
  /\ exists pass,
       map code (diagnostics pass)
       = [Some (u16 "Helo"); Some (u16 "wrold")]
       /\ lastcheck (handle platform 5000 CheckDocument
                       (activated (withLimits 250 [] (-1)) (Some twoTypos)))
          = 5000%Z
       /\ Session.mapGet (uri twoTypos)
            (diagnosticCollection
               (handle platform 5000 CheckDocument
                  (activated (withLimits 250 [] (-1)) (Some twoTypos))))
          = Some (diagnostics pass).
Proof.
  destruct (negative_interval_stops_automatic_checks platform 5000
              (activated (withLimits 250 [] (-1)) (Some twoTypos)) twoTypos)
    as (A & _ & _ & D).
  - vm_compute. reflexivity.
  - split; [exact A|].
    destruct (D twoTypos) as (pass & P & L & C & _);
      [reflexivity|discriminate|reflexivity|reflexivity|].
    exists pass. split; [|split; [exact L|exact C]].
    assert (E : pass
                = passOf (activated (withLimits 250 [] (-1)) (Some twoTypos))
                         twoTypos)
      by (unfold passOf; rewrite P; reflexivity).
    rewrite E. vm_compute. reflexivity.
Defined.

(** The scenario of the specification: two misspelled words and a URL. *)
Lemma scenario_two_typos :
  map code (diagnostics (passOf (activated DEFAULT_SETTINGS None) twoTypos))
  = [Some (u16 "Helo"); Some (u16 "wrold")]
  /\ map (fun d => getTextIn twoTypos (range d))
         (diagnostics (passOf (activated DEFAULT_SETTINGS None) twoTypos))
     = [u16 "Helo"; u16 "wrold"].
Proof. vm_compute. split; reflexivity. Qed.

(** With an interval that is not negative the same events do check. *)
Lemma default_interval_checks_on_open :
  lastcheck (handle platform 5000 (DidOpen twoTypos)
                    (activated DEFAULT_SETTINGS None)) = 5000%Z
  /\ length (pending (host (handle platform 1000 (DidChange twoTypos)
                              (handle platform 500 (DidOpen twoTypos)
                                 (activated DEFAULT_SETTINGS None))))) = 1.
Proof. vm_compute. split; reflexivity. Qed.

End ProviderFacts.

(* ================================================================== *)
(** * Properties of the settings *)
(* ================================================================== *)

Module SettingsFacts.
Import Js Provider Settings.

Lemma includes_In (l : list str) (x : str) : includes l x = true <-> In x l.
Proof.
  unfold includes. rewrite existsb_exists. split.
  - intros (y & Hy & E). apply ProviderFacts.str_eqb_eq in E. now subst.
  - intros H. exists x. split; [exact H|]. now apply ProviderFacts.str_eqb_eq.
Qed.

Lemma includes_false (l : list str) (x : str) :
  includes l x = false <-> ~ In x l.
Proof.
  rewrite <- includes_In. destruct (includes l x); intuition congruence.
Qed.

(** The insertions into the [Set], from a set [acc]. *)
Lemma unique_from : forall array acc,
  NoDup acc ->
  let out :=
    fold_left (fun set x => if includes set x then set else set ++ [x])
              array acc in
  NoDup out
  /\ (forall x, In x out <-> In x acc \/ In x array)
  /\ (exists rest, out = acc ++ rest)
  /\ (NoDup (acc ++ array) -> out = acc ++ array).
Proof.
  induction array as [|a array IH]; intros acc Hacc; cbn [fold_left].
  - repeat split; auto.
    + intros [H|[]]; exact H.
    + exists []. now rewrite app_nil_r.
    + now rewrite app_nil_r.
  - destruct (includes acc a) eqn:E.
    + apply includes_In in E.
      destruct (IH acc Hacc) as (N & I & (rest & P) & _).
      repeat split; auto.
      * intros H. apply I in H. cbn [In]. tauto.
      * intros [H|[<-|H]]; apply I; auto.
      * exists rest. exact P.
      * intros ND. apply NoDup_remove_2 in ND. exfalso. apply ND.
        apply in_or_app. auto.
    + apply includes_false in E.
      assert (Hacc' : NoDup (acc ++ [a])).
      { apply NoDup_app; [exact Hacc|repeat constructor; auto|].
        intros x Hx [<-|[]]. exact (E Hx). }
      destruct (IH (acc ++ [a]) Hacc') as (N & I & (rest & P) & Q).
      repeat split; auto.
      * intros H. apply I in H. rewrite in_app_iff in H. cbn [In] in *. tauto.
      * intros H. apply I. rewrite in_app_iff. cbn [In] in *. tauto.
      * exists (a :: rest). rewrite P, <- app_assoc. reflexivity.
      * intros ND. rewrite Q; rewrite <- app_assoc; [reflexivity|exact ND].
Qed.

Lemma getUniqueArray_members (array : list str) :
  NoDup (getUniqueArray array)
  /\ (forall x, In x (getUniqueArray array) <-> In x array)
  /\ (NoDup array -> getUniqueArray array = array).
Proof.
  destruct (unique_from array [] (NoDup_nil _)) as (N & I & _ & Q).
  fold (getUniqueArray array) in N, I, Q.
  split; [exact N|]. split; [intros x; rewrite I; cbn [In]; tauto|exact Q].
Qed.

Lemma getUniqueArray_app (array more : list str) :
  exists rest, getUniqueArray (array ++ more) = getUniqueArray array ++ rest.
Proof.
  unfold getUniqueArray at 1. rewrite fold_left_app.
  fold (getUniqueArray array).
  destruct (getUniqueArray_members array) as (N & _).
  destruct (unique_from more (getUniqueArray array) N) as (_ & _ & P & _).
  exact P.
Qed.

(** [getUniqueArray] returns the members of the array without duplicates;
    an array without duplicates is returned as it is, and what is appended
    to an array does not move what was there. *)
Theorem getUniqueArray_spec (array more : list str) :
  NoDup (getUniqueArray array)
  /\ (forall x, In x (getUniqueArray array) <-> In x array)
  /\ (NoDup array -> getUniqueArray array = array)
  /\ getUniqueArray (getUniqueArray array) = getUniqueArray array
  /\ exists rest,
       getUniqueArray (array ++ more) = getUniqueArray array ++ rest.
Proof.
  destruct (getUniqueArray_members array) as (N & I & Q).
  split; [exact N|]. split; [exact I|]. split; [exact Q|]. split.
  - apply (getUniqueArray_members (getUniqueArray array)). exact N.
  - apply getUniqueArray_app.
Qed.

Lemma codeName_injective a b :
  SpellService.codeName a = SpellService.codeName b -> a = b.
Proof. destruct a, b; intros H; try reflexivity; vm_compute in H; discriminate. Qed.

(** [normalizeLanguage] gives back the code of each of the seven language
    names and [en_US] for every other string. *)
Theorem normalizeLanguage_spec :
  (forall c, normalizeLanguage (SpellService.codeName c) = c)
  /\ (forall s, (forall c, SpellService.codeName c <> s) ->
                normalizeLanguage s = SpellService.en_US).
Proof.
  split.
  - intros c. destruct c; vm_compute; reflexivity.
  - intros s H. unfold normalizeLanguage, allowed. cbn [find].
    repeat match goal with
           | |- context [str_eqb ?a s] =>
               let E := fresh "E" in
               destruct (str_eqb a s) eqn:E;
               [apply ProviderFacts.str_eqb_eq in E; exfalso; eapply H, E|]
           end.
    reflexivity.
Qed.

Lemma ensureStringArray_ofStrings l : ensureStringArray (ofStrings l) = l.
Proof.
  unfold ofStrings, ensureStringArray.
  induction l as [|x l IH]; cbn [map flat_map app]; [reflexivity|].
  now rewrite IH.
Qed.

Lemma ensureStringArray_get value :
  ensureStringArray (get value (ofStrings [])) = ensureStringArray value.
Proof. destruct value; reflexivity. Qed.

Lemma In_ensureStringArray items s :
  In s (ensureStringArray (JArray items)) <-> In (JString s) items.
Proof.
  cbn [ensureStringArray]. rewrite in_flat_map. split.
  - intros (v & Hv & Hs). destruct v; cbn [In] in Hs; try contradiction.
    destruct Hs as [<-|[]]. exact Hv.
  - intros H. exists (JString s). split; [exact H|left; reflexivity].
Qed.

(** With a legacy file, the ignored words and the ignored patterns of the
    settings are those of the configuration and of the file together,
    each once, the configured ones first; a configured list that is not
    an array counts as empty, members that are not strings are dropped. *)
Theorem loadSettings_merges_legacy config legacy :
  let st := loadSettings config (Some legacy) in
  NoDup (ignoreWordsList st)
  /\ NoDup (ignoreRegExp st)
  /\ (forall w, In w (ignoreWordsList st) <->
        In w (ensureStringArray (cfgIgnoreWordsList config))
        \/ In w (orDefaultList (legacyIgnoreWordsList legacy)))
  /\ (forall r, In r (ignoreRegExp st) <->
        In r (ensureStringArray (cfgIgnoreRegExp config))
        \/ In r (orDefaultList (legacyIgnoreRegExp legacy)))
  /\ (exists rest,
        ignoreWordsList st
        = getUniqueArray (ensureStringArray (cfgIgnoreWordsList config))
            ++ rest)
  /\ (exists rest,
        ignoreRegExp st
        = getUniqueArray (ensureStringArray (cfgIgnoreRegExp config))
            ++ rest).
Proof.
  cbv zeta. unfold loadSettings.
  cbn [ignoreWordsList ignoreRegExp DEFAULT_SETTINGS].
  rewrite !ensureStringArray_get.
  split; [apply getUniqueArray_members|].
  split; [apply getUniqueArray_members|].
  split; [|split; [|split]].
  - intros w.
    destruct (getUniqueArray_members
                (ensureStringArray (cfgIgnoreWordsList config)
                   ++ orDefaultList (legacyIgnoreWordsList legacy)))
      as (_ & I & _).
    rewrite I. apply in_app_iff.
  - intros r.
    destruct (getUniqueArray_members
                (ensureStringArray (cfgIgnoreRegExp config)
                   ++ orDefaultList (legacyIgnoreRegExp legacy)))
      as (_ & I & _).
    rewrite I. apply in_app_iff.
  - apply getUniqueArray_app.
  - apply getUniqueArray_app.
Qed.

(** After [loadSettings], a document is checked only when its language
    id is one of the strings of the configured [documentTypes] array, or
    one of the default types when the key is not set, and when its
    extension and its base name are not among the strings of the
    configured [ignoreFileExtensions] and [ignoreFilenames] arrays.  A
    [documentTypes] that is set to something else than an array, a single
    string for one, leaves no type at all: no document is checked.  The
    legacy file has no part in this. *)
Theorem loaded_lists_decide_what_is_checked
  pf config legacy this document :
  settings this = loadSettings config legacy ->
  shouldCheck pf this document = true ->
  match cfgDocumentTypes config with
  | JUndefined =>
      In (languageId document) [u16 "markdown"; u16 "latex"; u16 "plaintext"]
  | JArray items => In (JString (languageId document)) items
  | _ => False
  end
  /\ match cfgIgnoreFileExtensions config with
     | JArray items => ~ In (JString (extname pf (fileName document))) items
     | _ => True
     end
  /\ match cfgIgnoreFilenames config with
     | JArray items => ~ In (JString (basename pf (fileName document))) items
     | _ => True
     end.
Proof.
  intros Hst H. unfold shouldCheck in H. rewrite Hst in H.
  destruct (SpellService.isReady _); [|discriminate]. cbn [negb] in H.
  destruct (str_eqb (scheme document) _); [|discriminate]. cbn [negb] in H.
  destruct (includes (documentTypes _) _) eqn:E1; [|discriminate].
  cbn [negb] in H.
  destruct (includes (ignoreFileExtensions _) _) eqn:E2; [discriminate|].
  destruct (includes (ignoreFilenames _) _) eqn:E3; [discriminate|].
  apply includes_In in E1. apply includes_false in E2, E3.
  assert (F : documentTypes (loadSettings config legacy)
              = ensureStringArray
                  (get (cfgDocumentTypes config)
                       (ofStrings (documentTypes DEFAULT_SETTINGS)))
              /\ ignoreFileExtensions (loadSettings config legacy)
                 = ensureStringArray (cfgIgnoreFileExtensions config)
              /\ ignoreFilenames (loadSettings config legacy)
                 = ensureStringArray (cfgIgnoreFilenames config)).
  { unfold loadSettings.
    destruct legacy;
      cbn [documentTypes ignoreFileExtensions ignoreFilenames
           DEFAULT_SETTINGS];
      rewrite !ensureStringArray_get; repeat split. }
  destruct F as (F1 & F2 & F3).
  rewrite F1 in E1. rewrite F2 in E2. rewrite F3 in E3.
  split; [|split].
  - destruct (cfgDocumentTypes config); cbn [get] in E1;
      try (cbn [ensureStringArray In] in E1; contradiction).
    + rewrite ensureStringArray_ofStrings in E1. exact E1.
    + now apply In_ensureStringArray.
  - destruct (cfgIgnoreFileExtensions config); try exact I.
    intros Hin. apply E2. now apply In_ensureStringArray.
  - destruct (cfgIgnoreFilenames config); try exact I.
    intros Hin. apply E3. now apply In_ensureStringArray.
Qed.

Lemma loaded_lists_decide_what_is_checked_witness :
  In (JString (languageId Examples.twoTypos))
     [JString (u16 "markdown"); JNumber 3].
Proof.
  apply (loaded_lists_decide_what_is_checked Examples.platform
           (mkConfiguration JUndefined JUndefined
              (JArray [JString (u16 "markdown"); JNumber 3]) JUndefined
              JUndefined JUndefined JUndefined JUndefined JUndefined
              JUndefined JUndefined)
           None
           (Examples.activated
              (loadSettings
                 (mkConfiguration JUndefined JUndefined
                    (JArray [JString (u16 "markdown"); JNumber 3]) JUndefined
                    JUndefined JUndefined JUndefined JUndefined JUndefined
                    JUndefined JUndefined)
                 None)
              None)
           Examples.twoTypos).
  - reflexivity.
  - vm_compute. reflexivity.
Defined.

End SettingsFacts.

(* ================================================================== *)
(** * Further properties of the tokens and of the check pass *)
(* ================================================================== *)

Module CheckFacts.
Import Js TextProcessing Spans JsFacts SanitizerFacts Provider Pass.
Import TokenFacts ServiceFacts PassFacts Notions.

Lemma rep_atLeast mr k greedy n :
  atLeast n mr ->
  forall fuel lo hi s x,
    rep mr k greedy fuel lo hi s = Some x ->
    exists s1 s2, s = s1 ++ s2
      /\ match hi with Some h => Nat.min lo h | None => lo end * n
         <= length s1
      /\ k s2 = Some x.
Proof.
  intros Hmr. induction fuel as [|fuel IH]; intros lo hi s x H;
    cbn [rep] in H; cbv beta zeta in H; [discriminate|].
  destruct (is_zero hi) eqn:Z.
  - exists [], s. destruct hi as [[|h]|]; try discriminate.
    rewrite Nat.min_0_r. cbn. auto with arith.
  - destruct lo as [|lo'].
    + replace (match hi with Some h => Nat.min 0 h | None => 0 end * n)
        with 0 by (destruct hi; reflexivity).
      assert (Hgen : forall (k' : str -> option str) y,
                (forall s' z, k' s' = Some z ->
                   exists t1 t2, s' = t1 ++ t2 /\ k t2 = Some z) ->
                mr s k' = Some y ->
                exists s1 s2, s = s1 ++ s2 /\ 0 <= length s1 /\ k s2 = Some y).
      { intros k' y Hk' Hy. apply Hmr in Hy.
        destruct Hy as (s1 & s2 & -> & _ & Hy).
        apply Hk' in Hy. destruct Hy as (t1 & t2 & -> & Hy).
        exists (s1 ++ t1), t2. rewrite app_assoc.
        split; [reflexivity|]. split; [lia|exact Hy]. }
      assert (Hcont : forall s' z,
                (if length s' <? length s
                 then rep mr k greedy fuel 0 (dec hi) s' else None) = Some z ->
                exists t1 t2, s' = t1 ++ t2 /\ k t2 = Some z).
      { intros s' z Hz. destruct (_ <? _); [|discriminate].
        apply IH in Hz. destruct Hz as (t1 & t2 & -> & _ & Hz). eauto. }
      destruct greedy.
      * destruct (mr s _) eqn:E.
        -- inversion H; subst. exact (Hgen _ _ Hcont E).
        -- exists [], s. split; [reflexivity|]. split; [cbn; lia|exact H].
      * destruct (k s) eqn:E.
        -- inversion H; subst. exists [], s.
           split; [reflexivity|]. split; [cbn; lia|exact E].
        -- exact (Hgen _ _ Hcont H).
    + apply Hmr in H. destruct H as (s1 & s2 & -> & L1 & H).
      apply IH in H. destruct H as (t1 & t2 & -> & L2 & H).
      exists (s1 ++ t1), t2. rewrite app_assoc. split; [reflexivity|].
      split; [|exact H]. rewrite length_app.
      destruct hi as [[|h]|]; cbn [dec pred] in L2; try discriminate.
      * rewrite <- Nat.succ_min_distr. cbn [Nat.mul]. lia.
      * cbn [Nat.mul]. lia.
Qed.

Lemma m_atLeast ic r : atLeast (minlen r) (m ic r).
Proof.
  induction r as [|c|inv items| |r1 IH1 r2 IH2|r1 IH1 r2 IH2|r0 IH lo hi gr];
    intros s k x H;
    [cbn [m minlen] in * ..
    |change (rep (m ic r0) k gr (S (lo + length s)) lo hi s = Some x) in H].
  - exists [], s. auto.
  - destruct s as [|ch s']; [discriminate|].
    destruct (_ =? _)%N; [|discriminate]. exists [ch], s'. auto.
  - destruct s as [|ch s']; [discriminate|].
    destruct (xorb _ _); [|discriminate]. exists [ch], s'. auto.
  - destruct s as [|ch s']; [discriminate|].
    destruct (isLineTerminator _); [discriminate|]. exists [ch], s'. auto.
  - apply IH1 in H. destruct H as (s1 & s2 & -> & L1 & H).
    apply IH2 in H. destruct H as (t1 & t2 & -> & L2 & H).
    exists (s1 ++ t1), t2. rewrite app_assoc, length_app.
    split; [reflexivity|]. split; [lia|exact H].
  - destruct (m ic r1 s k) eqn:E.
    + inversion H; subst. apply IH1 in E.
      destruct E as (s1 & s2 & -> & L & E). exists s1, s2.
      split; [reflexivity|]. split; [lia|exact E].
    + apply IH2 in H. destruct H as (s1 & s2 & -> & L & H). exists s1, s2.
      split; [reflexivity|]. split; [lia|exact H].
  - cbn [minlen]. eapply rep_atLeast; [exact IH|exact H].
Qed.

Lemma execAll_minlen re input : native re = None ->
  forall fuel lastIndex,
    Forall (fun mt => minlen (source re) <= length (matched mt))
           (execAll fuel re input lastIndex).
Proof.
  intros Hn fuel li. apply Forall_forall. intros mt H.
  apply (ProviderFacts.execAll_attempt re input Hn) in H.
  destruct H as (t & rest & E & ->).
  apply m_atLeast in E. destruct E as (s1 & s2 & -> & L & E).
  inversion E; subst. now rewrite firstn_prefix.
Qed.

(** Every token holds at least four characters, and so does the word of
    every diagnostic. *)
Theorem tokens_hold_four_characters pf this document pass :
  Forall (fun mt => 4 <= length (matched mt)) (tokensOf pf this document)
  /\ (runPass pf this document = Ok pass ->
      Forall (fun d => exists w, code d = Some w /\ 4 <= length w)
             (diagnostics pass)).
Proof.
  assert (T : Forall (fun mt => 4 <= length (matched mt))
                     (tokensOf pf this document)).
  { apply (execAll_minlen wordRegex _ eq_refl). }
  split; [exact T|]. intros H. apply checkLoop_origin in H.
  rewrite Forall_forall in T.
  eapply Forall_impl; [|exact H]. intros d (mt & Hin & -> & _).
  exists (normalize (matched mt)). split; [reflexivity|].
  rewrite length_normalize. apply T, Hin.
Qed.

Lemma tokens_hold_four_characters_witness :
  Forall (fun d => exists w, code d = Some w /\ 4 <= length w)
         (diagnostics
            (Examples.passOf (Examples.activated DEFAULT_SETTINGS None)
                             Examples.twoTypos)).
Proof.
  apply (tokens_hold_four_characters Examples.platform
           (Examples.activated DEFAULT_SETTINGS None) Examples.twoTypos).
  vm_compute. reflexivity.
Defined.

(* ------------------------------------------------------------------ *)
(** ** What the pass emits *)

Lemma check_uses this d w :
  uses this d ->
  SpellService.check (spellService this) w = Ok (SpellService.dictCheck d w).
Proof.
  intros [Hd Hr]. unfold SpellService.check, SpellService.assertReady,
    SpellService.backingCheck, SpellService.isReady in *.
  rewrite Hd. destruct (SpellService.loadedLanguage _); [reflexivity|discriminate].
Qed.

Lemma length_filter_firstn {A} (f : A -> bool) : forall k l,
  length (filter f (firstn k l)) <= length (filter f l).
Proof.
  induction k as [|k IH]; intros [|a l]; cbn [firstn filter length];
    try lia.
  destruct (f a); cbn [length]; specialize (IH l); lia.
Qed.

(** From the state that the turns over [done] have left, the loop goes
    through some more tokens, in order, and stops before the end only at a
    cap. *)
Lemma checkLoop_prefix this document d :
  uses this d ->
  forall tokens done o st',
    Forall (fun mt => test digitRegex (normalize (matched mt)) = false) tokens ->
    checkLoop this document tokens
      (mkPass (map (diagnosticOf this document) (filter (flagged this d) done))
              (length done) o) = Ok st' ->
    exists k,
      k <= length tokens
      /\ processedTokens st' = length done + k
      /\ diagnostics st'
         = map (diagnosticOf this document)
               (filter (flagged this d) (done ++ firstn k tokens))
      /\ (k < length tokens ->
          (Z.of_nat (length (diagnostics st'))
           >= maxDiagnostics (settings this))%Z
          \/ (Z.of_nat (processedTokens st')
              >= maxDiagnostics (settings this) * 20)%Z).
Proof.
  intros Hu. induction tokens as [|mt rest IH]; intros done o st' Hd H;
    cbn [checkLoop] in H.
  - inversion H; subst. exists 0. cbn [firstn length processedTokens diagnostics].
    rewrite app_nil_r. repeat split; lia.
  - inversion Hd as [|? ? Hmt Hrest]; subst.
    assert (Hnext : forall o1,
      checkLoop this document rest
        (mkPass (map (diagnosticOf this document)
                     (filter (flagged this d) (done ++ [mt])))
                (length (done ++ [mt])) o1) = Ok st' ->
      exists k, k <= length (mt :: rest)
        /\ processedTokens st' = length done + k
        /\ diagnostics st'
           = map (diagnosticOf this document)
                 (filter (flagged this d) (done ++ firstn k (mt :: rest)))
        /\ (k < length (mt :: rest) ->
            (Z.of_nat (length (diagnostics st'))
             >= maxDiagnostics (settings this))%Z
            \/ (Z.of_nat (processedTokens st')
                >= maxDiagnostics (settings this) * 20)%Z)).
    { intros o1 H1. apply (IH _ _ _ Hrest) in H1.
      destruct H1 as (k & K1 & K2 & K3 & K4). exists (S k).
      rewrite length_app in K2. cbn [length firstn] in *.
      rewrite <- app_assoc in K3. cbn [app] in K3.
      repeat split; [lia|lia|exact K3|]. intros L. apply K4. lia. }
    assert (Hstop : forall o1,
      (Z.of_nat (length (map (diagnosticOf this document)
                             (filter (flagged this d) (done ++ [mt]))))
       >= maxDiagnostics (settings this))%Z
      \/ (Z.of_nat (length done + 1) >= maxDiagnostics (settings this) * 20)%Z ->
      Ok (mkPass (map (diagnosticOf this document)
                      (filter (flagged this d) (done ++ [mt])))
                 (length done + 1) o1) = Ok st' ->
      exists k, k <= length (mt :: rest)
        /\ processedTokens st' = length done + k
        /\ diagnostics st'
           = map (diagnosticOf this document)
                 (filter (flagged this d) (done ++ firstn k (mt :: rest)))
        /\ (k < length (mt :: rest) ->
            (Z.of_nat (length (diagnostics st'))
             >= maxDiagnostics (settings this))%Z
            \/ (Z.of_nat (processedTokens st')
                >= maxDiagnostics (settings this) * 20)%Z)).
    { intros o1 Hcap H1. inversion H1; subst. exists 1.
      cbn [length firstn processedTokens diagnostics].
      repeat split; [lia|]. intros _. exact Hcap. }
    rewrite checkToken_eq in H. cbv zeta in H.
    cbn [processedTokens diagnostics overflow] in H. rewrite Hmt in H.
    rewrite (check_uses _ _ _ Hu) in H.
    assert (Hlen : length (done ++ [mt]) = length done + 1)
      by (rewrite length_app; reflexivity).
    rewrite <- Hlen in H.
    assert (Hf : filter (flagged this d) (done ++ [mt])
                 = filter (flagged this d) done
                   ++ (if flagged this d mt then [mt] else [])).
    { rewrite filter_app. cbn [filter]. reflexivity. }
    unfold flagged at 3 in Hf.
    destruct (includes _ _) eqn:Ei; cbn [negb andb] in Hf.
    + rewrite app_nil_r in Hf. rewrite <- Hf in H. cbv beta iota in H; eapply Hnext, H.
    + destruct (SpellService.dictCheck d _) eqn:Ec; cbn [negb andb] in *.
      * rewrite app_nil_r in Hf. rewrite <- Hf in H.
        destruct (Z.geb_spec (Z.of_nat (length (done ++ [mt])))
                             (maxDiagnostics (settings this) * 20)).
        -- rewrite Hlen in *. cbv beta iota in H; apply (Hstop o); [right; lia|exact H].
        -- cbv beta iota in H; eapply Hnext, H.
      * replace (map (diagnosticOf this document)
                     (filter (flagged this d) done)
                 ++ [diagnosticOf this document mt])
          with (map (diagnosticOf this document)
                    (filter (flagged this d) (done ++ [mt]))) in H
          by (rewrite Hf, map_app; reflexivity).
        destruct (Z.geb_spec
                    (Z.of_nat (length (map (diagnosticOf this document)
                                 (filter (flagged this d) (done ++ [mt])))))
                    (maxDiagnostics (settings this))).
        -- rewrite Hlen in *. cbv beta iota in H; apply (Hstop (S o)); [left; lia|exact H].
        -- destruct (Z.geb_spec (Z.of_nat (length (done ++ [mt])))
                                (maxDiagnostics (settings this) * 20)).
           ++ rewrite Hlen in *. cbv beta iota in H; apply (Hstop o); [right; lia|exact H].
           ++ cbv beta iota in H; eapply Hnext, H.
Qed.

(** The diagnostics of a pass are those of the flagged tokens (not
    ignored, rejected by the dictionary) among the first [processedTokens]
    tokens of the sanitized text, in the order of the text; the pass stops
    before the last token only at one of its caps, and below both caps
    every flagged token of the document has its diagnostic. *)
Theorem pass_emits_the_flagged_tokens pf this document d pass :
  uses this d ->
  runPass pf this document = Ok pass ->
  let tokens := tokensOf pf this document in
  processedTokens pass <= length tokens
  /\ diagnostics pass
     = map (diagnosticOf this document)
           (filter (flagged this d) (firstn (processedTokens pass) tokens))
  /\ (processedTokens pass < length tokens ->
      (Z.of_nat (length (diagnostics pass)) >= maxDiagnostics (settings this))%Z
      \/ (Z.of_nat (processedTokens pass)
          >= maxDiagnostics (settings this) * 20)%Z)
  /\ ((Z.of_nat (length tokens) < maxDiagnostics (settings this) * 20)%Z ->
      (Z.of_nat (length (filter (flagged this d) tokens))
       < maxDiagnostics (settings this))%Z ->
      diagnostics pass
      = map (diagnosticOf this document) (filter (flagged this d) tokens)).
Proof.
  intros Hu H. cbv zeta.
  assert (Hd : Forall (fun mt => test digitRegex (normalize (matched mt)) = false)
                      (tokensOf pf this document)).
  { eapply Forall_impl; [|apply tokens_word_chars]. intros mt Hw.
    apply test_digit_false, normalized_no_digit, Hw. }
  destruct (checkLoop_prefix this document d Hu _ [] 0 pass Hd H)
    as (k & K1 & K2 & K3 & K4).
  cbn [length app Nat.add] in K2, K3. rewrite K2.
  split; [exact K1|]. split; [exact K3|]. split.
  - intros L. rewrite <- K2. apply K4, L.
  - intros Lt Lf.
    destruct (Nat.eq_dec k (length (tokensOf pf this document))) as [->|Hne].
    + rewrite K3, firstn_all. reflexivity.
    + exfalso. destruct K4 as [C|C]; [lia| |].
      * rewrite K3, length_map in C.
        pose proof (length_filter_firstn (flagged this d) k
                      (tokensOf pf this document)). lia.
      * lia.
Qed.

Lemma pass_emits_the_flagged_tokens_witness :
  diagnostics (Examples.passOf (Examples.activated DEFAULT_SETTINGS None)
                               Examples.twoTypos)
  = map (diagnosticOf (Examples.activated DEFAULT_SETTINGS None)
                      Examples.twoTypos)
        (filter (flagged (Examples.activated DEFAULT_SETTINGS None)
                         Examples.dictionary)
                (tokensOf Examples.platform
                          (Examples.activated DEFAULT_SETTINGS None)
                          Examples.twoTypos)).
Proof.
  apply (pass_emits_the_flagged_tokens Examples.platform
           (Examples.activated DEFAULT_SETTINGS None) Examples.twoTypos
           Examples.dictionary).
  - split; reflexivity.
  - vm_compute. reflexivity.
  - vm_compute. reflexivity.
  - vm_compute. reflexivity.
Defined.

(** In a document without a CR LF line end, no diagnostic lies on text
    that the sanitizer blanked: the range of every diagnostic lies inside
    the document, none of its offsets is inside a span that a pattern of
    the chain matched in the text of the document, and the sanitized text
    holds under the range what the document holds. *)
Theorem diagnostics_avoid_removed_spans pf this document pass :
  hasCRLF (getText document) = false ->
  runPass pf this document = Ok pass ->
  Forall (fun d =>
            rangeStart (range d) <= rangeEnd (range d)
            /\ rangeEnd (range d) <= length (getText document)
            /\ forall i,
                 rangeStart (range d) <= i < rangeEnd (range d) ->
                 covered
                   (trace (getText document)
                      (patternsOf
                         (mkSanitizeOptions None
                            (Some (getUserRegexps pf this))))) i
                 = false
                 /\ nth_error (sanitizedText pf this document) i
                    = nth_error (getText document) i)
         (diagnostics pass).
Proof.
  intros Hcr H. apply checkLoop_origin in H.
  eapply Forall_impl; [|exact H]. intros d (mt & Hin & -> & _).
  unfold tokensOf, sanitizedText in *.
  rewrite (ProviderFacts.normalizedText_id document Hcr) in *.
  set (options := mkSanitizeOptions None (Some (getUserRegexps pf this))) in *.
  set (text := getText document) in *.
  destruct (spans_ok_In _ _ _ _ (matches_ok wordRegex (sanitizeText text options))
              Hin) as (_ & Hle & Hs).
  pose proof Hle as Hle'. rewrite length_sanitizeText in Hle'.
  unfold diagnosticOf. cbn [range rangeStart rangeEnd].
  rewrite !(ProviderFacts.positionAt_inside document _ Hcr)
    by (fold text; lia).
  split; [lia|]. split; [exact Hle'|]. intros i Hi.
  pose proof (tokens_word_chars (sanitizeText text options)) as HW.
  rewrite Forall_forall in HW. specialize (HW mt Hin).
  rewrite Forall_forall in HW.
  assert (E : nth_error (sanitizeText text options) i
              = nth_error (matched mt) (i - index mt)).
  { rewrite Hs at 1. unfold substring.
    rewrite nth_error_firstn, nth_error_skipn.
    replace (index mt + (i - index mt)) with i by lia.
    destruct (Nat.ltb_spec (i - index mt)
                (index mt + length (matched mt) - index mt));
      [reflexivity|lia]. }
  destruct (nth_error (matched mt) (i - index mt)) as [x|] eqn:Ex;
    [|apply nth_error_None in Ex; lia].
  assert (Wx : isWordChar x = true) by (apply HW; eapply nth_error_In, Ex).
  split.
  - rewrite nth_error_sanitizeText in E.
    destruct (covered _ i); [|reflexivity].
    destruct (nth_error text i); [|discriminate].
    cbn [option_map] in E. inversion E; subst. discriminate.
  - rewrite E. symmetry.
    exact (ProviderFacts.sanitized_word_char text options i x E Wx).
Qed.

Lemma diagnostics_avoid_removed_spans_witness :
  Forall (fun d =>
            rangeStart (range d) <= rangeEnd (range d)
            /\ rangeEnd (range d) <= length (getText Examples.twoTypos)
            /\ forall i,
                 rangeStart (range d) <= i < rangeEnd (range d) ->
                 covered
                   (trace (getText Examples.twoTypos)
                      (patternsOf
                         (mkSanitizeOptions None
                            (Some (getUserRegexps Examples.platform
                                     (Examples.activated DEFAULT_SETTINGS
                                                         None)))))) i
                 = false
                 /\ nth_error
                      (sanitizedText Examples.platform
                         (Examples.activated DEFAULT_SETTINGS None)
                         Examples.twoTypos) i
                    = nth_error (getText Examples.twoTypos) i)
         (diagnostics
            (Examples.passOf (Examples.activated DEFAULT_SETTINGS None)
                             Examples.twoTypos)).
Proof.
  apply (diagnostics_avoid_removed_spans Examples.platform
           (Examples.activated DEFAULT_SETTINGS None) Examples.twoTypos).
  - vm_compute. reflexivity.
  - vm_compute. reflexivity.
Defined.

(** With CR LF line ends the offsets of a token are those of the text
    with LF line ends, while the range is taken in the text of the
    document: the range of the diagnostic of [helo] lies on the
    inline-code span that the sanitizer blanked. *)
Lemma crlf_range_on_removed_span :
  map (fun d => (code d, rangeStart (range d), rangeEnd (range d),
                 getTextIn Samples.windowsLines (range d)))
      (diagnostics
         (Examples.passOf (Examples.activated DEFAULT_SETTINGS None)
                          Samples.windowsLines))
  = [(Some (u16 "helo"), 11, 15, u16 "yz` ")]
  /\ substring (getText Samples.windowsLines) 8 14 = u16 "`wxyz`".
Proof. vm_compute. split; reflexivity. Qed.

End CheckFacts.

(* ================================================================== *)
(** * Further properties of the service and of the code actions *)
(* ================================================================== *)

Module ActionFacts.
Import Js Provider Pass ServiceFacts.

Lemma loads_stay_ready fs : forall attempts s,
  SpellService.isReady s = true ->
  SpellService.isReady (fst (loads fs attempts s)) = true.
Proof.
  induction attempts as [|[language root] rest IH]; intros s Hs;
    cbn [loads]; [exact Hs|].
  destruct (load_result fs language root s) as [[e E]|[d E]]; rewrite E;
    cbn [fst]; apply IH; [exact Hs|reflexivity].
Qed.

Lemma loads_consistent fs : forall attempts s,
  consistent s = true -> consistent (fst (loads fs attempts s)) = true.
Proof.
  induction attempts as [|[language root] rest IH]; intros s Hs;
    cbn [loads]; [exact Hs|].
  pose proof (load_consistent fs language root s Hs) as Hc.
  destruct (SpellService.load fs language root s) as [[u|e] s'];
    cbn [fst snd] in *; apply IH, Hc.
Qed.

Lemma loads_ready fs : forall attempts s,
  snd (loads fs attempts s) = true ->
  SpellService.isReady (fst (loads fs attempts s)) = true.
Proof.
  induction attempts as [|[language root] rest IH]; intros s H;
    cbn [loads] in *; [discriminate|].
  destruct (load_result fs language root s) as [[e E]|[d E]];
    rewrite E in *; cbn [fst snd] in *.
  - apply IH, H.
  - apply loads_stay_ready. reflexivity.
Qed.

(** Once a load has succeeded on a new service, whatever loads failed or
    succeeded before and after it, [check] answers with a boolean for
    every word and [isReady] holds. *)
Theorem check_after_a_load_answers fs attempts (word : str) :
  snd (loads fs attempts SpellService.new) = true ->
  SpellService.isReady (fst (loads fs attempts SpellService.new)) = true
  /\ exists b,
       SpellService.check (fst (loads fs attempts SpellService.new)) word
       = Ok b.
Proof.
  intros H. pose proof (loads_ready fs attempts _ H) as Hr.
  split; [exact Hr|]. apply check_ready; [exact Hr|].
  apply loads_consistent. reflexivity.
Qed.

Lemma check_after_a_load_answers_witness :
  SpellService.isReady
    (fst (loads Examples.enUsOnly
            [(SpellService.fr, Examples.root);
             (SpellService.en_US, Examples.root);
             (SpellService.sv_SE, Examples.root)] SpellService.new)) = true
  /\ exists b,
       SpellService.check
         (fst (loads Examples.enUsOnly
                 [(SpellService.fr, Examples.root);
                  (SpellService.en_US, Examples.root);
                  (SpellService.sv_SE, Examples.root)] SpellService.new))
         (u16 "helo") = Ok b.
Proof.
  apply (check_after_a_load_answers Examples.enUsOnly
           [(SpellService.fr, Examples.root);
            (SpellService.en_US, Examples.root);
            (SpellService.sv_SE, Examples.root)] (u16 "helo")).
  vm_compute. reflexivity.
Defined.

(** What one [load] does, whatever the service was: it fails and leaves
    the service, or both files of the language are read and parsed and
    the service is left with the parsed dictionary and the language. *)
Lemma load_cases fs language root :
  (exists e, forall s, SpellService.load fs language root s = (Throw e, s))
  \/ exists a c d,
       SpellService.readFile fs
         (SpellService.pathJoin fs
            (SpellService.pathJoin fs root (u16 "languages"))
            (SpellService.codeName language ++ u16 ".aff")) = Ok a
       /\ SpellService.readFile fs
            (SpellService.pathJoin fs
               (SpellService.pathJoin fs root (u16 "languages"))
               (SpellService.codeName language ++ u16 ".dic")) = Ok c
       /\ SpellService.parse fs a c = Ok d
       /\ forall s,
            SpellService.load fs language root s
            = (Ok tt, SpellService.mk (Some d) (Some language)).
Proof.
  unfold SpellService.load.
  destruct (SpellService.readFile fs _) as [a|e1]; cbn [bind];
    [|left; exists e1; reflexivity].
  destruct (SpellService.readFile fs _) as [c|e2]; cbn [bind];
    [|left; exists e2; reflexivity].
  destruct (SpellService.parse fs a c) as [d|e3] eqn:Ep;
    [|left; exists e3; reflexivity].
  right. exists a, c, d. repeat split. exact Ep.
Qed.

Lemma loads_last fs : forall attempts s,
  (snd (loads fs attempts s) = false
   /\ fst (loads fs attempts s) = s
   /\ Forall (fun attempt =>
                forall s', exists e,
                  SpellService.load fs (fst attempt) (snd attempt) s'
                  = (Throw e, s')) attempts)
  \/ (snd (loads fs attempts s) = true
      /\ exists before language root after a c d,
           attempts = before ++ (language, root) :: after
           /\ Forall (fun attempt =>
                        forall s', exists e,
                          SpellService.load fs (fst attempt) (snd attempt) s'
                          = (Throw e, s')) after
           /\ SpellService.readFile fs
                (SpellService.pathJoin fs
                   (SpellService.pathJoin fs root (u16 "languages"))
                   (SpellService.codeName language ++ u16 ".aff")) = Ok a
           /\ SpellService.readFile fs
                (SpellService.pathJoin fs
                   (SpellService.pathJoin fs root (u16 "languages"))
                   (SpellService.codeName language ++ u16 ".dic")) = Ok c
           /\ SpellService.parse fs a c = Ok d
           /\ fst (loads fs attempts s)
              = SpellService.mk (Some d) (Some language)).
Proof.
  induction attempts as [|[language root] rest IH]; intros s; cbn [loads].
  - left. repeat split. constructor.
  - destruct (load_cases fs language root)
      as [[e E]|(a & c & d & Ha & Hc & Hd & E)]; rewrite E.
    + destruct (IH s)
        as [(A1 & A2 & A3)
           |(A1 & before & l & r & after & a & c & d & B1 & B2 & B3 & B4
                & B5 & B6)].
      * left. split; [exact A1|]. split; [exact A2|].
        constructor; [|exact A3]. intros s'. exists e. apply E.
      * right. split; [exact A1|].
        exists ((language, root) :: before), l, r, after, a, c, d.
        split; [now rewrite B1|]. repeat split; assumption.
    + cbn [fst snd]. right. split; [reflexivity|].
      destruct (IH (SpellService.mk (Some d) (Some language)))
        as [(A1 & A2 & A3)
           |(A1 & before & l & r & after & a' & c' & d' & B1 & B2 & B3 & B4
                & B5 & B6)].
      * exists [], language, root, rest, a, c, d.
        repeat split; assumption.
      * exists ((language, root) :: before), l, r, after, a', c', d'.
        split; [now rewrite B1|]. repeat split; assumption.
Qed.

(** After any sequence of loads on a new service of which one succeeded,
    the service uses the dictionary of the last load that succeeded,
    parsed from the affix file and the word list of its language in the
    folder [languages] of its root, and reports that language; the loads
    that failed after it have changed nothing. *)
Theorem service_uses_the_last_loaded_dictionary fs attempts :
  snd (loads fs attempts SpellService.new) = true ->
  exists before language root after a c d,
    attempts = before ++ (language, root) :: after
    /\ Forall (fun attempt =>
                 forall s, exists e,
                   SpellService.load fs (fst attempt) (snd attempt) s
                   = (Throw e, s)) after
    /\ SpellService.readFile fs
         (SpellService.pathJoin fs
            (SpellService.pathJoin fs root (u16 "languages"))
            (SpellService.codeName language ++ u16 ".aff")) = Ok a
    /\ SpellService.readFile fs
         (SpellService.pathJoin fs
            (SpellService.pathJoin fs root (u16 "languages"))
            (SpellService.codeName language ++ u16 ".dic")) = Ok c
    /\ SpellService.parse fs a c = Ok d
    /\ fst (loads fs attempts SpellService.new)
       = SpellService.mk (Some d) (Some language).
Proof.
  intros H.
  destruct (loads_last fs attempts SpellService.new) as [(A & _)|(_ & B)];
    [congruence|exact B].
Qed.

Lemma service_uses_the_last_loaded_dictionary_witness :
  exists language d,
    fst (loads Examples.enUsOnly
           [(SpellService.fr, Examples.root);
            (SpellService.en_US, Examples.root);
            (SpellService.sv_SE, Examples.root)] SpellService.new)
    = SpellService.mk (Some d) (Some language).
Proof.
  destruct (service_uses_the_last_loaded_dictionary Examples.enUsOnly
              [(SpellService.fr, Examples.root);
               (SpellService.en_US, Examples.root);
               (SpellService.sv_SE, Examples.root)])
    as (_ & language & _ & _ & _ & _ & d & _ & _ & _ & _ & _ & E).
  - vm_compute. reflexivity.
  - exists language, d. exact E.
Defined.




(** A negative limit counts from the end of the list. *)
Lemma suggest_negative_limit :
  SpellService.suggest
    (SpellService.mk (Some Examples.dictionary) (Some SpellService.en_US))
    (u16 "helo") (-1)
  = Ok [u16 "hello"; u16 "help"].
Proof. reflexivity. Qed.

(* ------------------------------------------------------------------ *)
(** ** Code actions *)

Lemma replaceActions_later document diagnostic : forall (l : list str) k,
  map isPreferred
      (map (fun si : nat * str =>
              mkCodeAction (u16 "Replace with '" ++ snd si ++ u16 "'")
                (FixSuggestion (uri document) (range diagnostic) (snd si))
                [diagnostic] (fst si =? 0))
           (combine (seq (S k) (length l)) l))
  = map (fun _ => false) l.
Proof.
  induction l as [|x l IH]; intros k; cbn [length seq combine map];
    [reflexivity|].
  rewrite IH. reflexivity.
Qed.

Lemma replaceActions_commands document diagnostic : forall (l : list str) k,
  map command
      (map (fun si : nat * str =>
              mkCodeAction (u16 "Replace with '" ++ snd si ++ u16 "'")
                (FixSuggestion (uri document) (range diagnostic) (snd si))
                [diagnostic] (fst si =? 0))
           (combine (seq k (length l)) l))
  = map (FixSuggestion (uri document) (range diagnostic)) l.
Proof.
  induction l as [|x l IH]; intros k; cbn [length seq combine map];
    [reflexivity|].
  rewrite IH. reflexivity.
Qed.

(** [provideCodeActions] returns nothing exactly when no diagnostic of the
    context carries a word.  Otherwise it answers for the first one that
    does: one replacement per suggestion, in the order of the suggestions
    and with the range of the diagnostic, then the action that ignores the
    word in the workspace and the one that ignores it globally; only the
    first replacement is preferred. *)
Theorem provideCodeActions_spec this document contextDiagnostics :
  (provideCodeActions this document contextDiagnostics = None <->
   Forall (fun d => code d = None) contextDiagnostics)
  /\ forall actions,
       provideCodeActions this document contextDiagnostics = Some actions ->
       exists before diagnostic after word,
         contextDiagnostics = before ++ diagnostic :: after
         /\ Forall (fun d => code d = None) before
         /\ code diagnostic = Some word
         /\ map command actions
            = map (FixSuggestion (uri document) (range diagnostic))
                  (safeSuggest this word)
              ++ [IgnoreWord (uri document) word TargetWorkspace;
                  AlwaysIgnoreWord (uri document) word]
         /\ map isPreferred actions
            = match safeSuggest this word with
              | [] => []
              | _ :: rest => true :: map (fun _ => false) rest
              end ++ [false; false]
         /\ Forall (fun a => actionDiagnostics a = [diagnostic]) actions.
Proof.
  unfold provideCodeActions.
  induction contextDiagnostics as [|d ds IH]; cbn [find].
  - split; [split; auto|]. intros actions H. discriminate.
  - destruct (code d) as [word|] eqn:Ed; cbv beta iota.
    + rewrite Ed. split.
      * split; [discriminate|]. intros F. inversion F; congruence.
      * intros actions H. inversion H; subst. clear H.
        exists [], d, ds, word. cbn [app].
        split; [reflexivity|]. split; [constructor|]. split; [exact Ed|].
        unfold replaceActions. rewrite !map_app. cbn [map command isPreferred].
        split; [|split].
        -- rewrite replaceActions_commands. reflexivity.
        -- f_equal. destruct (safeSuggest this word) as [|x l];
             [reflexivity|]. cbn [length seq combine map isPreferred fst].
           rewrite replaceActions_later. reflexivity.
        -- apply Forall_app. split; [|repeat constructor].
           apply Forall_forall. intros a Ha. apply in_map_iff in Ha.
           destruct Ha as (si & <- & _). reflexivity.
    + destruct IH as [IH1 IH2]. split.
      * rewrite IH1. split; [intros F; constructor; assumption|].
        intros F. inversion F; assumption.
      * intros actions H. destruct (IH2 actions H)
          as (before & diagnostic & after & word & E & F & R).
        exists (d :: before), diagnostic, after, word. rewrite E.
        split; [reflexivity|]. split; [constructor; assumption|exact R].
Qed.

Lemma provideCodeActions_spec_witness :
  exists before diagnostic after word,
    diagnostics (Examples.passOf (Examples.activated DEFAULT_SETTINGS None)
                                 Examples.twoTypos)
    = before ++ diagnostic :: after
    /\ code diagnostic = Some word
    /\ map isPreferred Samples.twoTyposActions
       = match safeSuggest (Examples.activated DEFAULT_SETTINGS None) word with
         | [] => []
         | _ :: rest => true :: map (fun _ => false) rest
         end ++ [false; false].
Proof.
  destruct (proj2 (provideCodeActions_spec
                     (Examples.activated DEFAULT_SETTINGS None)
                     Examples.twoTypos
                     (diagnostics
                        (Examples.passOf
                           (Examples.activated DEFAULT_SETTINGS None)
                           Examples.twoTypos)))
                  Samples.twoTyposActions)
    as (before & diagnostic & after & word & A & _ & C & _ & E & _).
  - vm_compute. reflexivity.
  - exists before, diagnostic, after, word. auto.
Defined.

End ActionFacts.

(* ================================================================== *)
(** * Properties of the commands, the scheduler and the life cycle *)
(* ================================================================== *)

Module SessionFacts.
Import Js TextProcessing Provider Pass Settings Session Notions.
Import ServiceFacts PassFacts SettingsFacts.

Ltac same := unfold sameControls in *; cbn in *; intuition congruence.

Lemma sameControls_refl this : sameControls this this.
Proof. same. Qed.

Lemma sameControls_trans a b c :
  sameControls a b -> sameControls b c -> sameControls a c.
Proof. same. Qed.

Lemma iter_show_frame msg : forall n this,
  sameControls this (Nat.iter n (show msg) this)
  /\ diagnosticCollection (Nat.iter n (show msg) this)
     = diagnosticCollection this
  /\ diagnosticMap (Nat.iter n (show msg) this) = diagnosticMap this
  /\ lastcheck (Nat.iter n (show msg) this) = lastcheck this.
Proof.
  induction n as [|n IH]; intros this; cbn [Nat.iter].
  - repeat split.
  - destruct (IH this) as (A & B & C & D).
    unfold show, withHost. cbn. repeat split; try assumption; apply A.
Qed.

Lemma publish_frame now document pass this :
  sameControls this (publish now document pass this)
  /\ diagnosticCollection (publish now document pass this)
     = mapSet (uri document) (diagnostics pass) (diagnosticCollection this)
  /\ diagnosticMap (publish now document pass this)
     = mapSet (uri document) (diagnostics pass) (diagnosticMap this)
  /\ lastcheck (publish now document pass this) = now.
Proof.
  unfold publish.
  destruct (iter_show_frame (overflowMessage this) (overflow pass) this)
    as (A & B & C & _).
  cbn. rewrite B, C. repeat split; apply A.
Qed.

(** What [doSpellCheck] does: nothing, or the pass over the document it
    settles on, published. *)
Lemma doSpellCheck_cases pf now textDocument this :
  doSpellCheck pf now textDocument this = Ok this
  \/ (exists e, doSpellCheck pf now textDocument this = Throw e)
  \/ exists document pass,
       firstSome textDocument
         (firstSome (activeTextEditor (host this)) (timerTextDocument this))
       = Some document
       /\ fileName document <> []
       /\ shouldCheck pf this document = true
       /\ runPass pf this document = Ok pass
       /\ doSpellCheck pf now textDocument this
          = Ok (publish now document pass this).
Proof.
  unfold doSpellCheck.
  destruct (firstSome textDocument _) as [document|]; [|left; reflexivity].
  destruct (fileName document) eqn:Ef; [left; reflexivity|].
  destruct (shouldCheck pf this document) eqn:Es; [|left; reflexivity].
  cbn [negb]. destruct (runPass pf this document) as [pass|e] eqn:Ep.
  - right. right. exists document, pass. rewrite Ef. cbn [bind].
    repeat split; try assumption; try reflexivity. discriminate.
  - right. left. exists e. reflexivity.
Qed.

Lemma doSpellCheck_ok pf now textDocument this :
  consistent (spellService this) = true ->
  exists this', doSpellCheck pf now textDocument this = Ok this'.
Proof.
  intros Hc.
  destruct (doSpellCheck_cases pf now textDocument this)
    as [E|[[e E]|(document & pass & _ & _ & _ & _ & E)]]; eauto.
  exfalso. unfold doSpellCheck in E.
  destruct (firstSome textDocument _) as [document|]; [|discriminate].
  destruct (fileName document); [discriminate|].
  destruct (shouldCheck pf this document) eqn:Es; [|discriminate].
  destruct (ProviderFacts.runPass_total pf this document Es Hc) as [pass Hp].
  cbn [negb] in E. rewrite Hp in E. discriminate.
Qed.

Lemma settle_frame pf now textDocument this :
  let this' := settle this (doSpellCheck pf now textDocument this) in
  sameControls this this'
  /\ (diagnosticCollection this = diagnosticMap this ->
      diagnosticCollection this' = diagnosticMap this').
Proof.
  cbv zeta.
  destruct (doSpellCheck_cases pf now textDocument this)
    as [E|[[e E]|(document & pass & _ & _ & _ & _ & E)]]; rewrite E;
    cbn [settle]; try (split; [apply sameControls_refl|auto]).
  destruct (publish_frame now document pass this) as (A & B & C & _).
  split; [exact A|]. intros H. now rewrite B, C, H.
Qed.

Lemma timersOk_same this this' :
  sameControls this this' -> timersOk this -> timersOk this'.
Proof.
  intros S [H|(tm & T & P)]; [left|right; exists tm]; same.
Qed.

Lemma clear_pending tm this :
  timersOk this -> timer this = Some tm ->
  pending (host (clearTimeout tm this)) = [].
Proof.
  intros [H|(tm' & T & P)] Ht; unfold clearTimeout, withHost; cbn.
  - now rewrite H.
  - rewrite P. assert (tm' = tm) by congruence. subst. cbn.
    now rewrite Nat.eqb_refl.
Qed.

Lemma calm_settle pf now textDocument this :
  calm this -> calm (settle this (doSpellCheck pf now textDocument this)).
Proof.
  intros (D & T & C).
  destruct (settle_frame pf now textDocument this) as [S E].
  split; [auto|]. split; [eapply timersOk_same; eauto|].
  destruct S as (-> & _). exact C.
Qed.

Lemma handle_calm pf now e this :
  calm this ->
  calm (handle pf now e this)
  /\ spellService (handle pf now e this) = spellService this
  /\ settings (handle pf now e this) = settings this
  /\ autoCheckEnabled (handle pf now e this) = autoCheckEnabled this.
Proof.
  intros Hc.
  assert (Hs : forall doc this0,
            calm this0 ->
            spellService this0 = spellService this ->
            settings this0 = settings this ->
            autoCheckEnabled this0 = autoCheckEnabled this ->
            let r := settle this0 (doSpellCheck pf now doc this0) in
            calm r /\ spellService r = spellService this
            /\ settings r = settings this
            /\ autoCheckEnabled r = autoCheckEnabled this).
  { intros doc this0 H0 A B C. cbv zeta.
    split; [apply calm_settle, H0|].
    destruct (settle_frame pf now doc this0) as [S _]. same. }
  destruct e as [d|d|d|tm|]; cbn [handle].
  - unfold maybeAutoCheck.
    destruct (_ || _); [auto|]. destruct (negb _); [auto|].
    apply Hs; auto.
  - unfold maybeAutoCheck.
    destruct (_ || _); [auto|]. destruct (negb _); [auto|].
    apply Hs; auto.
  - unfold onDocumentChanged.
    destruct (negb _); [auto|]. destruct (_ || _); [auto|].
    destruct Hc as (D & T & C).
    destruct (_ >? _)%Z.
    + apply Hs; try (destruct (timer this); reflexivity).
      destruct (timer this) as [tm|] eqn:Et.
      * split; [exact D|]. split; [|exact C].
        left. exact (clear_pending tm this T Et).
      * split; [exact D|]. split; [|exact C].
        destruct T as [P|(tm & T' & _)]; [left; exact P|congruence].
    + assert (P : pending (host match timer this with
                               | Some tm => clearTimeout tm this
                               | None => this
                               end) = []).
      { destruct (timer this) as [tm|] eqn:Et.
        - exact (clear_pending tm this T Et).
        - destruct T as [P|(tm & T' & _)]; [exact P|congruence]. }
      unfold setTimeout, withTimer, withHost, withTimerTextDocument.
      cbn. rewrite P.
      split; [|destruct (timer this); auto].
      split; [destruct (timer this); exact D|].
      split; [|destruct (timer this); exact C].
      right. eexists. split; reflexivity.
  - destruct (existsb _ _) eqn:Ex; [|auto].
    unfold timerFired. apply Hs; try reflexivity.
    destruct Hc as (D & T & C). split; [exact D|]. split; [|exact C].
    left. unfold clearTimeout, withHost. cbn.
    destruct T as [P|(tm' & _ & P)]; rewrite P in *; [reflexivity|].
    cbn in *. rewrite orb_false_r in Ex.
    apply Nat.eqb_eq in Ex. rewrite Ex, Nat.eqb_refl. reflexivity.
  - unfold checkDocumentCommand. apply Hs; auto.
Qed.

Lemma render_same this this' :
  spellService this' = spellService this ->
  settings this' = settings this ->
  autoCheckEnabled this' = autoCheckEnabled this ->
  render this' = render this.
Proof. intros A B C. unfold render. now rewrite A, B, C. Qed.

Lemma loadDictionary_frame pf language this :
  let this' := loadDictionary pf language this in
  settings this' = settings this
  /\ autoCheckEnabled this' = autoCheckEnabled this
  /\ diagnosticCollection this' = diagnosticCollection this
  /\ diagnosticMap this' = diagnosticMap this
  /\ timer this' = timer this
  /\ pending (host this') = pending (host this)
  /\ activeTextEditor (host this') = activeTextEditor (host this)
  /\ lastcheck this' = lastcheck this
  /\ spellService this'
     = snd (SpellService.load (files pf) language (extensionRoot this)
                              (spellService this)).
Proof.
  cbv zeta. unfold loadDictionary.
  destruct (SpellService.load _ _ _ _) as [[u|e] sv]; cbn; repeat split.
Qed.

Lemma calm_loadDictionary pf language this :
  calm this -> calm (loadDictionary pf language this).
Proof.
  intros (D & T & C).
  destruct (loadDictionary_frame pf language this)
    as (_ & _ & E1 & E2 & E3 & E4 & _ & _ & E5).
  split; [congruence|]. split.
  - destruct T as [P|(tm & T' & P)];
      [left; congruence|right; exists tm; split; congruence].
  - rewrite E5. apply load_consistent, C.
Qed.

Lemma calm_fields this this' :
  calm this ->
  diagnosticCollection this' = diagnosticCollection this ->
  diagnosticMap this' = diagnosticMap this ->
  timer this' = timer this ->
  pending (host this') = pending (host this) ->
  spellService this' = spellService this ->
  calm this'.
Proof.
  intros (D & T & C) E1 E2 E3 E4 E5. split; [congruence|]. split.
  - destruct T as [P|(tm & T' & P)];
      [left; congruence|right; exists tm; split; congruence].
  - congruence.
Qed.

Lemma updateStatusBar_steady s :
  calm (provider s) -> statusBarItem s <> None -> steady (updateStatusBar s).
Proof.
  intros C H. unfold updateStatusBar.
  destruct (statusBarItem s); [|congruence]. split; [exact C|reflexivity].
Qed.

Lemma steady_withProvider this s :
  steady s -> calm this -> render this = render (provider s) ->
  steady (withProvider this s).
Proof.
  intros [_ B] C R. split; [exact C|]. cbn. now rewrite R.
Qed.

Lemma steady_settle pf now doc s :
  steady s ->
  steady (withProvider
            (settle (provider s) (doSpellCheck pf now doc (provider s))) s).
Proof.
  intros H. apply steady_withProvider; [exact H|apply calm_settle, H|].
  destruct (settle_frame pf now doc (provider s)) as [S _].
  apply render_same; apply S.
Qed.

Lemma addWord_steady word target s :
  steady s -> steady (snd (addWordToIgnoreList word target s)).
Proof.
  intros [C B]. unfold addWordToIgnoreList.
  destruct (includes _ _); cbn [snd]; [split; assumption|].
  destruct target; (split; [eapply calm_fields; [exact C|..]; reflexivity|]);
    cbn; rewrite B; reflexivity.
Qed.

Lemma step_steady pf a s : steady s -> steady (step pf a s).
Proof.
  intros H. destruct a as [now e|now u w target|now u w|now|now l|config legacy|d];
    cbn [step].
  - destruct (handle_calm pf now e (provider s) (proj1 H)) as (C & A1 & A2 & A3).
    apply steady_withProvider; [exact H|exact C|apply render_same; assumption].
  - unfold ignoreCodeAction.
    pose proof (addWord_steady w target s H) as H1.
    destruct (addWordToIgnoreList w target s) as [[|] s1]; cbn [snd] in H1.
    + destruct (findDocument u s1); [apply steady_settle, H1|exact H1].
    + destruct H1 as [C B]. split; assumption.
  - unfold alwaysIgnoreCodeAction, ignoreCodeAction.
    pose proof (addWord_steady w TargetGlobal s H) as H1.
    destruct (addWordToIgnoreList w TargetGlobal s) as [[|] s1];
      cbn [snd] in H1.
    + destruct (findDocument u s1); [apply steady_settle, H1|exact H1].
    + destruct H1 as [C B]. split; assumption.
  - unfold toggleAutoCheck.
    set (s1 := updateStatusBar
                 (withProvider
                    (withAutoCheckEnabled (negb (autoCheckEnabled (provider s)))
                                          (provider s)) s)).
    assert (H1 : steady s1).
    { apply updateStatusBar_steady.
      - eapply calm_fields; [exact (proj1 H)|..]; reflexivity.
      - cbn. destruct H as [_ B]. rewrite B. discriminate. }
    set (s2 := say _ s1).
    assert (H2 : steady s2) by (destruct H1 as [C B]; split; assumption).
    destruct (autoCheckEnabled (provider s2)); [|exact H2].
    destruct (activeTextEditor _); [apply steady_settle, H2|exact H2].
  - unfold setLanguage.
    set (this1 := loadDictionary pf l (provider s)).
    set (this2 := withSettings (withLanguage l (settings this1)) this1).
    assert (C2 : calm this2).
    { eapply calm_fields; [exact (calm_loadDictionary pf l _ (proj1 H))|..];
        reflexivity. }
    destruct (doSpellCheck_ok pf now (activeTextEditor (host this2)) this2
                (proj2 (proj2 C2))) as [this3 E].
    rewrite E. apply updateStatusBar_steady.
    + cbn. replace this3
        with (settle this2
                (doSpellCheck pf now (activeTextEditor (host this2)) this2))
        by (rewrite E; reflexivity).
      apply calm_settle, C2.
    + cbn. destruct H as [_ B]. rewrite B. discriminate.
  - unfold settingsChanged. apply updateStatusBar_steady.
    + cbn. apply calm_loadDictionary.
      eapply calm_fields; [exact (proj1 H)|..]; reflexivity.
    + cbn. destruct H as [_ B]. rewrite B. discriminate.
  - unfold closeDocument. apply steady_withProvider; [exact H| |reflexivity].
    destruct H as [(D & T & C) _]. split; [cbn; now rewrite D|].
    split; [|exact C].
    destruct T as [P|(tm & T' & P)]; [left|right; exists tm]; cbn; auto.
Qed.

Lemma run_steady pf : forall actions s, steady s -> steady (run pf actions s).
Proof.
  unfold run. induction actions as [|a l IH]; intros s H; cbn [fold_left];
    [exact H|]. apply IH, step_steady, H.
Qed.

Lemma session_steady pf extensionPath config legacy documents active actions :
  steady (session pf extensionPath config legacy documents active actions).
Proof.
  unfold session. apply run_steady. unfold activate. split; [|reflexivity].
  cbn [provider]. apply calm_loadDictionary.
  split; [reflexivity|]. split; [left; reflexivity|reflexivity].
Qed.

(** At every moment of a session at most one timeout is pending, and it is
    the one whose handle the provider holds. *)
Theorem one_pending_timeout
  pf extensionPath config legacy documents active actions :
  let this :=
    provider (session pf extensionPath config legacy documents active actions)
  in
  length (pending (host this)) <= 1
  /\ forall tm, In tm (pending (host this)) -> timer this = Some tm.
Proof.
  cbv zeta.
  destruct (session_steady pf extensionPath config legacy documents active
              actions) as [(_ & T & _) _].
  destruct T as [P|(tm & T & P)]; rewrite P; cbn; split; auto.
  - intros tm [].
  - intros tm' [<-|[]]. exact T.
Qed.

(** At every moment of a session the status bar item shows whether
    automatic checks are on and the language of the loaded dictionary
    (of the settings when no dictionary is loaded), and the collection of
    diagnostics shown by the editor is the one the provider keeps in its
    map. *)
Theorem status_bar_is_up_to_date
  pf extensionPath config legacy documents active actions :
  let s := session pf extensionPath config legacy documents active actions in
  statusBarItem s
  = Some (mkStatusBarItem
            (if autoCheckEnabled (provider s) then Checklist else CircleSlash)
            match SpellService.loadedLanguage (spellService (provider s)) with
            | Some l => l
            | None => language (settings (provider s))
            end
            (autoCheckEnabled (provider s)))
  /\ diagnosticCollection (provider s) = diagnosticMap (provider s).
Proof.
  cbv zeta.
  destruct (session_steady pf extensionPath config legacy documents active
              actions) as [(D & _) B].
  split; [exact B|exact D].
Qed.

(* ------------------------------------------------------------------ *)
(** ** The ignore commands *)

Lemma In_snoc {A} (l : list A) (a x : A) : In x (l ++ [a]) <-> In x l \/ x = a.
Proof. rewrite in_app_iff. cbn. intuition. Qed.

Lemma In_unique_snoc (l : list str) (a x : str) :
  In x (getUniqueArray (l ++ [a])) <-> In x l \/ x = a.
Proof.
  destruct (getUniqueArray_members (l ++ [a])) as (_ & I & _).
  rewrite I. apply In_snoc.
Qed.

Lemma addWordToIgnoreList_adds word target s :
  includes (ignoreWordsList (settings (provider s))) word = false ->
  fst (addWordToIgnoreList word target s) = true
  /\ forall w,
       In w (ignoreWordsList
               (settings (provider (snd (addWordToIgnoreList word target s)))))
       <-> In w (ignoreWordsList (settings (provider s))) \/ w = word.
Proof.
  intros E. unfold addWordToIgnoreList. rewrite E. cbn [fst snd].
  split; [reflexivity|].
  intros w. destruct target; cbn; apply In_unique_snoc.
Qed.

(** [addWordToIgnoreList] refuses a word that is already ignored and then
    changes nothing.  Otherwise it returns [true]: the word is then
    ignored, last of the list when the list had no duplicates; the
    configuration of the target holds the words it held and the word,
    each once.  In both cases, adding the word again is refused. *)
Theorem addWordToIgnoreList_spec word target s :
  let r := addWordToIgnoreList word target s in
  let before := ignoreWordsList (settings (provider s)) in
  let after := ignoreWordsList (settings (provider (snd r))) in
  let held (s : Session.t) :=
    match target with
    | TargetWorkspace => workspaceValue s
    | TargetGlobal => globalValue s
    end in
  fst r = negb (includes before word)
  /\ (fst r = false -> snd r = s)
  /\ (forall w, In w after <-> In w before \/ w = word)
  /\ (fst r = true -> NoDup before -> after = before ++ [word])
  /\ (fst r = true ->
      exists value,
        held (snd r) = Some value
        /\ NoDup value
        /\ forall w, In w value <-> In w (orDefaultList (held s)) \/ w = word)
  /\ fst (addWordToIgnoreList word target (snd r)) = false.
Proof.
  cbv zeta. unfold addWordToIgnoreList.
  destruct (includes (ignoreWordsList (settings (provider s))) word) eqn:E;
    cbn [fst snd negb].
  - rewrite E. cbn [fst]. apply includes_In in E.
    repeat split; try discriminate; auto.
    intros [H| ->]; assumption.
  - apply includes_false in E.
    assert (A : includes
                  (ignoreWordsList
                     (settings
                        (provider
                           (update
                              (getUniqueArray
                                 (match target with
                                  | TargetWorkspace =>
                                      orDefaultList (workspaceValue s)
                                  | TargetGlobal =>
                                      orDefaultList (globalValue s)
                                  end ++ [word])) target
                              (withProvider
                                 (withSettings
                                    (withIgnoreWordsList
                                       (getUniqueArray
                                          (ignoreWordsList
                                             (settings (provider s))
                                           ++ [word]))
                                       (settings (provider s)))
                                    (provider s)) s))))) word = true).
    { apply includes_In. destruct target; cbn; apply In_unique_snoc; auto. }
    rewrite A. cbn [fst].
    split; [reflexivity|]. split; [discriminate|]. split; [|split; [|split]].
    + intros w. destruct target; cbn; apply In_unique_snoc.
    + intros _ ND. destruct target; cbn;
        apply getUniqueArray_members;
        (apply NoDup_app; [exact ND|repeat constructor; intros []|]);
        intros x Hx [<-|[]]; exact (E Hx).
    + intros _. destruct target; cbn; eexists;
        (split; [reflexivity|]); (split; [apply getUniqueArray_members|]);
        intros w; apply In_unique_snoc.
    + reflexivity.
Qed.

Lemma addWordToIgnoreList_spec_witness :
  ignoreWordsList
    (settings (provider (snd (addWordToIgnoreList (u16 "wrold") TargetGlobal
                                                  Samples.started))))
  = [] ++ [u16 "wrold"].
Proof.
  destruct (addWordToIgnoreList_spec (u16 "wrold") TargetGlobal Samples.started)
    as (_ & _ & _ & A & _).
  apply A; [reflexivity|constructor].
Defined.

Lemma shouldCheck_same pf this this' document :
  spellService this' = spellService this ->
  documentTypes (settings this') = documentTypes (settings this) ->
  ignoreFileExtensions (settings this')
  = ignoreFileExtensions (settings this) ->
  ignoreFilenames (settings this') = ignoreFilenames (settings this) ->
  shouldCheck pf this' document = shouldCheck pf this document.
Proof. intros A B C D. unfold shouldCheck. now rewrite A, B, C, D. Qed.

Lemma mapGet_set {V} key (value : V) l : mapGet key (mapSet key value l) = Some value.
Proof.
  unfold mapGet, mapSet. cbn [find fst].
  replace (str_eqb key key) with true; [reflexivity|].
  symmetry. now apply ProviderFacts.str_eqb_eq.
Qed.

Lemma find_filter_other {V} key other (l : list (str * V)) :
  other <> key ->
  find (fun kv => str_eqb (fst kv) other)
       (filter (fun kv => negb (str_eqb (fst kv) key)) l)
  = find (fun kv => str_eqb (fst kv) other) l.
Proof.
  intros H. induction l as [|[k v] l IH]; cbn [filter find fst];
    [reflexivity|].
  destruct (str_eqb k key) eqn:E; cbn [negb find fst].
  - apply ProviderFacts.str_eqb_eq in E. subst k.
    destruct (str_eqb key other) eqn:E'; [|exact IH].
    apply ProviderFacts.str_eqb_eq in E'. congruence.
  - destruct (str_eqb k other); [reflexivity|exact IH].
Qed.

Lemma mapGet_set_other {V} key other (value : V) l :
  other <> key -> mapGet other (mapSet key value l) = mapGet other l.
Proof.
  intros H. unfold mapGet, mapSet. cbn [find fst].
  destruct (str_eqb key other) eqn:E.
  - apply ProviderFacts.str_eqb_eq in E. congruence.
  - now rewrite find_filter_other.
Qed.

Lemma mapGet_delete {V} key (l : list (str * V)) :
  mapGet key (mapDelete key l) = None.
Proof.
  unfold mapGet, mapDelete.
  induction l as [|[k v] l IH]; cbn [filter find fst]; [reflexivity|].
  destruct (str_eqb k key) eqn:E; cbn [negb find fst]; [exact IH|].
  now rewrite E.
Qed.

Lemma mapGet_delete_other {V} key other (l : list (str * V)) :
  other <> key -> mapGet other (mapDelete key l) = mapGet other l.
Proof.
  intros H. unfold mapGet, mapDelete. now rewrite find_filter_other.
Qed.

(** A pass over an eligible document that [doSpellCheck] was called for. *)
Lemma doSpellCheck_publishes pf now document this pass :
  fileName document <> [] ->
  shouldCheck pf this document = true ->
  runPass pf this document = Ok pass ->
  doSpellCheck pf now (Some document) this
  = Ok (publish now document pass this).
Proof.
  intros Hf Hs Hp. unfold doSpellCheck. cbn [firstSome].
  destruct (fileName document); [congruence|].
  rewrite Hs, Hp. reflexivity.
Qed.

(** Ignoring a word that is not yet ignored, from a code action of an open
    document that the provider checks, checks the document again, and
    none of the diagnostics then published for it carries the word.
    Ignoring a word a second time shows a warning and nothing else. *)
Theorem ignoring_a_word_removes_its_diagnostics
  pf now documentUri word target s :
  (includes (ignoreWordsList (settings (provider s))) word = true ->
   ignoreCodeAction pf now documentUri word target s = say AlreadyIgnored s)
  /\ forall document,
       includes (ignoreWordsList (settings (provider s))) word = false ->
       findDocument documentUri s = Some document ->
       fileName document <> [] ->
       shouldCheck pf (provider s) document = true ->
       consistent (spellService (provider s)) = true ->
       let s' := ignoreCodeAction pf now documentUri word target s in
       exists ds,
         mapGet documentUri (diagnosticCollection (provider s')) = Some ds
         /\ mapGet documentUri (diagnosticMap (provider s')) = Some ds
         /\ Forall (fun d => code d <> Some word) ds
         /\ In word (ignoreWordsList (settings (provider s')))
         /\ messages s' = messages s.
Proof.
  split.
  - intros H. unfold ignoreCodeAction, addWordToIgnoreList. now rewrite H.
  - intros document Hi Hd Hf Hs Hc. cbv zeta.
    assert (Hu : uri document = documentUri).
    { unfold findDocument in Hd. apply find_some in Hd. destruct Hd as [_ E].
      now apply ProviderFacts.str_eqb_eq in E. }
    unfold ignoreCodeAction.
    destruct (addWordToIgnoreList_adds word target s Hi) as (R & I).
    destruct (addWordToIgnoreList word target s) as [r s1] eqn:Ea.
    cbn [fst snd] in R, I. subst r.
    assert (Hd1 : findDocument documentUri s1 = Some document).
    { unfold addWordToIgnoreList in Ea. rewrite Hi in Ea.
      inversion Ea; subst s1. destruct target; exact Hd. }
    assert (Hsv : spellService (provider s1) = spellService (provider s)
                  /\ shouldCheck pf (provider s1) document = true).
    { unfold addWordToIgnoreList in Ea. rewrite Hi in Ea.
      inversion Ea; subst s1.
      destruct target; (split; [reflexivity|]); rewrite <- Hs;
        apply shouldCheck_same; reflexivity. }
    destruct Hsv as [Hsv Hs1]. rewrite Hd1.
    assert (Hc1 : consistent (spellService (provider s1)) = true)
      by (rewrite Hsv; exact Hc).
    destruct (ProviderFacts.runPass_total pf (provider s1) document Hs1 Hc1)
      as [pass Hp].
    rewrite (doSpellCheck_publishes pf now document (provider s1) pass Hf Hs1 Hp).
    cbn [settle withProvider provider messages].
    destruct (publish_frame now document pass (provider s1))
      as (S & B & C & _).
    exists (diagnostics pass). rewrite B, C, Hu, !mapGet_set.
    split; [reflexivity|]. split; [reflexivity|]. split; [|split].
    + apply checkLoop_origin in Hp.
      eapply Forall_impl; [|exact Hp]. intros d (mt & _ & -> & Hn & _) E.
      cbn [diagnosticOf code] in E. inversion E as [E'].
      rewrite E' in Hn. apply includes_false in Hn. apply Hn, I. auto.
    + destruct S as (_ & -> & _). apply I. auto.
    + unfold addWordToIgnoreList in Ea. rewrite Hi in Ea.
      inversion Ea; subst s1. destruct target; reflexivity.
Qed.

Lemma ignoring_a_word_removes_its_diagnostics_witness :
  exists ds,
    mapGet (uri Examples.twoTypos)
      (diagnosticCollection
         (provider (ignoreCodeAction Examples.platform 10
                      (uri Examples.twoTypos) (u16 "wrold") TargetWorkspace
                      Samples.started))) = Some ds
    /\ Forall (fun d => code d <> Some (u16 "wrold")) ds.
Proof.
  destruct (proj2 (ignoring_a_word_removes_its_diagnostics Examples.platform 10
                     (uri Examples.twoTypos) (u16 "wrold") TargetWorkspace
                     Samples.started) Examples.twoTypos)
    as (ds & A & _ & C & _); try reflexivity; [discriminate|].
  exists ds. auto.
Defined.

(* ------------------------------------------------------------------ *)
(** ** Publishing and closing *)

(** A check of a document replaces the diagnostics published for it by
    those of the pass, whatever was there, leaves the diagnostics of the
    other documents alone and records the time; closing the document
    removes its diagnostics and no others. *)
Theorem check_replaces_and_close_removes pf now document this pass :
  fileName document <> [] ->
  shouldCheck pf this document = true ->
  runPass pf this document = Ok pass ->
  exists this',
    doSpellCheck pf now (Some document) this = Ok this'
    /\ mapGet (uri document) (diagnosticCollection this')
       = Some (diagnostics pass)
    /\ lastcheck this' = now
    /\ (forall other, other <> uri document ->
          mapGet other (diagnosticCollection this')
          = mapGet other (diagnosticCollection this))
    /\ forall s,
         provider s = this' ->
         mapGet (uri document)
                (diagnosticCollection (provider (closeDocument document s)))
         = None
         /\ forall other, other <> uri document ->
              mapGet other
                     (diagnosticCollection (provider (closeDocument document s)))
              = mapGet other (diagnosticCollection this).
Proof.
  intros Hf Hs Hp. exists (publish now document pass this).
  destruct (publish_frame now document pass this) as (_ & B & _ & L).
  split; [apply doSpellCheck_publishes; assumption|].
  rewrite B. split; [apply mapGet_set|]. split; [exact L|].
  split; [intros other H; now apply mapGet_set_other|].
  intros s E. unfold closeDocument.
  cbn [provider withProvider withDiagnostics diagnosticCollection].
  rewrite E, B.
  split; [apply mapGet_delete|]. intros other H.
  rewrite mapGet_delete_other, mapGet_set_other by assumption. reflexivity.
Qed.

Lemma check_replaces_and_close_removes_witness :
  exists this',
    doSpellCheck Examples.platform 7 (Some Examples.twoTypos)
                 (Examples.activated DEFAULT_SETTINGS None) = Ok this'
    /\ mapGet (uri Examples.twoTypos) (diagnosticCollection this')
       = Some (diagnostics
                 (Examples.passOf (Examples.activated DEFAULT_SETTINGS None)
                                  Examples.twoTypos))
    /\ lastcheck this' = 7%Z.
Proof.
  destruct (check_replaces_and_close_removes Examples.platform 7
              Examples.twoTypos (Examples.activated DEFAULT_SETTINGS None)
              (Examples.passOf (Examples.activated DEFAULT_SETTINGS None)
                               Examples.twoTypos))
    as (this' & A & B & C & _); [discriminate|reflexivity| |].
  - vm_compute. reflexivity.
  - exists this'. auto.
Defined.

(* ------------------------------------------------------------------ *)
(** ** Pausing, scheduling and disposing *)

Lemma checkToken_same this this' document mt st :
  spellService this' = spellService this ->
  settings this' = settings this ->
  checkToken this' document mt st = checkToken this document mt st.
Proof.
  intros A B. unfold checkToken, getSeverity. now rewrite A, B.
Qed.

Lemma runPass_same pf this this' document :
  spellService this' = spellService this ->
  settings this' = settings this ->
  runPass pf this' document = runPass pf this document.
Proof.
  intros A B. unfold runPass, tokensOf, sanitizedText, getUserRegexps.
  rewrite B. generalize (mkPass [] 0 0).
  induction (matchAll _ wordRegex) as [|mt l IH]; intros st;
    cbn [checkLoop]; [reflexivity|].
  rewrite (checkToken_same this this' document mt st A B).
  destruct (checkToken this document mt st) as [[st1|st1]|e];
    [apply IH|reflexivity|reflexivity].
Qed.

Lemma provider_updateStatusBar s : provider (updateStatusBar s) = provider s.
Proof. unfold updateStatusBar. destruct (statusBarItem s); reflexivity. Qed.

Lemma messages_updateStatusBar s : messages (updateStatusBar s) = messages s.
Proof. unfold updateStatusBar. destruct (statusBarItem s); reflexivity. Qed.

Lemma toggleAutoCheck_frame pf now s :
  sameControls
    (withAutoCheckEnabled (negb (autoCheckEnabled (provider s))) (provider s))
    (provider (toggleAutoCheck pf now s)).
Proof.
  unfold toggleAutoCheck. cbv zeta.
  remember (updateStatusBar
              (withProvider
                 (withAutoCheckEnabled (negb (autoCheckEnabled (provider s)))
                                       (provider s)) s)) as s0 eqn:E0.
  assert (P0 : provider s0
               = withAutoCheckEnabled (negb (autoCheckEnabled (provider s)))
                                      (provider s))
    by (subst s0; apply provider_updateStatusBar).
  remember (say _ s0) as s1 eqn:E1.
  assert (P1 : provider s1 = provider s0) by (subst s1; reflexivity).
  rewrite <- P0, <- P1.
  destruct (autoCheckEnabled (provider s1));
    [|apply sameControls_refl].
  destruct (activeTextEditor _) as [document|]; [|apply sameControls_refl].
  cbn [provider withProvider].
  apply (settle_frame pf now (Some document) (provider s1)).
Qed.

(** While automatic checks are paused, a change, an open and a save of a
    document leave the provider and the editor as they are.  Pausing
    changes no setting, and toggling again turns the checks back on. *)
Theorem paused_provider_checks_nothing pf now s :
  autoCheckEnabled (provider s) = true ->
  let s1 := toggleAutoCheck pf now s in
  provider s1 = withAutoCheckEnabled false (provider s)
  /\ messages s1 = messages s ++ [CheckerPaused]
  /\ (forall now' document,
        handle pf now' (DidChange document) (provider s1) = provider s1
        /\ handle pf now' (DidOpen document) (provider s1) = provider s1
        /\ handle pf now' (DidSave document) (provider s1) = provider s1)
  /\ forall now',
       autoCheckEnabled (provider (toggleAutoCheck pf now' s1)) = true
       /\ settings (provider (toggleAutoCheck pf now' s1))
          = settings (provider s).
Proof.
  intros H. cbv zeta.
  assert (E : toggleAutoCheck pf now s
              = say CheckerPaused
                  (updateStatusBar
                     (withProvider (withAutoCheckEnabled false (provider s)) s))).
  { unfold toggleAutoCheck. cbv zeta. rewrite H. cbn [negb].
    assert (Q : forall m s0, provider (say m s0) = provider s0)
      by reflexivity.
    rewrite !Q, !provider_updateStatusBar.
    cbn [provider withProvider autoCheckEnabled withAutoCheckEnabled].
    reflexivity. }
  assert (P : provider (toggleAutoCheck pf now s)
              = withAutoCheckEnabled false (provider s)).
  { rewrite E. unfold say. cbn [provider]. apply provider_updateStatusBar. }
  split; [exact P|]. split.
  - rewrite E. unfold say. cbn [messages]. now rewrite messages_updateStatusBar.
  - split.
    + rewrite P. intros now' document. cbn [handle].
      unfold onDocumentChanged, maybeAutoCheck.
      cbn [autoCheckEnabled withAutoCheckEnabled negb]. rewrite !orb_true_r.
      split; [destruct (negb _); reflexivity|split; reflexivity].
    + intros now'.
      destruct (toggleAutoCheck_frame pf now' (toggleAutoCheck pf now s))
        as (_ & S2 & _ & _ & _ & S6 & _).
      rewrite S2, S6, P. split; reflexivity.
Qed.

Lemma paused_provider_checks_nothing_witness :
  provider (toggleAutoCheck Examples.platform 5 Samples.started)
  = withAutoCheckEnabled false (provider Samples.started)
  /\ handle Examples.platform 6 (DidChange Examples.twoTypos)
            (provider (toggleAutoCheck Examples.platform 5 Samples.started))
     = provider (toggleAutoCheck Examples.platform 5 Samples.started).
Proof.
  destruct (paused_provider_checks_nothing Examples.platform 5 Samples.started)
    as (A & _ & C & _); [reflexivity|].
  split; [exact A|apply C].
Defined.

(** A document that the provider does not check (another scheme than
    [file], a type that is not listed, an ignored extension or file name,
    or no dictionary loaded) is never checked: its change, open and save,
    and the command on it, leave the provider and the editor as they
    are. *)
Theorem unchecked_document_is_left_alone pf now document this :
  (shouldCheck pf this document = true <->
   SpellService.isReady (spellService this) = true
   /\ scheme document = u16 "file"
   /\ In (languageId document) (documentTypes (settings this))
   /\ ~ In (extname pf (fileName document))
          (ignoreFileExtensions (settings this))
   /\ ~ In (basename pf (fileName document)) (ignoreFilenames (settings this)))
  /\ (shouldCheck pf this document = false ->
      handle pf now (DidChange document) this = this
      /\ handle pf now (DidOpen document) this = this
      /\ handle pf now (DidSave document) this = this
      /\ doSpellCheck pf now (Some document) this = Ok this).
Proof.
  split.
  - unfold shouldCheck.
    destruct (SpellService.isReady _); cbn [negb];
      [|split; [discriminate|intros (A & _); discriminate]].
    destruct (str_eqb (scheme document) (u16 "file")) eqn:E1; cbn [negb].
    + apply ProviderFacts.str_eqb_eq in E1.
      destruct (includes (documentTypes _) _) eqn:E2; cbn [negb].
      * apply includes_In in E2.
        destruct (includes (ignoreFileExtensions _) _) eqn:E3.
        -- apply includes_In in E3. split; [discriminate|tauto].
        -- apply includes_false in E3.
           destruct (includes (ignoreFilenames _) _) eqn:E4.
           ++ apply includes_In in E4. split; [discriminate|tauto].
           ++ apply includes_false in E4. tauto.
      * apply includes_false in E2. split; [discriminate|tauto].
    + split; [discriminate|]. intros (_ & A & _).
      apply ProviderFacts.str_eqb_eq in A. congruence.
  - intros H. cbn [handle]. unfold onDocumentChanged, maybeAutoCheck.
    rewrite H. cbn [negb]. split; [reflexivity|].
    split; [destruct (_ || _); reflexivity|].
    split; [destruct (_ || _); reflexivity|].
    unfold doSpellCheck. cbn [firstSome]. rewrite H.
    destruct (fileName document); reflexivity.
Qed.

Lemma unchecked_document_is_left_alone_witness :
  handle Examples.platform 9
         (DidChange (mkDocument (u16 "untitled:1") (u16 "untitled")
                                (u16 "/a.md") (u16 "markdown") (u16 "helo")))
         (Examples.activated DEFAULT_SETTINGS None)
  = Examples.activated DEFAULT_SETTINGS None.
Proof.
  apply (unchecked_document_is_left_alone Examples.platform 9
           (mkDocument (u16 "untitled:1") (u16 "untitled") (u16 "/a.md")
                       (u16 "markdown") (u16 "helo"))
           (Examples.activated DEFAULT_SETTINGS None)).
  reflexivity.
Defined.

(** [dispose] leaves no timeout pending and an empty collection of
    diagnostics; a timeout that was armed before no longer runs a check. *)
Theorem dispose_cancels_the_pending_check s :
  timersOk (provider s) ->
  pending (host (provider (dispose s))) = []
  /\ diagnosticCollection (provider (dispose s)) = []
  /\ forall pf now tm,
       handle pf now (TimerFired tm) (provider (dispose s))
       = provider (dispose s).
Proof.
  intros T.
  assert (P : pending (host (provider (dispose s))) = []).
  { unfold dispose. cbn [provider withProvider withDiagnostics host].
    destruct (timer (provider s)) as [tm|] eqn:Et.
    - exact (clear_pending tm _ T Et).
    - destruct T as [P|(tm & T' & _)]; [exact P|congruence]. }
  split; [exact P|]. split; [reflexivity|].
  intros pf now tm. cbn [handle]. now rewrite P.
Qed.

Lemma dispose_cancels_the_pending_check_witness :
  pending (host (provider
                   (dispose
                      (step Examples.platform
                            (Editor 10 (DidChange Examples.twoTypos))
                            (step Examples.platform
                                  (Editor 5 (DidOpen Examples.twoTypos))
                                  Samples.started))))) = [].
Proof.
  apply (dispose_cancels_the_pending_check
           (step Examples.platform (Editor 10 (DidChange Examples.twoTypos))
                 (step Examples.platform (Editor 5 (DidOpen Examples.twoTypos))
                       Samples.started))).
  right. vm_compute. eexists. split; reflexivity.
Defined.

Lemma deferred_same pf this this' c :
  spellService this' = spellService this ->
  settings this' = settings this ->
  autoCheckEnabled this' = autoCheckEnabled this ->
  lastcheck this' = lastcheck this ->
  deferred pf this c -> deferred pf this' c.
Proof.
  intros A B C D (H1 & H2 & H3 & H4). unfold deferred.
  rewrite B, C, D. repeat split; try assumption.
  rewrite <- H1. apply shouldCheck_same; congruence.
Qed.

(** One deferred change: the timeout of the provider is replaced by a new
    one for twice the interval, the document is remembered, nothing is
    checked. *)
Lemma change_deferred pf this now document :
  timersOk this ->
  deferred pf this (now, document) ->
  let this' := handle pf now (DidChange document) this in
  (exists tm, pending (host this') = [tm]
     /\ timer this' = Some tm
     /\ delay tm = (2 * checkInterval (settings this))%Z
     /\ eventDocument tm = document)
  /\ timerTextDocument this' = Some document
  /\ spellService this' = spellService this
  /\ settings this' = settings this
  /\ autoCheckEnabled this' = autoCheckEnabled this
  /\ lastcheck this' = lastcheck this
  /\ diagnosticCollection this' = diagnosticCollection this
  /\ diagnosticMap this' = diagnosticMap this.
Proof.
  intros T (H1 & H2 & H3 & H4). cbn [fst snd] in *. cbv zeta.
  cbn [handle]. unfold onDocumentChanged. rewrite H1, H3. cbn [negb].
  destruct (Z.ltb_spec (checkInterval (settings this)) 0); [lia|].
  cbn [orb].
  destruct (Z.gtb_spec (now - lastcheck this) (checkInterval (settings this)));
    [lia|].
  assert (P : pending (host match timer this with
                             | Some tm => clearTimeout tm this
                             | None => this
                             end) = []).
  { destruct (timer this) as [tm|] eqn:Et.
    - exact (clear_pending tm this T Et).
    - destruct T as [P|(tm & T' & _)]; [exact P|congruence]. }
  unfold setTimeout, withTimer, withHost, withTimerTextDocument.
  cbn. rewrite P.
  split; [eexists; repeat split; destruct (timer this); reflexivity|].
  repeat split; destruct (timer this); try reflexivity.
  all: exact H3.
Qed.

Lemma changes_deferred pf : forall l this d0,
  timersOk this -> l <> [] -> Forall (deferred pf this) l ->
  let this' := changes pf l this in
  (exists tm, pending (host this') = [tm]
     /\ timer this' = Some tm
     /\ delay tm = (2 * checkInterval (settings this))%Z)
  /\ timerTextDocument this' = Some (snd (last l d0))
  /\ spellService this' = spellService this
  /\ settings this' = settings this
  /\ autoCheckEnabled this' = autoCheckEnabled this
  /\ lastcheck this' = lastcheck this
  /\ diagnosticCollection this' = diagnosticCollection this
  /\ diagnosticMap this' = diagnosticMap this.
Proof.
  induction l as [|[now document] l IH]; intros this d0 T Hne F; [congruence|].
  inversion F as [|? ? Hc Hl]; subst. cbv zeta. unfold changes.
  cbn [fold_left fst snd].
  destruct (change_deferred pf this now document T Hc)
    as ((tm & P & Tm & Dl & _) & A1 & A2 & A3 & A4 & A5 & A6 & A7).
  destruct l as [|c l].
  - cbn [fold_left last]. repeat split; try assumption. exists tm. auto.
  - set (this1 := handle pf now (DidChange document) this) in *.
    assert (T1 : timersOk this1) by (right; exists tm; auto).
    assert (F1 : Forall (deferred pf this1) (c :: l)).
    { eapply Forall_impl; [|exact Hl]. intros x.
      apply deferred_same; assumption. }
    destruct (IH this1 d0 T1 ltac:(discriminate) F1)
      as ((tm' & P' & Tm' & Dl') & B1 & B2 & B3 & B4 & B5 & B6 & B7).
    fold (changes pf (c :: l) this1).
    change (last ((now, document) :: c :: l) d0) with (last (c :: l) d0).
    split; [exists tm'; rewrite <- A3; auto|].
    repeat split; congruence.
Qed.

(** Changes that come while the last check is not older than the interval
    are not checked one by one: they leave one pending timeout, for twice
    the interval, and no new diagnostics; when it fires, the document
    changed last is checked, and no other. *)
Theorem burst_of_changes_ends_in_one_check pf this l d0 now' pass :
  timersOk this -> l <> [] -> Forall (deferred pf this) l ->
  fileName (snd (last l d0)) <> [] ->
  runPass pf this (snd (last l d0)) = Ok pass ->
  let document := snd (last l d0) in
  exists tm,
    pending (host (changes pf l this)) = [tm]
    /\ delay tm = (2 * checkInterval (settings this))%Z
    /\ lastcheck (changes pf l this) = lastcheck this
    /\ diagnosticCollection (changes pf l this) = diagnosticCollection this
    /\ let fired := handle pf now' (TimerFired tm) (changes pf l this) in
       pending (host fired) = []
       /\ lastcheck fired = now'
       /\ mapGet (uri document) (diagnosticCollection fired)
          = Some (diagnostics pass)
       /\ forall other, other <> uri document ->
            mapGet other (diagnosticCollection fired)
            = mapGet other (diagnosticCollection this).
Proof.
  intros T Hne F Hf Hp. cbv zeta.
  destruct (changes_deferred pf l this d0 T Hne F)
    as ((tm & P & Tm & Dl) & A1 & A2 & A3 & A4 & A5 & A6 & A7).
  cbv zeta in *. set (this1 := changes pf l this) in *.
  exists tm. split; [exact P|]. split; [exact Dl|]. split; [exact A5|].
  split; [exact A6|].
  cbn [handle]. rewrite P. cbn [existsb]. rewrite Nat.eqb_refl. cbn [orb].
  unfold timerFired.
  set (this2 := clearTimeout tm this1).
  assert (P2 : pending (host this2) = []).
  { subst this2. unfold clearTimeout, withHost. cbn. rewrite P. cbn.
    now rewrite Nat.eqb_refl. }
  assert (E2 : timerTextDocument this2 = Some (snd (last l d0))) by exact A1.
  rewrite E2. cbn [firstSome].
  assert (Hs : shouldCheck pf this2 (snd (last l d0)) = true).
  { assert (Hin : In (last l d0) l).
    { destruct l; [congruence|]. apply exists_last in Hne.
      destruct Hne as (l' & a & ->). rewrite last_last.
      apply in_or_app. right. left. reflexivity. }
    rewrite Forall_forall in F. destruct (F _ Hin) as (H1 & _).
    rewrite <- H1. apply shouldCheck_same; subst this2; cbn; congruence. }
  assert (Hp2 : runPass pf this2 (snd (last l d0)) = Ok pass).
  { rewrite <- Hp. apply runPass_same; subst this2; cbn; assumption. }
  rewrite (doSpellCheck_publishes pf now' _ this2 pass Hf Hs Hp2).
  cbn [settle].
  destruct (publish_frame now' (snd (last l d0)) pass this2)
    as (S & B & _ & L).
  assert (D2 : diagnosticCollection this2 = diagnosticCollection this)
    by exact A6.
  rewrite B, D2. split; [destruct S as (_ & _ & _ & _ & _ & _ & -> & _); exact P2|].
  split; [exact L|]. split; [apply mapGet_set|].
  intros other H. now apply mapGet_set_other.
Qed.

Lemma burst_of_changes_ends_in_one_check_witness :
  exists tm,
    pending (host (changes Examples.platform
                     [(10%Z, Examples.twoTypos); (20%Z, Samples.report)]
                     (provider Samples.started))) = [tm]
    /\ delay tm = 6000%Z
    /\ mapGet (uri Samples.report)
         (diagnosticCollection
            (handle Examples.platform 6020 (TimerFired tm)
               (changes Examples.platform
                  [(10%Z, Examples.twoTypos); (20%Z, Samples.report)]
                  (provider Samples.started))))
       = Some (diagnostics (Examples.passOf (provider Samples.started)
                                            Samples.report))
    /\ mapGet (uri Examples.twoTypos)
         (diagnosticCollection
            (handle Examples.platform 6020 (TimerFired tm)
               (changes Examples.platform
                  [(10%Z, Examples.twoTypos); (20%Z, Samples.report)]
                  (provider Samples.started))))
       = None.
Proof.
  destruct (burst_of_changes_ends_in_one_check Examples.platform
              (provider Samples.started)
              [(10%Z, Examples.twoTypos); (20%Z, Samples.report)]
              (0%Z, Examples.twoTypos) 6020
              (Examples.passOf (provider Samples.started) Samples.report))
    as (tm & A & B & _ & _ & _ & _ & E & F).
  - left. reflexivity.
  - discriminate.
  - repeat constructor; cbn; try reflexivity; lia.
  - discriminate.
  - vm_compute. reflexivity.
  - exists tm. split; [exact A|]. split; [exact B|]. split; [exact E|].
    rewrite F; [reflexivity|]. vm_compute. discriminate.
Defined.

(** A change that comes when the last check is older than the interval is
    checked at once: the diagnostics of the document are published, the
    time is recorded, no timeout stays pending, and a change within the
    interval after it is deferred. *)
Theorem stale_change_is_checked_at_once pf now document this pass :
  timersOk this ->
  shouldCheck pf this document = true ->
  fileName document <> [] ->
  (0 <= checkInterval (settings this))%Z ->
  autoCheckEnabled this = true ->
  (now - lastcheck this > checkInterval (settings this))%Z ->
  runPass pf this document = Ok pass ->
  let this' := handle pf now (DidChange document) this in
  pending (host this') = []
  /\ timer this' = None
  /\ lastcheck this' = now
  /\ mapGet (uri document) (diagnosticCollection this')
     = Some (diagnostics pass)
  /\ forall now2 document2,
       shouldCheck pf this document2 = true ->
       (now2 - now <= checkInterval (settings this))%Z ->
       deferred pf this' (now2, document2).
Proof.
  intros T Hs Hf Hi Ha Hn Hp. cbv zeta. cbn [handle].
  unfold onDocumentChanged. rewrite Hs, Ha. cbn [negb].
  destruct (Z.ltb_spec (checkInterval (settings this)) 0); [lia|].
  cbn [orb].
  destruct (Z.gtb_spec (now - lastcheck this) (checkInterval (settings this)));
    [|lia].
  set (this1 := match timer this with
                | Some tm => withTimer None (clearTimeout tm this)
                | None => this
                end).
  assert (F1 : pending (host this1) = [] /\ timer this1 = None
               /\ spellService this1 = spellService this
               /\ settings this1 = settings this
               /\ autoCheckEnabled this1 = autoCheckEnabled this).
  { subst this1. destruct (timer this) as [tm|] eqn:Et.
    - split; [exact (clear_pending tm this T Et)|repeat split].
    - destruct T as [P|(tm & T' & _)]; [|congruence]. repeat split; auto. }
  destruct F1 as (P1 & T1 & S1 & S2 & S3).
  assert (Hs1 : shouldCheck pf this1 document = true)
    by (rewrite <- Hs; apply shouldCheck_same; congruence).
  assert (Hp1 : runPass pf this1 document = Ok pass)
    by (rewrite <- Hp; apply runPass_same; assumption).
  rewrite (doSpellCheck_publishes pf now document this1 pass Hf Hs1 Hp1).
  cbn [settle].
  destruct (publish_frame now document pass this1) as (S & B & _ & L).
  destruct S as (E1 & E2 & _ & E4 & _ & E6 & E7 & _).
  split; [congruence|]. split; [congruence|]. split; [exact L|].
  split; [rewrite B; apply mapGet_set|].
  intros now2 document2 Hs2 Hn2. unfold deferred. cbn [fst snd].
  rewrite E2, S2, E6, S3, L. repeat split; try assumption.
  rewrite <- Hs2. apply shouldCheck_same; congruence.
Qed.

Lemma stale_change_is_checked_at_once_witness :
  lastcheck (handle Examples.platform 5000 (DidChange Examples.twoTypos)
                    (provider Samples.started)) = 5000%Z
  /\ pending (host (handle Examples.platform 5000
                           (DidChange Examples.twoTypos)
                           (provider Samples.started))) = [].
Proof.
  destruct (stale_change_is_checked_at_once Examples.platform 5000
              Examples.twoTypos (provider Samples.started)
              (Examples.passOf (provider Samples.started) Examples.twoTypos))
    as (A & _ & C & _); try reflexivity.
  - left. reflexivity.
  - discriminate.
  - discriminate.
  - split; assumption.
Defined.

(** A switch to a language whose dictionary cannot be loaded is recorded
    in the settings all the same, while the service keeps the dictionary
    it had and the status bar goes on showing the language of that
    dictionary. *)
Theorem failed_switch_keeps_the_dictionary pf now language s e old :
  steady s ->
  fst (SpellService.load (files pf) language (extensionRoot (provider s))
                         (spellService (provider s))) = Throw e ->
  SpellService.getLanguage (spellService (provider s)) = Some old ->
  let s' := setLanguage pf now language s in
  Provider.language (settings (provider s')) = language
  /\ spellService (provider s') = spellService (provider s)
  /\ option_map statusLanguage (statusBarItem s') = Some old
  /\ In (LoadFailedMessage language e) (shown (host (provider s'))).
Proof.
  intros H Hl Ho. cbv zeta.
  pose proof (step_steady pf (SetLanguage now language) s H) as H'.
  cbn [step] in H'. destruct H' as [_ B'].
  unfold setLanguage in *.
  set (this1 := loadDictionary pf language (provider s)) in *.
  set (this2 := withSettings (withLanguage language (settings this1)) this1)
    in *.
  assert (L1 : spellService this1 = spellService (provider s)
               /\ shown (host this1)
                  = shown (host (provider s)) ++ [LoadFailedMessage language e]).
  { subst this1. unfold loadDictionary.
    destruct (load_result (files pf) language (extensionRoot (provider s))
                          (spellService (provider s))) as [[e' E]|[d E]];
      rewrite E in *; cbn [fst] in Hl; [|discriminate].
    inversion Hl; subst e'. split; reflexivity. }
  destruct L1 as [L1 L2].
  assert (C2 : consistent (spellService this2) = true).
  { change (spellService this2) with (spellService this1). rewrite L1.
    apply H. }
  destruct (doSpellCheck_ok pf now (activeTextEditor (host this2)) this2 C2)
    as [this3 E].
  rewrite E in *.
  assert (S3 : sameControls this2 this3
               /\ incl (shown (host this2)) (shown (host this3))).
  { destruct (doSpellCheck_cases pf now (activeTextEditor (host this2)) this2)
      as [E'|[[e' E']|(document & pass & _ & _ & _ & _ & E')]];
      rewrite E' in E; inversion E; subst this3.
    - split; [apply sameControls_refl|apply incl_refl].
    - split; [apply publish_frame|]. unfold publish. cbn [host shown].
      generalize (overflow pass). intros n.
      induction n as [|n IH]; cbn [Nat.iter]; [apply incl_refl|].
      unfold show at 1. cbn [host withHost shown].
      intros x Hx. apply in_or_app. left. apply IH, Hx. }
  destruct S3 as [S3 I3].
  assert (P3 : provider (updateStatusBar (withProvider this3 s)) = this3)
    by exact (provider_updateStatusBar (withProvider this3 s)).
  rewrite P3 in *.
  destruct S3 as (E1 & E2 & _ & _ & _ & E6 & _).
  split; [rewrite E2; reflexivity|]. split; [rewrite E1; exact L1|].
  split.
  - rewrite B'. cbn [option_map render statusLanguage]. unfold render.
    rewrite E1. change (spellService this2) with (spellService this1).
    rewrite L1, Ho. reflexivity.
  - apply I3. change (shown (host this2)) with (shown (host this1)).
    rewrite L2. apply in_or_app. right. left. reflexivity.
Qed.

Lemma failed_switch_keeps_the_dictionary_witness :
  Provider.language
    (settings (provider (setLanguage Examples.platform 3 SpellService.fr
                                     Samples.started))) = SpellService.fr
  /\ option_map statusLanguage
       (statusBarItem (setLanguage Examples.platform 3 SpellService.fr
                                   Samples.started))
     = Some SpellService.en_US.
Proof.
  destruct (failed_switch_keeps_the_dictionary Examples.platform 3
              SpellService.fr Samples.started IOError SpellService.en_US)
    as (A & _ & C & _).
  - apply (session_steady Examples.platform Examples.root Samples.unset None
             [Examples.twoTypos] (Some Examples.twoTypos) []).
  - vm_compute. reflexivity.
  - reflexivity.
  - split; assumption.
Defined.

(* ------------------------------------------------------------------ *)
(** ** Activation and changes of the configuration *)

(** A change of the configuration loads the settings and the dictionary
    of the configured language again and sets the pause state from
    [autoCheck], whatever [toggleAutoCheck] made of it; it checks no
    document: the diagnostics, the time of the last check and the pending
    timeout stay as they are. *)
Theorem configuration_change_checks_nothing pf config legacy s :
  let this := provider s in
  let this' := provider (settingsChanged pf config legacy s) in
  settings this' = loadSettings config legacy
  /\ autoCheckEnabled this' = autoCheck (loadSettings config legacy)
  /\ spellService this'
     = snd (SpellService.load (files pf)
              (Provider.language (loadSettings config legacy))
              (extensionRoot this) (spellService this))
  /\ diagnosticCollection this' = diagnosticCollection this
  /\ diagnosticMap this' = diagnosticMap this
  /\ lastcheck this' = lastcheck this
  /\ timer this' = timer this
  /\ pending (host this') = pending (host this).
Proof.
  cbv zeta. unfold settingsChanged. rewrite provider_updateStatusBar.
  cbn [provider withProvider].
  destruct (loadDictionary_frame pf
              (Provider.language
                 (settings
                    (withAutoCheckEnabled
                       (autoCheck
                          (settings
                             (withSettings (loadSettings config legacy)
                                           (provider s))))
                       (withSettings (loadSettings config legacy)
                                     (provider s)))))
              (withAutoCheckEnabled
                 (autoCheck
                    (settings
                       (withSettings (loadSettings config legacy)
                                     (provider s))))
                 (withSettings (loadSettings config legacy) (provider s))))
    as (A1 & A2 & A3 & A4 & A5 & A6 & _ & A8 & A9).
  cbv zeta in *. rewrite A1, A2, A3, A4, A5, A6, A8, A9.
  repeat split.
Qed.

Lemma shouldCheck_not_ready pf this document :
  SpellService.isReady (spellService this) = false ->
  shouldCheck pf this document = false.
Proof. intros H. unfold shouldCheck. now rewrite H. Qed.

Lemma doSpellCheck_not_ready pf now textDocument this :
  SpellService.isReady (spellService this) = false ->
  doSpellCheck pf now textDocument this = Ok this.
Proof.
  intros H. unfold doSpellCheck.
  destruct (firstSome _ _) as [document|]; [|reflexivity].
  destruct (fileName document); [reflexivity|].
  now rewrite (shouldCheck_not_ready pf this document H).
Qed.

Lemma handle_not_ready pf now e this :
  SpellService.isReady (spellService this) = false ->
  spellService (handle pf now e this) = spellService this
  /\ diagnosticCollection (handle pf now e this) = diagnosticCollection this
  /\ diagnosticMap (handle pf now e this) = diagnosticMap this
  /\ lastcheck (handle pf now e this) = lastcheck this.
Proof.
  intros H. destruct e as [d|d|d|tm|]; cbn [handle].
  - unfold maybeAutoCheck. destruct (_ || _); [repeat split|].
    rewrite (shouldCheck_not_ready pf this d H). repeat split.
  - unfold maybeAutoCheck. destruct (_ || _); [repeat split|].
    rewrite (shouldCheck_not_ready pf this d H). repeat split.
  - unfold onDocumentChanged.
    rewrite (shouldCheck_not_ready pf this d H). repeat split.
  - destruct (existsb _ _); [|repeat split]. unfold timerFired.
    rewrite (doSpellCheck_not_ready pf now _ (clearTimeout tm this) H).
    repeat split.
  - unfold checkDocumentCommand.
    rewrite (doSpellCheck_not_ready pf now _ this H). repeat split.
Qed.

(** When the dictionary of the configured language cannot be loaded at
    activation, the failure is shown, the status bar shows the configured
    language, and the events of the editor that follow (opens, saves,
    changes, timeouts, the command to check) publish no diagnostics and
    record no check. *)
Theorem failed_activation_checks_nothing
  pf extensionPath config legacy documents h e
  (events : list (Z * Event)) :
  fst (SpellService.load (files pf)
         (Provider.language (loadSettings config legacy))
         extensionPath SpellService.new) = Throw e ->
  let s := activate pf extensionPath config legacy documents h in
  let s' := run pf (map (fun c => Editor (fst c) (snd c)) events) s in
  shown (host (provider s))
  = shown h
    ++ [LoadFailedMessage (Provider.language (loadSettings config legacy)) e]
  /\ option_map statusLanguage (statusBarItem s)
     = Some (Provider.language (loadSettings config legacy))
  /\ SpellService.isReady (spellService (provider s')) = false
  /\ diagnosticCollection (provider s') = []
  /\ lastcheck (provider s') = (-1)%Z.
Proof.
  intros Hl. cbv zeta.
  assert (A : spellService
                (provider (activate pf extensionPath config legacy documents h))
              = SpellService.new
              /\ diagnosticCollection
                   (provider
                      (activate pf extensionPath config legacy documents h))
                 = []
              /\ lastcheck
                   (provider
                      (activate pf extensionPath config legacy documents h))
                 = (-1)%Z
              /\ shown
                   (host
                      (provider
                         (activate pf extensionPath config legacy documents h)))
                 = shown h
                   ++ [LoadFailedMessage
                         (Provider.language (loadSettings config legacy)) e]
              /\ option_map statusLanguage
                   (statusBarItem
                      (activate pf extensionPath config legacy documents h))
                 = Some (Provider.language (loadSettings config legacy))).
  { unfold activate, created. cbv zeta.
    cbn [spellService diagnosticCollection diagnosticMap settings lastcheck
         timer timerTextDocument autoCheckEnabled host withSettings
         withAutoCheckEnabled].
    unfold loadDictionary.
    cbn [spellService extensionRoot withSettings withAutoCheckEnabled].
    destruct (load_result (files pf)
                (Provider.language (loadSettings config legacy))
                extensionPath SpellService.new) as [[e' E]|[d E]];
      rewrite E in *; cbn [fst] in Hl; [|discriminate].
    inversion Hl; subst e'. repeat split. }
  destruct A as (A1 & A2 & A3 & A4 & A5).
  split; [exact A4|]. split; [exact A5|].
  assert (G : forall l s0,
            SpellService.isReady (spellService (provider s0)) = false ->
            diagnosticCollection (provider s0) = [] ->
            lastcheck (provider s0) = (-1)%Z ->
            SpellService.isReady
              (spellService
                 (provider
                    (run pf (map (fun c : Z * Event => Editor (fst c) (snd c)) l)
                         s0))) = false
            /\ diagnosticCollection
                 (provider
                    (run pf (map (fun c : Z * Event => Editor (fst c) (snd c)) l)
                         s0)) = []
            /\ lastcheck
                 (provider
                    (run pf (map (fun c : Z * Event => Editor (fst c) (snd c)) l)
                         s0)) = (-1)%Z).
  { induction l as [|[now ev] l IH]; intros s0 H1 H2 H3; [auto|].
    unfold run. cbn [map fold_left fst snd step].
    apply IH; cbn [provider withProvider];
      destruct (handle_not_ready pf now ev (provider s0) H1)
        as (B1 & B2 & _ & B4); congruence. }
  apply G; [rewrite A1; reflexivity|exact A2|exact A3].
Qed.

Lemma failed_activation_checks_nothing_witness :
  diagnosticCollection
    (provider
       (run Examples.platform
            [Editor 5 (DidOpen Examples.twoTypos);
             Editor 9 (DidChange Examples.twoTypos); Editor 12 CheckDocument]
            (activate Examples.platform Examples.root
               (mkConfiguration (JString (u16 "fr")) JUndefined JUndefined
                                JUndefined JUndefined JUndefined JUndefined
                                JUndefined JUndefined JUndefined JUndefined)
               None [Examples.twoTypos]
               (mkHost [] 0 (Some Examples.twoTypos) [])))) = [].
Proof.
  apply (failed_activation_checks_nothing Examples.platform Examples.root
           (mkConfiguration (JString (u16 "fr")) JUndefined JUndefined
                            JUndefined JUndefined JUndefined JUndefined
                            JUndefined JUndefined JUndefined JUndefined)
           None [Examples.twoTypos]
           (mkHost [] 0 (Some Examples.twoTypos) []) IOError
           [(5%Z, DidOpen Examples.twoTypos);
            (9%Z, DidChange Examples.twoTypos); (12%Z, CheckDocument)]).
  vm_compute. reflexivity.
Defined.

End SessionFacts.
